(** * Drag-and-drop reordering controller ([src/lib/utils/dnd.ts])

    A shallow embedding of the [dragDrop] controller: the container's child
    list, the controller's closure variables, the listeners it installs on
    [document], and every handler as a function on that state.

    Conventions of the embedding.
    - Pointer coordinates, box geometry and timestamps are whole numbers
      ([Z]); the two fractional factors of the source ([* 1.5], [* 0.7]) and
      the midpoint ([+ width / 2]) are compared after cross-multiplying.
    - What the code reads from the browser (the ancestor chain of an event
      target, hit-testing, bounding boxes, computed style, [Date.now()])
      comes with the event that triggers the handler.
    - A node is a record of its identity and of the attributes the code
      tests; two nodes are the same object exactly when the records are
      equal.  The container's [childNodes] are a list of nodes, text nodes
      included; the ghosts appended to [document.body] are a second list.
    - [onDrop] is modelled by a log of the argument pairs it is called with.
    - The [pointerdown] listeners that [setupListeners] and the mutation
      observer keep on the items are not part of the state: the event
      [PointerDown] stands for a pointerdown that reaches
      [handlePointerDown].
    - Left out, because no handler depends on them: the ghost's and the
      placeholder's CSS, the variables that only feed the ghost's position
      ([startX], [startY], [currentX], [currentY], [offsetX], [offsetY],
      also inside [pendingDrag]), [hasMoved] (written, never read), pointer
      capture, [preventDefault] and [stopPropagation]. *)

From Stdlib Require Import ZArith List Bool Lia String.
Import ListNotations.
Open Scope Z_scope.

#[local] Arguments Z.mul : simpl never.
#[local] Arguments Z.add : simpl never.
#[local] Arguments Z.sub : simpl never.

(** ** DOM nodes and child lists *)

Inductive Tag :=
| TButton | TInput | TSelect | TTextarea | TAnchor | TDiv | TOther
| TText.  (* a text or comment node: a sibling, but not an element *)

Record Node := mkNode {
  nid : nat;                (* object identity *)
  tag : Tag;
  roleButton : bool;        (* role="button" *)
  dataDraggable : bool;     (* hasAttribute('data-draggable') *)
  dataPlaceholder : bool;   (* hasAttribute('data-placeholder') *)
  listClass : bool          (* matches .categories-list, .spots-list,
                               .tags-list or .tags-list-modal *)
}.

Definition tag_eq_dec (a b : Tag) : {a = b} + {a <> b}.
Proof. decide equality. Defined.

Definition node_eq_dec (a b : Node) : {a = b} + {a <> b}.
Proof.
  decide equality; try apply Bool.bool_dec.
  - apply tag_eq_dec.
  - apply Nat.eq_dec.
Defined.

Definition node_eqb (a b : Node) : bool :=
  if node_eq_dec a b then true else false.

Arguments node_eqb : simpl never.

Definition opt_node_eqb (a b : option Node) : bool :=
  match a, b with
  | Some x, Some y => node_eqb x y
  | None, None => true
  | _, _ => false
  end.

Definition isElement (n : Node) : bool :=
  match tag n with TText => false | _ => true end.

(** [Array.prototype.indexOf]: first position, or [-1]. *)
Fixpoint indexOf (x : Node) (l : list Node) : Z :=
  match l with
  | [] => -1
  | n :: t =>
      if node_eqb n x then 0
      else let i := indexOf x t in if i =? -1 then -1 else i + 1
  end.

Definition isChild (x : Node) (l : list Node) : bool := existsb (node_eqb x) l.

(** [x.remove()] seen from the parent's child list. *)
Definition removeNode (x : Node) (l : list Node) : list Node :=
  filter (fun n => negb (node_eqb n x)) l.

(** [x.nextSibling] inside the child list [l]. *)
Fixpoint nextSibling (x : Node) (l : list Node) : option Node :=
  match l with
  | [] => None
  | n :: t => if node_eqb n x then hd_error t else nextSibling x t
  end.

(** Put [x] immediately before the child [ref]. *)
Fixpoint insertAt (x ref : Node) (l : list Node) : list Node :=
  match l with
  | [] => [x]
  | n :: t => if node_eqb n ref then x :: n :: t else n :: insertAt x ref t
  end.

(** [parent.insertBefore(x, ref)] on the child list [l] of [parent]
    (DOM "pre-insert"): when [ref] is [x] itself the reference becomes
    [x]'s next sibling; [x] is taken out of the list before it is put
    back; a null reference appends.  Every call site of the controller
    passes a reference taken from the same child list, so the
    [NotFoundError] of the DOM cannot arise; [insertAt] appends there. *)
Definition domInsertBefore (x : Node) (ref : option Node) (l : list Node)
  : list Node :=
  let ref' := match ref with
              | Some r => if node_eqb r x then nextSibling x l else Some r
              | None => None
              end in
  match ref' with
  | Some r => insertAt x r (removeNode x l)
  | None => removeNode x l ++ [x]
  end.

Definition domAppendChild (x : Node) (l : list Node) : list Node :=
  domInsertBefore x None l.

(** [target.closest(sel)] over the chain [target :: ancestors]. *)
Definition closest (sel : Node -> bool) (path : list Node) : option Node :=
  find sel path.

(** The chain that starts at [x]: [x] and its ancestors. *)
Fixpoint chainFrom (x : Node) (path : list Node) : list Node :=
  match path with
  | [] => []
  | n :: t => if node_eqb n x then n :: t else chainFrom x t
  end.

(** The selector 'button, input, select, textarea, a, [role="button"]'. *)
Definition isInteractive (n : Node) : bool :=
  match tag n with
  | TButton | TInput | TSelect | TTextarea | TAnchor => true
  | _ => roleButton n
  end.

(** ** Geometry and computed style, as read from the browser *)

Record Rect := mkRect { left : Z; top : Z; width : Z; height : Z }.

Definition right (r : Rect) : Z := left r + width r.
Definition bottom (r : Rect) : Z := top r + height r.

Record Metrics := mkMetrics {
  scrollHeight : Z; clientHeight : Z; scrollWidth : Z; clientWidth : Z }.

Inductive FlexWrap := Nowrap | Wrap | WrapReverse.
Inductive Display := DFlex | DOtherDisplay.
Inductive FlexDirection := Row | RowReverse | Column | ColumnReverse.

Record Layout := mkLayout {
  flexWrap : FlexWrap;                    (* getComputedStyle(node) *)
  display : Display;
  flexDirection : FlexDirection;
  elementFromPoint : Z -> Z -> list Node; (* hit element and its ancestors,
                                             ghost hidden; [] when none *)
  rectOf : Node -> Rect                   (* getBoundingClientRect() *)
}.

(** ** Events *)

Inductive PointerType := Mouse | Pen | Touch.

Record DownEvent := mkDown {
  d_path : list Node;          (* e.target and its ancestors *)
  d_pointerType : PointerType;
  d_ontouchstart : bool;       (* 'ontouchstart' in window *)
  d_clientX : Z;
  d_clientY : Z;
  d_now : Z;                   (* Date.now() *)
  d_metrics : Node -> Metrics
}.

Record MoveEvent := mkMove {
  m_clientX : Z;
  m_clientY : Z;
  m_now : Z                    (* Date.now() *)
}.

(** ** Controller state *)

Record Options := mkOptions {
  disabled : bool;
  handle : option (Node -> bool)   (* the handle selector, if any *)
}.

Record PendingDrag := mkPending {
  p_item : Node; p_startY : Z; p_startX : Z }.

(** The variables captured by one [handleMove]/[handleUp] pair. *)
Record Gesture := mkGesture {
  g_id : nat;                  (* identity of the closure pair *)
  g_isTouch : bool;
  g_isScrollable : bool;
  g_startTime : Z
}.

Inductive MoveListener := LHandleMove (g : Gesture) | LHandlePointerMove.
Inductive UpListener := LHandleUp (g : Gesture) | LHandlePointerUp.

Definition gesture_eqb (a b : Gesture) : bool :=
  Nat.eqb (g_id a) (g_id b) && Bool.eqb (g_isTouch a) (g_isTouch b)
  && Bool.eqb (g_isScrollable a) (g_isScrollable b)
  && (g_startTime a =? g_startTime b).

Definition moveL_eqb (a b : MoveListener) : bool :=
  match a, b with
  | LHandleMove g, LHandleMove h => gesture_eqb g h
  | LHandlePointerMove, LHandlePointerMove => true
  | _, _ => false
  end.

Definition upL_eqb (a b : UpListener) : bool :=
  match a, b with
  | LHandleUp g, LHandleUp h => gesture_eqb g h
  | LHandlePointerUp, LHandlePointerUp => true
  | _, _ => false
  end.

(** The inline style properties and the class the controller touches. *)
Record ItemStyle := mkStyle {
  opacity : string; transition : string; pointerEvents : string;
  draggingClass : bool }.

Definition clearStyle : ItemStyle := mkStyle "" "" "" false.

Record Controller := mkController {
  options : Options;
  draggedElement : option Node;
  draggedIndex : Z;
  ghostElement : option Node;
  placeholder : option Node;
  isDragging : bool;
  animationFrameId : option (Z * Z);  (* the requested frame callback, with
                                         the coordinates it captured *)
  pendingDrag : option PendingDrag;
  isHorizontalLayout : bool
}.

Record Document := mkDocument {
  kids : list Node;            (* node.childNodes, in order *)
  bodyKids : list Node;        (* ghosts appended to document.body *)
  itemStyle : Node -> ItemStyle;
  bodyGrabbing : bool;         (* body.style.userSelect / cursor overridden *)
  moveListeners : list MoveListener;   (* document 'pointermove' *)
  upListeners : list UpListener;       (* document 'pointerup' *)
  cancelListeners : list UpListener;   (* document 'pointercancel' *)
  nextId : nat                 (* supply of fresh object identities *)
}.

Record State := mkState {
  ctl : Controller;
  doc : Document;
  dropLog : list (Z * Z)       (* calls of options.onDrop, oldest first *)
}.

(** Field updates. *)

Definition set_options (v : Options) (r : Controller) : Controller :=
  {| options := v; draggedElement := draggedElement r; draggedIndex :=
     draggedIndex r; ghostElement := ghostElement r; placeholder :=
     placeholder r; isDragging := isDragging r; animationFrameId :=
     animationFrameId r; pendingDrag := pendingDrag r;
     isHorizontalLayout := isHorizontalLayout r |}.

Definition set_draggedElement (v : option Node) (r : Controller) : Controller :=
  {| options := options r; draggedElement := v; draggedIndex :=
     draggedIndex r; ghostElement := ghostElement r; placeholder :=
     placeholder r; isDragging := isDragging r; animationFrameId :=
     animationFrameId r; pendingDrag := pendingDrag r;
     isHorizontalLayout := isHorizontalLayout r |}.

Definition set_draggedIndex (v : Z) (r : Controller) : Controller :=
  {| options := options r; draggedElement := draggedElement r;
     draggedIndex := v; ghostElement := ghostElement r; placeholder :=
     placeholder r; isDragging := isDragging r; animationFrameId :=
     animationFrameId r; pendingDrag := pendingDrag r;
     isHorizontalLayout := isHorizontalLayout r |}.

Definition set_ghostElement (v : option Node) (r : Controller) : Controller :=
  {| options := options r; draggedElement := draggedElement r;
     draggedIndex := draggedIndex r; ghostElement := v; placeholder :=
     placeholder r; isDragging := isDragging r; animationFrameId :=
     animationFrameId r; pendingDrag := pendingDrag r;
     isHorizontalLayout := isHorizontalLayout r |}.

Definition set_placeholder (v : option Node) (r : Controller) : Controller :=
  {| options := options r; draggedElement := draggedElement r;
     draggedIndex := draggedIndex r; ghostElement := ghostElement r;
     placeholder := v; isDragging := isDragging r; animationFrameId :=
     animationFrameId r; pendingDrag := pendingDrag r;
     isHorizontalLayout := isHorizontalLayout r |}.

Definition set_isDragging (v : bool) (r : Controller) : Controller :=
  {| options := options r; draggedElement := draggedElement r;
     draggedIndex := draggedIndex r; ghostElement := ghostElement r;
     placeholder := placeholder r; isDragging := v; animationFrameId :=
     animationFrameId r; pendingDrag := pendingDrag r;
     isHorizontalLayout := isHorizontalLayout r |}.

Definition set_animationFrameId (v : option (Z * Z)) (r : Controller) : Controller :=
  {| options := options r; draggedElement := draggedElement r;
     draggedIndex := draggedIndex r; ghostElement := ghostElement r;
     placeholder := placeholder r; isDragging := isDragging r;
     animationFrameId := v; pendingDrag := pendingDrag r;
     isHorizontalLayout := isHorizontalLayout r |}.

Definition set_pendingDrag (v : option PendingDrag) (r : Controller) : Controller :=
  {| options := options r; draggedElement := draggedElement r;
     draggedIndex := draggedIndex r; ghostElement := ghostElement r;
     placeholder := placeholder r; isDragging := isDragging r;
     animationFrameId := animationFrameId r; pendingDrag := v;
     isHorizontalLayout := isHorizontalLayout r |}.

Definition set_isHorizontalLayout (v : bool) (r : Controller) : Controller :=
  {| options := options r; draggedElement := draggedElement r;
     draggedIndex := draggedIndex r; ghostElement := ghostElement r;
     placeholder := placeholder r; isDragging := isDragging r;
     animationFrameId := animationFrameId r; pendingDrag := pendingDrag
     r; isHorizontalLayout := v |}.

Definition set_kids (v : list Node) (r : Document) : Document :=
  {| kids := v; bodyKids := bodyKids r; itemStyle := itemStyle r;
     bodyGrabbing := bodyGrabbing r; moveListeners := moveListeners r;
     upListeners := upListeners r; cancelListeners := cancelListeners r;
     nextId := nextId r |}.

Definition set_bodyKids (v : list Node) (r : Document) : Document :=
  {| kids := kids r; bodyKids := v; itemStyle := itemStyle r;
     bodyGrabbing := bodyGrabbing r; moveListeners := moveListeners r;
     upListeners := upListeners r; cancelListeners := cancelListeners r;
     nextId := nextId r |}.

Definition set_itemStyle (v : Node -> ItemStyle) (r : Document) : Document :=
  {| kids := kids r; bodyKids := bodyKids r; itemStyle := v;
     bodyGrabbing := bodyGrabbing r; moveListeners := moveListeners r;
     upListeners := upListeners r; cancelListeners := cancelListeners r;
     nextId := nextId r |}.

Definition set_bodyGrabbing (v : bool) (r : Document) : Document :=
  {| kids := kids r; bodyKids := bodyKids r; itemStyle := itemStyle r;
     bodyGrabbing := v; moveListeners := moveListeners r; upListeners :=
     upListeners r; cancelListeners := cancelListeners r; nextId :=
     nextId r |}.

Definition set_moveListeners (v : list MoveListener) (r : Document) : Document :=
  {| kids := kids r; bodyKids := bodyKids r; itemStyle := itemStyle r;
     bodyGrabbing := bodyGrabbing r; moveListeners := v; upListeners :=
     upListeners r; cancelListeners := cancelListeners r; nextId :=
     nextId r |}.

Definition set_upListeners (v : list UpListener) (r : Document) : Document :=
  {| kids := kids r; bodyKids := bodyKids r; itemStyle := itemStyle r;
     bodyGrabbing := bodyGrabbing r; moveListeners := moveListeners r;
     upListeners := v; cancelListeners := cancelListeners r; nextId :=
     nextId r |}.

Definition set_cancelListeners (v : list UpListener) (r : Document) : Document :=
  {| kids := kids r; bodyKids := bodyKids r; itemStyle := itemStyle r;
     bodyGrabbing := bodyGrabbing r; moveListeners := moveListeners r;
     upListeners := upListeners r; cancelListeners := v; nextId :=
     nextId r |}.

Definition set_nextId (v : nat) (r : Document) : Document :=
  {| kids := kids r; bodyKids := bodyKids r; itemStyle := itemStyle r;
     bodyGrabbing := bodyGrabbing r; moveListeners := moveListeners r;
     upListeners := upListeners r; cancelListeners := cancelListeners r;
     nextId := v |}.

Definition upd_ctl (f : Controller -> Controller) (s : State) : State :=
  {| ctl := f (ctl s); doc := doc s; dropLog := dropLog s |}.

Definition upd_doc (f : Document -> Document) (s : State) : State :=
  {| ctl := ctl s; doc := f (doc s); dropLog := dropLog s |}.

Definition callOnDrop (fromIndex toIndex : Z) (s : State) : State :=
  {| ctl := ctl s; doc := doc s;
     dropLog := dropLog s ++ [(fromIndex, toIndex)] |}.

Definition setStyle (n : Node) (st : ItemStyle) (f : Node -> ItemStyle)
  : Node -> ItemStyle :=
  fun m => if node_eqb m n then st else f m.

(** [addEventListener] ignores a callback that is already registered. *)
Definition addMoveListener (l : MoveListener) (ls : list MoveListener) :=
  if existsb (moveL_eqb l) ls then ls else ls ++ [l].

Definition addUpListener (l : UpListener) (ls : list UpListener) :=
  if existsb (upL_eqb l) ls then ls else ls ++ [l].

Definition removeMoveListener (l : MoveListener) (ls : list MoveListener) :=
  filter (fun k => negb (moveL_eqb k l)) ls.

Definition removeUpListener (l : UpListener) (ls : list UpListener) :=
  filter (fun k => negb (upL_eqb k l)) ls.

(** ** The controller's functions *)

(** [node.children] holds elements only; the filter keeps the marked ones. *)
Definition draggableChild (child : Node) : bool :=
  isElement child && dataDraggable child.

Definition getDraggableItems (s : State) : list Node :=
  filter draggableChild (kids (doc s)).

(** [x.parentElement?.op(...)]: the operation acts on the child list that
    holds [x] and is skipped when [x] is detached. *)
Definition viaParent (x : Node) (op : list Node -> list Node) (s : State)
  : State :=
  if isChild x (kids (doc s))
  then upd_doc (set_kids (op (kids (doc s)))) s
  else s.

(** [cloneNode(true)] gives a new object with the attributes of the
    original; the clone is appended to [document.body]. *)
Definition createGhost (element : Node) (s : State) : Node * State :=
  let ghost := mkNode (nextId (doc s)) (tag element) (roleButton element)
                 (dataDraggable element) (dataPlaceholder element)
                 (listClass element) in
  (ghost,
   upd_doc (fun d => set_nextId (S (nextId d))
                       (set_bodyKids (bodyKids d ++ [ghost]) d)) s).

Definition createPlaceholder (s : State) : Node * State :=
  let ph := mkNode (nextId (doc s)) TDiv false false true false in
  (ph, upd_doc (fun d => set_nextId (S (nextId d)) d) s).

Definition getElementUnderPoint (lay : Layout) (x y : Z) : option Node :=
  closest dataDraggable (elementFromPoint lay x y).

Definition isFlexWrapOf (lay : Layout) : bool :=
  match flexWrap lay, display lay with
  | Nowrap, DOtherDisplay => false
  | _, _ => true
  end.

Definition isHorizontalOf (lay : Layout) : bool :=
  match flexDirection lay with
  | Row | RowReverse => true
  | _ => false
  end.

(** Which side of the hovered item's midpoint the pointer is on. *)
Definition beforeSide (horizontal : bool) (x y : Z) (hoveredRect : Rect)
  : bool :=
  if horizontal
  then 2 * x <? 2 * left hoveredRect + width hoveredRect
  else 2 * y <? 2 * top hoveredRect + height hoveredRect.

(** The placeholder goes right after the dragged element. *)
Definition followDragged (dragged ph : Node) (s : State) : State :=
  viaParent dragged
    (fun l => domInsertBefore ph (nextSibling dragged l) l) s.

Definition updateDragPosition (x y : Z) (lay : Layout) (s : State) : State :=
  match ghostElement (ctl s), draggedElement (ctl s), placeholder (ctl s) with
  | Some _, Some dragged, Some ph =>
      let s := upd_ctl (set_isHorizontalLayout
                          (isFlexWrapOf lay && isHorizontalOf lay)) s in
      match getElementUnderPoint lay x y with
      | Some hovered =>
          if negb (node_eqb hovered dragged) && negb (node_eqb hovered ph)
          then
            let items := getDraggableItems s in
            let hoveredIndex := indexOf hovered items in
            let currentDraggedIndex := indexOf dragged items in
            if negb (hoveredIndex =? -1) && negb (currentDraggedIndex =? -1)
               && negb (hoveredIndex =? currentDraggedIndex)
            then
              let hoveredRect := rectOf lay hovered in
              let insertBefore :=
                if beforeSide (isHorizontalLayout (ctl s)) x y hoveredRect
                then Some hovered
                else nextSibling hovered (kids (doc s)) in
              let s :=
                match insertBefore with
                | Some r =>
                    if negb (node_eqb r dragged)
                    then viaParent dragged (domInsertBefore dragged (Some r)) s
                    else s
                | None => viaParent dragged (domAppendChild dragged) s
                end in
              if isChild ph (kids (doc s))
                 && negb (opt_node_eqb (nextSibling dragged (kids (doc s)))
                            (Some ph))
              then followDragged dragged ph s
              else s
            else s
          else s
      | None =>
          match getDraggableItems s with
          | [] => s
          | firstItem :: rest =>
              let lastItem := last rest firstItem in
              let firstRect := rectOf lay firstItem in
              let lastRect := rectOf lay lastItem in
              let toFront s :=
                followDragged dragged ph
                  (viaParent firstItem
                     (domInsertBefore dragged (Some firstItem)) s) in
              let toEnd s :=
                followDragged dragged ph
                  (viaParent lastItem (domAppendChild dragged) s) in
              if isHorizontalLayout (ctl s)
              then
                if x <? left firstRect then toFront s
                else if x >? right lastRect then toEnd s
                else s
              else
                if y <? top firstRect then toFront s
                else if y >? bottom lastRect then toEnd s
                else s
          end
      end
  | _, _, _ => s
  end.

Definition cleanup (s : State) : State :=
  let s := upd_ctl (set_pendingDrag None) s in
  let s := match ghostElement (ctl s) with
           | Some ghost =>
               upd_ctl (set_ghostElement None)
                 (upd_doc (fun d => set_bodyKids
                                      (removeNode ghost (bodyKids d)) d) s)
           | None => s
           end in
  let s := match placeholder (ctl s) with
           | Some ph =>
               upd_ctl (set_placeholder None)
                 (upd_doc (fun d => set_kids (removeNode ph (kids d)) d) s)
           | None => s
           end in
  let s := match draggedElement (ctl s) with
           | Some dragged =>
               upd_ctl (set_draggedElement None)
                 (upd_doc (fun d => set_itemStyle
                                      (setStyle dragged clearStyle
                                         (itemStyle d)) d) s)
           | None => s
           end in
  let s := upd_ctl (set_isDragging false) s in
  upd_ctl (set_draggedIndex (-1)) s.

Definition startDrag (item : Node) (s : State) : State :=
  if isDragging (ctl s) then s else
  let s := upd_ctl (set_isDragging true) s in
  let s := upd_ctl (set_draggedElement (Some item)) s in
  let items := getDraggableItems s in
  let s := upd_ctl (set_draggedIndex (indexOf item items)) s in
  if draggedIndex (ctl s) =? -1
  then upd_ctl (set_draggedElement None) (upd_ctl (set_isDragging false) s)
  else
    let '(ghost, s) := createGhost item s in
    let s := upd_ctl (set_ghostElement (Some ghost)) s in
    let '(ph, s) := createPlaceholder s in
    let s := upd_ctl (set_placeholder (Some ph)) s in
    let s := viaParent item
               (fun l => domInsertBefore ph (nextSibling item l) l) s in
    let s := upd_doc (fun d => set_itemStyle
                                 (setStyle item
                                    (mkStyle "0.3" "none" "none" true)
                                    (itemStyle d)) d) s in
    let s := upd_doc (fun d => set_moveListeners
                                 (addMoveListener LHandlePointerMove
                                    (moveListeners d)) d) s in
    let s := upd_doc (fun d => set_upListeners
                                 (addUpListener LHandlePointerUp
                                    (upListeners d)) d) s in
    let s := upd_doc (fun d => set_cancelListeners
                                 (addUpListener LHandlePointerUp
                                    (cancelListeners d)) d) s in
    upd_doc (set_bodyGrabbing true) s.

Definition handlePointerMove (e : MoveEvent) (s : State) : State :=
  if negb (isDragging (ctl s)) then s else
  match draggedElement (ctl s) with
  | None => s
  | Some _ =>
      upd_ctl (set_animationFrameId (Some (m_clientX e, m_clientY e))) s
  end.

(** "Get final position" and "Call onDrop if position changed". *)
Definition commitDrop (s : State) : State :=
  let items := getDraggableItems s in
  let finalIndex := match draggedElement (ctl s) with
                    | Some dragged => indexOf dragged items
                    | None => -1
                    end in
  match draggedElement (ctl s) with
  | Some _ =>
      if negb (finalIndex =? -1) && negb (finalIndex =? draggedIndex (ctl s))
      then callOnDrop (draggedIndex (ctl s)) finalIndex s
      else s
  | None => s
  end.

(** "Remove global listeners". *)
Definition detachDragListeners (s : State) : State :=
  let s := upd_doc (fun d => set_moveListeners
                               (removeMoveListener LHandlePointerMove
                                  (moveListeners d)) d) s in
  let s := upd_doc (fun d => set_upListeners
                               (removeUpListener LHandlePointerUp
                                  (upListeners d)) d) s in
  upd_doc (fun d => set_cancelListeners
                      (removeUpListener LHandlePointerUp
                         (cancelListeners d)) d) s.

Definition handlePointerUp (s : State) : State :=
  if negb (isDragging (ctl s)) then s else
  let s := upd_ctl (set_animationFrameId None) s in
  let s := commitDrop s in
  let s := cleanup s in
  let s := detachDragListeners s in
  upd_doc (set_bodyGrabbing false) s.

(** *** The pending gesture: the closures made by [handlePointerDown] *)

Definition dragThreshold (g : Gesture) : Z :=
  if g_isTouch g then (if g_isScrollable g then 30 else 20) else 8.

Definition removeGestureListeners (g : Gesture) (s : State) : State :=
  upd_doc (fun d => set_upListeners
                      (removeUpListener (LHandleUp g) (upListeners d))
                      (set_moveListeners
                         (removeMoveListener (LHandleMove g)
                            (moveListeners d)) d)) s.

Definition moveDistanceY (moveEvent : MoveEvent) (pd : PendingDrag) : Z :=
  Z.abs (m_clientY moveEvent - p_startY pd).

Definition moveDistanceX (moveEvent : MoveEvent) (pd : PendingDrag) : Z :=
  Z.abs (m_clientX moveEvent - p_startX pd).

Definition moveDistance (moveEvent : MoveEvent) (pd : PendingDrag) : Z :=
  Z.max (moveDistanceY moveEvent pd) (moveDistanceX moveEvent pd).

(** The tail of [handleMove]: the gesture becomes a drag. *)
Definition promote (g : Gesture) (pd : PendingDrag) (s : State) : State :=
  let s := startDrag (p_item pd) s in
  let s := upd_ctl (set_pendingDrag None) s in
  removeGestureListeners g s.

(** The scroll branch of [handleMove]: the gesture is given up. *)
Definition abandon (g : Gesture) (s : State) : State :=
  removeGestureListeners g (upd_ctl (set_pendingDrag None) s).

Definition handleMove (g : Gesture) (moveEvent : MoveEvent) (s : State)
  : State :=
  match pendingDrag (ctl s) with
  | None => s
  | Some pd =>
      let elapsedTime := m_now moveEvent - g_startTime g in
      if g_isTouch g && g_isScrollable g
      then
        if 2 * moveDistanceY moveEvent pd >? 3 * moveDistanceX moveEvent pd
        then abandon g s
        else if (moveDistance moveEvent pd <? dragThreshold g)
                || ((10 * moveDistance moveEvent pd <? 7 * dragThreshold g)
                    && (elapsedTime <? 200))
        then s
        else promote g pd s
      else
        if moveDistance moveEvent pd <? dragThreshold g
        then s
        else promote g pd s
  end.

Definition handleUp (g : Gesture) (s : State) : State :=
  removeGestureListeners g (upd_ctl (set_pendingDrag None) s).

Definition isTouchPointer (p : PointerType) : bool :=
  match p with Touch => true | _ => false end.

Definition overflows (m : Metrics) : bool :=
  (scrollHeight m >? clientHeight m) || (scrollWidth m >? clientWidth m).

(** Whether the nearest list container above the item overflows. *)
Definition containerScrollable (item : Node) (e : DownEvent) : bool :=
  match closest listClass (chainFrom item (d_path e)) with
  | Some parentContainer => overflows (d_metrics e parentContainer)
  | None => false
  end.

(** The environment of the closures [handleMove] and [handleUp] that a
    pointer-down on [item] creates. *)
Definition gestureOf (item : Node) (e : DownEvent) (s : State) : Gesture :=
  let isTouch := isTouchPointer (d_pointerType e) || d_ontouchstart e in
  let isScrollable := containerScrollable item e in
  mkGesture (nextId (doc s)) isTouch isScrollable (d_now e).

(** The tail of [handlePointerDown]: store the pending drag and register
    the two closures on [document]. *)
Definition armGesture (item : Node) (e : DownEvent) (s : State) : State :=
  let g := gestureOf item e s in
  let s := upd_ctl (set_pendingDrag
                      (Some (mkPending item (d_clientY e) (d_clientX e))))
             s in
  upd_doc (fun d => set_nextId (S (nextId d))
                      (set_upListeners (upListeners d ++ [LHandleUp g])
                         (set_moveListeners
                            (moveListeners d ++ [LHandleMove g]) d))) s.

Definition handlePointerDown (e : DownEvent) (s : State) : State :=
  if disabled (options (ctl s)) || isDragging (ctl s) then s else
  let target := d_path e in
  let interactiveElement := closest isInteractive target in
  if match interactiveElement with
     | Some _ =>
         negb (opt_node_eqb interactiveElement (closest dataDraggable target))
     | None => false
     end
  then s else
  if match handle (options (ctl s)) with
     | Some sel => match closest sel target with
                   | None => true
                   | Some _ => false
                   end
     | None => false
     end
  then s else
  match closest dataDraggable target with
  | None => s
  | Some item => armGesture item e s
  end.

(** [update(newOptions)] of the returned action object. *)
Definition update (newOptions : Options) (s : State) : State :=
  let s := upd_ctl (set_options newOptions) s in
  if disabled newOptions && isDragging (ctl s) then cleanup s else s.

(** [destroy()]; the [pointerdown] listeners of the items are not part of
    the state, see [PointerDown] below. *)
Definition destroy (s : State) : State :=
  detachDragListeners (cleanup s).

(** ** Events and the event loop *)

Inductive Event :=
| PointerDown (e : DownEvent)   (* a pointerdown that reaches the listener
                                   [setupListeners] put on an item *)
| PointerMove (e : MoveEvent)   (* pointermove arriving at [document] *)
| PointerUp                     (* pointerup arriving at [document] *)
| PointerCancel                 (* pointercancel arriving at [document] *)
| AnimationFrame (lay : Layout) (* the browser runs the requested frame *)
| Update (o : Options)          (* the action's [update] *)
| Mutation (l : list Node).     (* the caller re-renders the container *)

(** Listener invocation follows the DOM: the list registered when the
    event arrives is walked in registration order, and an entry removed by
    an earlier listener of the same walk is skipped. *)
Definition runMoveListener (e : MoveEvent) (s : State) (l : MoveListener)
  : State :=
  if existsb (moveL_eqb l) (moveListeners (doc s))
  then match l with
       | LHandleMove g => handleMove g e s
       | LHandlePointerMove => handlePointerMove e s
       end
  else s.

Definition dispatchMove (e : MoveEvent) (s : State) : State :=
  fold_left (runMoveListener e) (moveListeners (doc s)) s.

Definition runUpListener (s : State) (l : UpListener) : State :=
  if existsb (upL_eqb l) (upListeners (doc s))
  then match l with
       | LHandleUp g => handleUp g s
       | LHandlePointerUp => handlePointerUp s
       end
  else s.

Definition dispatchUp (s : State) : State :=
  fold_left runUpListener (upListeners (doc s)) s.

Definition runCancelListener (s : State) (l : UpListener) : State :=
  if existsb (upL_eqb l) (cancelListeners (doc s))
  then match l with
       | LHandleUp g => handleUp g s
       | LHandlePointerUp => handlePointerUp s
       end
  else s.

Definition dispatchCancel (s : State) : State :=
  fold_left runCancelListener (cancelListeners (doc s)) s.

(** The frame callback: [updateDragPosition(e.clientX, e.clientY)], then
    [animationFrameId = null]. *)
Definition runFrame (lay : Layout) (s : State) : State :=
  match animationFrameId (ctl s) with
  | Some (x, y) =>
      upd_ctl (set_animationFrameId None) (updateDragPosition x y lay s)
  | None => s
  end.

Fixpoint noDupb (l : list Node) : bool :=
  match l with
  | [] => true
  | n :: t => negb (isChild n t) && noDupb t
  end.

(** What the caller may do to the container: any rearrangement of nodes
    of its own; of the nodes carrying [data-placeholder] it can only keep
    or drop the ones that are there. *)
Definition mutationOk (l : list Node) (s : State) : bool :=
  noDupb l
  && forallb (fun n => negb (dataPlaceholder n) || isChild n (kids (doc s))) l.

Definition mutate (l : list Node) (s : State) : State :=
  if mutationOk l s then upd_doc (set_kids l) s else s.

Definition step (s : State) (ev : Event) : State :=
  match ev with
  | PointerDown e => handlePointerDown e s
  | PointerMove e => dispatchMove e s
  | PointerUp => dispatchUp s
  | PointerCancel => dispatchCancel s
  | AnimationFrame lay => runFrame lay s
  | Update o => update o s
  | Mutation l => mutate l s
  end.

Definition run (evs : list Event) (s : State) : State := fold_left step evs s.

(** The state [dragDrop(node, options)] starts from. *)
Definition initial (opts : Options) (children : list Node)
    (styles : Node -> ItemStyle) (fresh : nat) : State :=
  {| ctl := {| options := opts; draggedElement := None; draggedIndex := -1;
               ghostElement := None; placeholder := None;
               isDragging := false; animationFrameId := None;
               pendingDrag := None; isHorizontalLayout := false |};
     doc := {| kids := children; bodyKids := []; itemStyle := styles;
               bodyGrabbing := false; moveListeners := [];
               upListeners := []; cancelListeners := []; nextId := fresh |};
     dropLog := [] |}.

(** * Predicates and operations of the statements *)

(** What the end of a session leaves behind: [s] is the state in which the
    session ended, [s'] the state afterwards. *)
Definition sessionCleared (s s' : State) : Prop :=
  isDragging (ctl s') = false
  /\ draggedElement (ctl s') = None
  /\ ghostElement (ctl s') = None
  /\ placeholder (ctl s') = None
  /\ (forall g, ghostElement (ctl s) = Some g -> ~ In g (bodyKids (doc s')))
  /\ (forall p, placeholder (ctl s) = Some p -> ~ In p (kids (doc s')))
  /\ (forall d, draggedElement (ctl s) = Some d ->
                itemStyle (doc s') d = clearStyle).

(** The listeners and page-level overrides of the drag phase are gone. *)
Definition dragListenersDetached (s' : State) : Prop :=
  ~ In LHandlePointerMove (moveListeners (doc s'))
  /\ ~ In LHandlePointerUp (upListeners (doc s'))
  /\ ~ In LHandlePointerUp (cancelListeners (doc s'))
  /\ bodyGrabbing (doc s') = false.

(** The part of the state that identifies a session: which item is
    dragged, the index recorded for it, the calls logged when it began,
    and the registered release handler. *)
Definition inSession (item : Node) (i : Z) (log : list (Z * Z)) (s : State)
  : Prop :=
  isDragging (ctl s) = true
  /\ draggedElement (ctl s) = Some item
  /\ draggedIndex (ctl s) = i
  /\ dropLog s = log
  /\ In LHandlePointerUp (upListeners (doc s)).


(** [relayout l h s]: [s] with another child order and layout flag. *)
Definition relayout (l : list Node) (h : bool) (s : State) : State :=
  upd_doc (set_kids l) (upd_ctl (set_isHorizontalLayout h) s).



(** The controller is idle and [onDrop] has been called as [log] says. *)
Definition released (log : list (Z * Z)) (t : State) : Prop :=
  isDragging (ctl t) = false /\ dropLog t = log.

(** The list [onDrop] is called with at release. *)
Definition dropCalls (i j : Z) : list (Z * Z) :=
  if negb (j =? -1) && negb (j =? i) then [(i, j)] else [].

(** The threshold that applies to a gesture: 8 px for mouse and pen, 20 px
    for touch, 30 px for touch on a container that scrolls. *)
Definition applicableThreshold (p : PointerType) (scrollable : bool) : Z :=
  match p with
  | Touch => if scrollable then 30 else 20
  | _ => 8
  end.

(** The scrollability the threshold of a pointer-down depends on. *)
Definition scrollableAt (e : DownEvent) : bool :=
  match closest dataDraggable (d_path e) with
  | Some item => containerScrollable item e
  | None => false
  end.

(** What holds between a pointer-down and the release while the moves stay
    below the threshold of its closure [g]. *)
Definition stillPending (g : Gesture) (pd : PendingDrag) (s0 t : State)
  : Prop :=
  isDragging (ctl t) = false
  /\ dropLog t = dropLog s0
  /\ (forall h, In (LHandleMove h) (moveListeners (doc t)) -> h = g)
  /\ (pendingDrag (ctl t) = None \/ pendingDrag (ctl t) = Some pd).

(** How far a move is from the point of the pointer-down. *)
Definition distanceFromDown (e : DownEvent) (m : MoveEvent) : Z :=
  Z.max (Z.abs (m_clientY m - d_clientY e))
        (Z.abs (m_clientX m - d_clientX e)).

(** The block [xs] put right before, or right after, the child [h]. *)
Fixpoint spliceBefore (xs : list Node) (h : Node) (l : list Node)
  : list Node :=
  match l with
  | [] => xs
  | n :: t => if node_eqb n h then xs ++ n :: t
              else n :: spliceBefore xs h t
  end.

Fixpoint spliceAfter (xs : list Node) (h : Node) (l : list Node)
  : list Node :=
  match l with
  | [] => []
  | n :: t => if node_eqb n h then n :: xs ++ t
              else n :: spliceAfter xs h t
  end.

(** The child list has no repetition and its only node marked
    [data-placeholder], if any, is the controller's placeholder. *)
Definition kidsOk (ph : option Node) (l : list Node) : Prop :=
  NoDup l /\ (forall n, In n l -> dataPlaceholder n = true -> ph = Some n).

(** The invariant of the reachable states: ghost and placeholder exist
    only as the controller's variables say, and only during a session. *)
Definition wellFormed (s : State) : Prop :=
  kidsOk (placeholder (ctl s)) (kids (doc s))
  /\ bodyKids (doc s) = match ghostElement (ctl s) with
                        | Some g => [g]
                        | None => []
                        end
  /\ (isDragging (ctl s) = false ->
      ghostElement (ctl s) = None /\ placeholder (ctl s) = None)
  /\ (forall d, draggedElement (ctl s) = Some d -> dataPlaceholder d = false).

(** ** A list of three items, used to run the statements *)

Definition item (n : nat) : Node := mkNode n TDiv false true false false.

Definition itemA : Node := item 1.
Definition itemB : Node := item 2.
Definition itemC : Node := item 3.

(** A link wrapped around an item, and an overflowing [.spots-list]. *)
Definition linkAround : Node := mkNode 60 TAnchor false false false false.
Definition spotsList : Node := mkNode 50 TDiv false false false true.

Definition overflowing : Node -> Metrics :=
  fun _ => mkMetrics 1000 300 200 200.

Definition plainOptions : Options := mkOptions false None.

Definition threeItems : State :=
  initial plainOptions [itemA; itemB; itemC] (fun _ => clearStyle) 10.

(** Items stacked vertically, 50 px high, item [n] at top [100 * n]. *)
Definition stacked (hit : list Node) : Layout :=
  mkLayout Nowrap DOtherDisplay Row (fun _ _ => hit)
    (fun n => mkRect 0 (Z.of_nat (nid n) * 100) 200 50).

Definition mouseDownB : DownEvent :=
  mkDown [itemB] Mouse false 10 210 0 overflowing.

Definition touchDownB : DownEvent :=
  mkDown [itemB; spotsList] Touch true 10 210 0 overflowing.

Definition downInLink : DownEvent :=
  mkDown [itemB; linkAround] Mouse false 10 210 0 overflowing.

(** The mouse gesture on B has been promoted by a move of 10 px. *)
Definition draggingB : State :=
  run [PointerDown mouseDownB; PointerMove (mkMove 10 220 5)] threeItems.

(** The gesture on B before the promoting move, and what follows it. *)
Definition pendingMouseB : State := step threeItems (PointerDown mouseDownB).


Definition pastTheEnd : list Event :=
  [PointerMove (mkMove 10 500 10); AnimationFrame (stacked [])].

Definition ghostB : Node := mkNode 11 TDiv false true false false.
Definition placeholderB : Node := mkNode 12 TDiv false false true false.

(** The touch gesture on B is pending. *)
Definition touchPendingB : State := step threeItems (PointerDown touchDownB).

Definition touchGestureB : Gesture := mkGesture 10 true true 0.




(** Items side by side in a wrapping flex row, 50 px wide, item [n] at
    left [100 * n]. *)
Definition sideBySide (hit : list Node) : Layout :=
  mkLayout Wrap DFlex Row (fun _ _ => hit)
    (fun n => mkRect (Z.of_nat (nid n) * 100) 0 50 200).

(** The caller re-renders the container during the drag of B and leaves
    the placeholder out. *)
Definition detachedB : State :=
  run [PointerDown mouseDownB; PointerMove (mkMove 10 220 5);
       Mutation [itemA; itemB; itemC]] threeItems.

(** Item B inside the overflowing list, on a device whose window has no
    [ontouchstart]: pressed with the mouse, and touched. *)
Definition mouseDownInListB : DownEvent :=
  mkDown [itemB; spotsList] Mouse false 10 210 0 overflowing.

Definition touchDownInListB : DownEvent :=
  mkDown [itemB; spotsList] Touch false 10 210 0 overflowing.

(** A mouse gesture on B ended by pointercancel, then a touch gesture on
    B: the closures of the first are still on [document]. *)
Definition staleTouchB : State :=
  run [PointerDown mouseDownInListB; PointerCancel;
       PointerDown touchDownInListB] threeItems.

Definition cancelledMouseGesture : Gesture := mkGesture 10 false true 0.
Definition secondTouchGesture : Gesture := mkGesture 11 true true 0.

From Stdlib Require Import Permutation.

(** * Predicates for the rest of the controller *)

(** Every active session has a dragged element and its three listeners
    on [document]. *)
Definition sessionRegistered (s : State) : Prop :=
  isDragging (ctl s) = true ->
  (exists d, draggedElement (ctl s) = Some d)
  /\ In LHandlePointerMove (moveListeners (doc s))
  /\ In LHandlePointerUp (upListeners (doc s))
  /\ In LHandlePointerUp (cancelListeners (doc s)).

(** Nothing is pending and nothing is dragged. *)
Definition inert (s : State) : Prop :=
  pendingDrag (ctl s) = None
  /\ isDragging (ctl s) = false
  /\ ghostElement (ctl s) = None.

(** The events that can still arrive once [destroy] has taken the
    [pointerdown] listeners off the items. *)
Definition withoutPointerDown (ev : Event) : Prop :=
  match ev with
  | PointerDown _ => False
  | _ => True
  end.

(** The events of a controller whose configuration is not changed to
    enabled. *)
Definition keepsDisabled (ev : Event) : Prop :=
  match ev with
  | Update o => disabled o = true
  | _ => True
  end.

(** The styling [startDrag] gives the dragged item. *)
Definition mutedStyle : ItemStyle := mkStyle "0.3" "none" "none" true.

(** Only [handlePointerUp] is ever registered for [pointercancel]. *)
Definition cancelOnlyDrag (s : State) : Prop :=
  forall g, ~ In (LHandleUp g) (cancelListeners (doc s)).

Definition listenersOk (s : State) : Prop :=
  sessionRegistered s /\ cancelOnlyDrag s.

(** What a controller that was created disabled looks like: nothing is
    pending, dragged, scheduled or registered. *)
Definition dormant (s : State) : Prop :=
  disabled (options (ctl s)) = true
  /\ inert s
  /\ animationFrameId (ctl s) = None
  /\ moveListeners (doc s) = []
  /\ upListeners (doc s) = []
  /\ cancelListeners (doc s) = []
  /\ bodyKids (doc s) = []
  /\ dropLog s = [].

(** No closure of a gesture is registered on [document]. *)
Definition noGestureClosures (s : State) : Prop :=
  (forall g, ~ In (LHandleMove g) (moveListeners (doc s)))
  /\ (forall g, ~ In (LHandleUp g) (upListeners (doc s))).

(** While a gesture is pending on an element that is not a draggable
    child: whatever moves arrive, nothing is dragged and nothing is
    created. *)
Definition strayPending (pd : PendingDrag) (s0 t : State) : Prop :=
  isDragging (ctl t) = false
  /\ ghostElement (ctl t) = ghostElement (ctl s0)
  /\ placeholder (ctl t) = placeholder (ctl s0)
  /\ kids (doc t) = kids (doc s0)
  /\ bodyKids (doc t) = bodyKids (doc s0)
  /\ dropLog t = dropLog s0
  /\ (pendingDrag (ctl t) = None \/ pendingDrag (ctl t) = Some pd).

(** A [data-draggable] element that sits inside item B without being a
    child of the container, and a pointer-down on it. *)
Definition nestedInB : Node := mkNode 70 TDiv false true false false.

Definition downOnNested : DownEvent :=
  mkDown [nestedInB; itemB] Mouse false 10 210 0 overflowing.

(** The mouse gesture on B was ended by pointercancel: its closures are
    still registered. *)
Definition cancelledMouseB : State :=
  run [PointerDown mouseDownB; PointerCancel] threeItems.

(** * The spots store ([src/lib/stores/spots.ts])

    The store holds three writables: the categories with their spots, the
    tags, and the tag selected as filter.  Every function of the module
    that changes them does so through a pure callback handed to
    [update], or through [set]; these callbacks are the definitions
    below.  What the database answers is an argument of the function
    that awaits it.

    [Array.prototype.sort] is stable and is called with comparators of
    the form [(a, b) => key(a) - key(b)] on whole-number keys, so its
    result is the one stable arrangement by ascending key;
    [sortByKey] computes it by insertion.  [x || 0] on a number is [x]
    unless [x] is [0] (or not a number, which no whole number is). *)

Definition orZero (n : Z) : Z := if n =? 0 then 0 else n.

Fixpoint insertByKey {A : Type} (key : A -> Z) (x : A) (l : list A)
  : list A :=
  match l with
  | [] => [x]
  | y :: t =>
      if key x <=? key y then x :: y :: t else y :: insertByKey key x t
  end.

Definition sortByKey {A : Type} (key : A -> Z) (l : list A) : list A :=
  fold_right (insertByKey key) [] l.

(** Ascending by key: every element is at most the ones after it. *)
Fixpoint ascending {A : Type} (key : A -> Z) (l : list A) : Prop :=
  match l with
  | [] => True
  | x :: t => Forall (fun y => key x <= key y) t /\ ascending key t
  end.

(** [Tag] of [$lib/types]: what [loadTags] and [addTag] build. *)
Record StoreTag := mkStoreTag { tag_id : string; tag_name : string }.

(** [Category] of [$lib/supabase], a row of the [categories] table. *)
Record DbCategory := mkDbCategory {
  dbc_id : string;
  dbc_user_id : string;
  dbc_name : string;
  dbc_display_order : Z;
  dbc_expanded : bool;
  dbc_created_at : string;
  dbc_updated_at : string
}.

Inductive EventType := INSERT | UPDATE | DELETE.

(** What [error.message?.includes('duplicate') || error.code === '23505']
    reads of a database error. *)
Record DbError := mkDbError {
  err_message : option string;
  err_code : string
}.

Definition includes (needle hay : string) : bool :=
  match String.index 0 needle hay with
  | Some _ => true
  | None => false
  end.

Definition isDuplicateError (error : DbError) : bool :=
  match err_message error with
  | Some m => includes "duplicate"%string m
  | None => false
  end
  || String.eqb (err_code error) "23505"%string.

Section SpotsStore.

(** Latitude and longitude are carried along and never computed with. *)
Context {Coord : Type}.

(** [Spot] of [$lib/supabase], a row of the [spots] table. *)
Record DbSpot := mkDbSpot {
  dbs_id : string;
  dbs_category_id : string;
  dbs_user_id : string;
  dbs_name : string;
  dbs_address : option string;
  dbs_lat : Coord;
  dbs_lng : Coord;
  dbs_place_id : option string;
  dbs_display_order : Z;
  dbs_created_at : string;
  dbs_updated_at : string
}.

(** [Spot] of [$lib/types]; [tags] may be missing ([spot.tags?.some],
    [spot.tags || []]). *)
Record Spot := mkSpot {
  spot_id : string;
  spot_name : string;
  spot_address : string;
  spot_lat : Coord;
  spot_lng : Coord;
  spot_placeId : string;
  spot_display_order : Z;
  spot_tags : option (list StoreTag)
}.

(** [Category] of [$lib/types]. *)
Record Category := mkCategory {
  cat_id : string;
  cat_name : string;
  cat_expanded : bool;
  cat_display_order : Z;
  cat_spots : list Spot
}.

Record Store := mkStore {
  categories : list Category;
  tags : list StoreTag;
  selectedTagFilter : option string
}.

Definition set_categories (f : list Category -> list Category) (st : Store)
  : Store :=
  mkStore (f (categories st)) (tags st) (selectedTagFilter st).

(** [s.tags || []]. *)
Definition tagsOrEmpty (s : Spot) : list StoreTag :=
  match spot_tags s with
  | Some l => l
  | None => []
  end.

Definition with_tags (l : list StoreTag) (s : Spot) : Spot :=
  mkSpot (spot_id s) (spot_name s) (spot_address s) (spot_lat s)
    (spot_lng s) (spot_placeId s) (spot_display_order s) (Some l).

Definition with_spots (l : list Spot) (c : Category) : Category :=
  mkCategory (cat_id c) (cat_name c) (cat_expanded c) (cat_display_order c) l.

(** [spot.tags?.some(tag => tag.id === tagId)]. *)
Definition hasTag (tagId : string) (s : Spot) : bool :=
  match spot_tags s with
  | Some l => existsb (fun t => String.eqb (tag_id t) tagId) l
  | None => false
  end.

Definition totalSpots (cats : list Category) : nat :=
  fold_left (fun sum cat => (sum + List.length (cat_spots cat))%nat) cats 0%nat.

(** The derived store [filteredCategories]; [!$selectedTagFilter] holds
    for [null] and for the empty string. *)
Definition filteredCategories (cats : list Category)
    (filter : option string) : list Category :=
  match filter with
  | None => cats
  | Some EmptyString => cats
  | Some tagId =>
      List.filter (fun cat => negb (Nat.eqb (List.length (cat_spots cat)) 0))
        (map (fun cat =>
                with_spots (List.filter (hasTag tagId) (cat_spots cat)) cat)
           cats)
  end.

Definition dbCategoryToLocal (cat : DbCategory) (spots : list Spot)
  : Category :=
  mkCategory (dbc_id cat) (dbc_name cat) (dbc_expanded cat)
    (dbc_display_order cat) spots.

Definition orEmptyString (o : option string) : string :=
  match o with
  | Some a => a
  | None => EmptyString
  end.

(** [dbSpotToLocal(spot)], [spot] a row that may come with [tags]. *)
Definition dbSpotToLocal (spot : DbSpot) (rowTags : option (list StoreTag))
  : Spot :=
  mkSpot (dbs_id spot) (dbs_name spot) (orEmptyString (dbs_address spot))
    (dbs_lat spot) (dbs_lng spot) (orEmptyString (dbs_place_id spot))
    (dbs_display_order spot)
    (Some match rowTags with Some l => l | None => [] end).

Definition categoryOrder (c : Category) : Z := orZero (cat_display_order c).
Definition spotOrder (s : Spot) : Z := orZero (spot_display_order s).

(** The callback of [addTagToSpot] that updates the local state; both
    branches of the function run the same one. *)
Definition attachTag (spotId tagId : string) (tag : StoreTag)
    (cats : list Category) : list Category :=
  map (fun cat =>
         with_spots
           (map (fun s =>
                   if String.eqb (spot_id s) spotId
                   then
                     let existingTags := tagsOrEmpty s in
                     match find (fun t => String.eqb (tag_id t) tagId)
                             existingTags with
                     | Some _ => s
                     | None => with_tags (existingTags ++ [tag]) s
                     end
                   else s)
              (cat_spots cat)) cat)
    cats.

(** [addTagToSpot(spotId, tagId)].  The database is asked only when the
    first spot with that id does not carry the tag yet; [dbError] is its
    answer.  A duplicate-key error counts as success. *)
Definition addTagToSpot (spotId tagId : string) (dbError : option DbError)
    (st : Store) : Store + DbError :=
  let spot := find (fun s => String.eqb (spot_id s) spotId)
                (flat_map cat_spots (categories st)) in
  if match spot with
     | Some s => hasTag tagId s
     | None => false
     end
  then inl st
  else
    let tag := find (fun t => String.eqb (tag_id t) tagId) (tags st) in
    match dbError with
    | Some error =>
        if isDuplicateError error
        then match tag with
             | Some tag => inl (set_categories (attachTag spotId tagId tag) st)
             | None => inl st
             end
        else inr error
    | None =>
        match tag with
        | Some tag => inl (set_categories (attachTag spotId tagId tag) st)
        | None => inl st
        end
    end.

(** The callback of [removeTagFromSpot]. *)
Definition detachTag (spotId tagId : string) (cats : list Category)
  : list Category :=
  map (fun cat =>
         with_spots
           (map (fun s =>
                   if String.eqb (spot_id s) spotId
                   then with_tags
                          (List.filter
                             (fun t => negb (String.eqb (tag_id t) tagId))
                             (tagsOrEmpty s)) s
                   else s)
              (cat_spots cat)) cat)
    cats.

Definition removeTagFromSpot (spotId tagId : string)
    (dbError : option DbError) (st : Store) : Store + DbError :=
  match dbError with
  | Some error => inr error
  | None => inl (set_categories (detachTag spotId tagId) st)
  end.

(** [removeTag]: the tag leaves the tag list and, if it was the selected
    filter, the filter is cleared. *)
Definition removeTag (id : string) (dbError : option DbError) (st : Store)
  : Store + DbError :=
  match dbError with
  | Some error => inr error
  | None =>
      inl (mkStore (categories st)
             (List.filter (fun t => negb (String.eqb (tag_id t) id)) (tags st))
             (match selectedTagFilter st with
              | Some f => if String.eqb f id then None else Some f
              | None => None
              end))
  end.

(** *** The realtime callbacks of [setupRealtimeSubscriptions] *)

Record CategoryPayload := mkCategoryPayload {
  cp_eventType : EventType;
  cp_new : option DbCategory;
  cp_old : option DbCategory
}.

Record SpotPayload := mkSpotPayload {
  sp_eventType : EventType;
  sp_new : option DbSpot;
  sp_old : option DbSpot
}.

(** The callback given to [subscribeToCategories], as a function on the
    category list. *)
Definition onCategoryChange (payload : CategoryPayload)
    (cats : list Category) : list Category :=
  match cp_eventType payload with
  | INSERT =>
      match cp_new payload with
      | Some newData =>
          match find (fun c => String.eqb (cat_id c) (dbc_id newData)) cats
          with
          | None =>
              sortByKey categoryOrder (cats ++ [dbCategoryToLocal newData []])
          | Some _ => cats
          end
      | None => cats
      end
  | UPDATE =>
      match cp_new payload with
      | Some newData =>
          sortByKey categoryOrder
            (map (fun c =>
                    if String.eqb (cat_id c) (dbc_id newData)
                    then mkCategory (cat_id c) (dbc_name newData)
                           (dbc_expanded newData) (dbc_display_order newData)
                           (cat_spots c)
                    else c) cats)
      | None => cats
      end
  | DELETE =>
      match cp_old payload with
      | Some oldData =>
          List.filter (fun c => negb (String.eqb (cat_id c) (dbc_id oldData)))
            cats
      | None => cats
      end
  end.

(** The callback given to [subscribeToSpots]. *)
Definition onSpotChange (payload : SpotPayload) (cats : list Category)
  : list Category :=
  match sp_eventType payload with
  | INSERT =>
      match sp_new payload with
      | Some newData =>
          map (fun c =>
                 if String.eqb (cat_id c) (dbs_category_id newData)
                    && match find (fun s => String.eqb (spot_id s)
                                              (dbs_id newData))
                               (cat_spots c) with
                       | None => true
                       | Some _ => false
                       end
                 then with_spots
                        (sortByKey spotOrder
                           (cat_spots c ++ [dbSpotToLocal newData None])) c
                 else c) cats
      | None => cats
      end
  | UPDATE =>
      match sp_new payload with
      | Some newData =>
          map (fun c =>
                 with_spots
                   (sortByKey spotOrder
                      (map (fun s =>
                              if String.eqb (spot_id s) (dbs_id newData)
                              then
                                let existingSpot :=
                                  find (fun sp => String.eqb (spot_id sp)
                                                    (dbs_id newData))
                                    (cat_spots c) in
                                mkSpot (spot_id s) (dbs_name newData)
                                  (orEmptyString (dbs_address newData))
                                  (spot_lat s) (spot_lng s) (spot_placeId s)
                                  (dbs_display_order newData)
                                  (Some match existingSpot with
                                        | Some sp => tagsOrEmpty sp
                                        | None => []
                                        end)
                              else s)
                         (cat_spots c))) c) cats
      | None => cats
      end
  | DELETE =>
      match sp_old payload with
      | Some oldData =>
          map (fun c =>
                 with_spots
                   (List.filter
                      (fun s => negb (String.eqb (spot_id s) (dbs_id oldData)))
                      (cat_spots c)) c) cats
      | None => cats
      end
  end.

End SpotsStore.

(** * Loading the categories ([getCategoriesWithSpots] of [$lib/supabase])

    The three queries are arguments: what [getCategories] and [getSpots]
    resolve to ([data] and [error]) and the [data] of the [spot_tags]
    query.  The [Map] from spot id to tags is a list of entries in
    insertion order, one per key. *)

(** A row of the [spot_tags] query: [spot_id] and the joined tag. *)
Record SpotTagRow := mkSpotTagRow {
  str_spot_id : string;
  str_tags : StoreTag
}.

Definition TagsMap := list (string * list StoreTag).

Fixpoint mapGet (k : string) (m : TagsMap) : option (list StoreTag) :=
  match m with
  | [] => None
  | (k', v) :: t => if String.eqb k' k then Some v else mapGet k t
  end.

Definition mapHas (k : string) (m : TagsMap) : bool :=
  match mapGet k m with
  | Some _ => true
  | None => false
  end.

Fixpoint mapSet (k : string) (v : list StoreTag) (m : TagsMap) : TagsMap :=
  match m with
  | [] => [(k, v)]
  | (k', v') :: t =>
      if String.eqb k' k then (k', v) :: t else (k', v') :: mapSet k v t
  end.

(** One round of the [forEach]: make the entry if there is none, then
    push the tag onto the entry's array. *)
Definition collectTag (m : TagsMap) (item : SpotTagRow) : TagsMap :=
  let m := if negb (mapHas (str_spot_id item) m)
           then mapSet (str_spot_id item) [] m
           else m in
  match mapGet (str_spot_id item) m with
  | Some arr =>
      mapSet (str_spot_id item)
        (arr ++ [mkStoreTag (tag_id (str_tags item))
                   (tag_name (str_tags item))]) m
  | None => m
  end.

Definition buildTagsMap (spotTagsData : option (list SpotTagRow))
  : TagsMap :=
  fold_left collectTag
    (match spotTagsData with Some l => l | None => [] end) [].

Section SpotsQueries.

Context {Coord : Type}.

(** What a query resolves to: [{ data, error }]. *)
Record QueryResult (A : Type) := mkQueryResult {
  q_data : option A;
  q_error : option DbError
}.

Arguments mkQueryResult {A}.
Arguments q_data {A}.
Arguments q_error {A}.

Definition getCategoriesWithSpots
    (catResult : QueryResult (list DbCategory))
    (spotResult : QueryResult (list (@DbSpot Coord)))
    (spotTagsData : option (list SpotTagRow))
  : QueryResult (list (DbCategory * list (@DbSpot Coord * list StoreTag))) :=
  match q_error catResult, q_data catResult with
  | Some catError, _ => mkQueryResult None (Some catError)
  | None, None => mkQueryResult None None
  | None, Some categories =>
      match q_error spotResult with
      | Some spotError => mkQueryResult None (Some spotError)
      | None =>
          let spots := match q_data spotResult with
                       | Some l => l
                       | None => []
                       end in
          let tagsMap := buildTagsMap spotTagsData in
          mkQueryResult
            (Some
               (map (fun cat =>
                       (cat,
                        map (fun spot =>
                               (spot,
                                match mapGet (dbs_id spot) tagsMap with
                                | Some l => l
                                | None => []
                                end))
                          (filter
                             (fun spot =>
                                String.eqb (dbs_category_id spot) (dbc_id cat))
                             spots)))
                  categories))
            None
      end
  end.

End SpotsQueries.

Arguments mkQueryResult {A}.
Arguments q_data {A}.
Arguments q_error {A}.

(** ** Two categories, used to run the statements *)

Definition tagCafe : StoreTag := mkStoreTag "t1" "cafe".
Definition tagView : StoreTag := mkStoreTag "t2" "view".

Definition spotOf (id : string) (order : Z) (l : option (list StoreTag))
  : @Spot Z :=
  mkSpot id id EmptyString 0 0 EmptyString order l.

Definition favourite : @Category Z :=
  mkCategory "c1" "Favourite" true 0
    [spotOf "s1" 0 (Some [tagCafe]); spotOf "s2" 1 None].

Definition blacklist : @Category Z :=
  mkCategory "c2" "Blacklist" false 1 [spotOf "s3" 0 (Some [tagView])].

Definition twoCategories : list (@Category Z) := [favourite; blacklist].

Definition twoCategoriesStore : @Store Z :=
  mkStore twoCategories [tagCafe; tagView] None.

(** Rows of the [categories] table as realtime events carry them. *)
Definition rowWishlist : DbCategory :=
  mkDbCategory "c3" "u1" "Wishlist" 0 true "2026-01-01" "2026-01-01".

Definition rowFavouriteLast : DbCategory :=
  mkDbCategory "c1" "u1" "Favourite" 5 true "2026-01-01" "2026-01-02".

(** Rows of the [spots] table. *)
Definition rowSpotOne : @DbSpot Z :=
  mkDbSpot "s1" "c1" "u1" "Cafe One" None 0 0 (Some "place1"%string) 0
    "2026-01-01" "2026-01-01".

Definition rowSpotOrphan : @DbSpot Z :=
  mkDbSpot "s9" "c9" "u1" "Nowhere" None 0 0 None 0
    "2026-01-01" "2026-01-01".

Definition rowSpotNew : @DbSpot Z :=
  mkDbSpot "s4" "c2" "u1" "New Bar" (Some "1 Main St"%string) 0 0 None 0
    "2026-01-03" "2026-01-03".

(** Answers of the database: a unique violation reported by code, one
    reported in the message only, and an unrelated failure. *)
Definition duplicateCode : DbError := mkDbError None "23505".

Definition duplicateMessage : DbError :=
  mkDbError (Some "insert failed: duplicate key value"%string) "409".

Definition offlineError : DbError :=
  mkDbError (Some "offline"%string) "500".

(** * Nearby place types ([src/lib/utils/places.ts])

    The Places service is an argument: what [nearbySearch] does with a
    request, which is to call back once with results and a status, or to
    throw.  A service that never calls back leaves the promise pending
    and is not modelled. *)

Definition commonTypes : list string :=
  ["restaurant"; "cafe"; "park"; "bar"; "lodging"; "museum";
   "shopping_mall"; "store"; "gas_station"; "hospital"; "school"; "church";
   "tourist_attraction"; "gym"; "pharmacy"; "bank"; "movie_theater";
   "night_club"; "spa"; "library"]%string.

(** The [typeMap] of [getNearbyPlaceTypes]. *)
Definition nearbyTypeMap : list (string * string) :=
  [("restaurant", "Restaurants"); ("cafe", "Coffee Shops"); ("bar", "Bars");
   ("lodging", "Hotels"); ("park", "Parks"); ("museum", "Museums");
   ("shopping_mall", "Shopping"); ("store", "Stores");
   ("gas_station", "Gas Stations"); ("hospital", "Hospitals");
   ("school", "Schools"); ("church", "Churches");
   ("tourist_attraction", "Attractions"); ("gym", "Gyms");
   ("pharmacy", "Pharmacies"); ("bank", "Banks");
   ("movie_theater", "Cinemas"); ("night_club", "Nightlife");
   ("spa", "Spas"); ("library", "Libraries")]%string.

Fixpoint ownProperty (key : string) (obj : list (string * string))
  : option string :=
  match obj with
  | [] => None
  | (k, v) :: t => if String.eqb k key then Some v else ownProperty key t
  end.

(** [typeMap[type] || type], for the keys it is used with: the entries
    of [commonTypes], none of which names an inherited property. *)
Definition nearbyLabel (type : string) : string :=
  match ownProperty type nearbyTypeMap with
  | Some name => name
  | None => type
  end.

(** An entry of the result: [{ type, name, count }]. *)
Record PlaceTypeCount := mkPlaceTypeCount {
  ptc_type : string;
  ptc_name : string;
  ptc_count : nat
}.

Section Places.

Context {Place Coord : Type}.

Record NearbyRequest := mkNearbyRequest {
  nr_lat : Coord;
  nr_lng : Coord;
  nr_radius : Z;
  nr_type : string
}.

(** [Answered ok results]: the callback runs with [results] (possibly
    [null]) and a status that is [OK] or not. *)
Inductive ServiceAnswer :=
| Answered (ok : bool) (results : option (list Place))
| Threw.

Definition PlacesService := NearbyRequest -> ServiceAnswer.

(** [searchNearbyByType]: what the promise resolves to, [None] when it
    is rejected. *)
Definition searchNearbyByType (placesService : option PlacesService)
    (lat lng : Coord) (type : string) (radius : Z) : option (list Place) :=
  match placesService with
  | None => Some []
  | Some service =>
      match service (mkNearbyRequest lat lng radius type) with
      | Answered ok results =>
          match ok, results with
          | true, Some found => Some found
          | _, _ => Some []
          end
      | Threw => None
      end
  end.

Definition countOrder (r : PlaceTypeCount) : Z := - Z.of_nat (ptc_count r).

Definition getNearbyPlaceTypes (placesService : option PlacesService)
    (lat lng : Coord) (radius : Z) : list PlaceTypeCount :=
  match placesService with
  | None => []
  | Some _ =>
      let results :=
        map (fun type =>
               match searchNearbyByType placesService lat lng type radius with
               | Some places =>
                   mkPlaceTypeCount type (nearbyLabel type)
                     (List.length places)
               | None => mkPlaceTypeCount type (nearbyLabel type) 0
               end) commonTypes in
      firstn 10
        (sortByKey countOrder
           (filter (fun r => Nat.ltb 0 (ptc_count r)) results))
  end.

End Places.

(** A service that knows of three cafes and one park, fails on bars and
    reports an error status for everything else. *)
Definition sampleService : @PlacesService nat Z :=
  fun request =>
    if String.eqb (nr_type request) "cafe" then Answered true (Some [1; 2; 3]%nat)
    else if String.eqb (nr_type request) "park" then Answered true (Some [4%nat])
    else if String.eqb (nr_type request) "bar" then Threw
    else Answered false None.

Definition sampleListed : list PlaceTypeCount :=
  getNearbyPlaceTypes (Some sampleService) 0 0 1000.

(** A service whose every search comes back with an error status. *)
Definition silentService : @PlacesService nat Z :=
  fun _ => Answered false None.

(** * Loading the profile ([loadProfile] of the auth store)

    [loadProfile] reads the stored profile, the signed-in user and the
    browser, and writes back what is missing.  The three reads and the
    clock are arguments; the object [updates] is the list of its
    properties in the order they are assigned.  Of the profile only the
    fields [loadProfile] reads are kept.  Text fields are [null]
    ([None]) or strings; a text value is falsy when it is [null],
    [undefined] or the empty string.  [sign_in_count] is a Number, that
    is a binary64 float, falsy when it is [0], [-0] or [NaN]; adding one
    is the addition of floats. *)

From Stdlib Require PrimFloat.

Record Profile := mkProfile {
  pr_email : option string;
  pr_first_name : option string;
  pr_last_name : option string;
  pr_locale : option string;
  pr_timezone : option string;
  pr_language : option string;
  pr_user_agent : option string;
  pr_email_confirmed_at : option string;
  pr_account_created_at : option string;
  pr_sign_in_count : option PrimFloat.float;
  pr_provider : option string
}.

(** What [loadProfile] reads of [currentUser.data.user]. *)
Record AuthUser := mkAuthUser {
  au_email : option string;
  au_email_confirmed_at : option string;
  au_created_at : option string;
  au_app_provider : option string;     (* app_metadata?.provider *)
  au_meta_provider : option string;    (* user_metadata?.provider *)
  au_locale : option string;           (* user_metadata?.locale *)
  au_given_name : option string;       (* user_metadata?.given_name *)
  au_family_name : option string       (* user_metadata?.family_name *)
}.

(** The result of [collectBrowserData]. *)
Record BrowserData := mkBrowserData {
  bd_timezone : option string;
  bd_language : option string;
  bd_user_agent : option string
}.

Inductive UpdateValue :=
| UText (s : string)
| UNumber (n : PrimFloat.float).

Definition truthy (o : option string) : bool :=
  match o with
  | Some EmptyString => false
  | Some _ => true
  | None => false
  end.

(** [count || 0] on a Number that may be missing. *)
Definition numberOrZero (count : option PrimFloat.float) : PrimFloat.float :=
  match count with
  | Some n =>
      if PrimFloat.is_nan n || PrimFloat.eqb n PrimFloat.zero
      then PrimFloat.zero
      else n
  | None => PrimFloat.zero
  end.

(** [data?.field]. *)
Definition fieldOf {A : Type} (field : Profile -> option A)
    (data : option Profile) : option A :=
  match data with
  | Some p => field p
  | None => None
  end.

(** [if (!data?.field && value) updates.key = value], and the two tests
    that are written the other way round. *)
Definition syncMissing (key : string) (field : Profile -> option string)
    (data : option Profile) (value : option string)
  : list (string * UpdateValue) :=
  match value with
  | Some v =>
      if negb (truthy (fieldOf field data)) && truthy value
      then [(key, UText v)]
      else []
  | None => []
  end.

(** [app_metadata?.provider || user_metadata?.provider || 'email']. *)
Definition providerOf (user : AuthUser) : string :=
  match au_app_provider user, au_meta_provider user with
  | Some (String a s), _ => String a s
  | _, Some (String a s) => String a s
  | _, _ => "email"%string
  end.

(** The object [updates] that [loadProfile] builds. *)
Definition profileUpdates (data : option Profile) (user : AuthUser)
    (browserData : BrowserData) (now : string)
  : list (string * UpdateValue) :=
  syncMissing "email" pr_email data (au_email user)
  ++ [("last_login_at"%string, UText now)]
  ++ [("sign_in_count"%string,
       UNumber (PrimFloat.add
                  (numberOrZero (fieldOf pr_sign_in_count data))
                  PrimFloat.one))]
  ++ syncMissing "timezone" pr_timezone data (bd_timezone browserData)
  ++ syncMissing "language" pr_language data (bd_language browserData)
  ++ syncMissing "user_agent" pr_user_agent data (bd_user_agent browserData)
  ++ syncMissing "email_confirmed_at" pr_email_confirmed_at data
       (au_email_confirmed_at user)
  ++ syncMissing "account_created_at" pr_account_created_at data
       (au_created_at user)
  ++ (if negb (truthy (fieldOf pr_provider data))
         || negb (match fieldOf pr_provider data with
                  | Some p => String.eqb p (providerOf user)
                  | None => false
                  end)
      then [("provider"%string, UText (providerOf user))]
      else [])
  ++ syncMissing "locale" pr_locale data (au_locale user)
  ++ syncMissing "first_name" pr_first_name data (au_given_name user)
  ++ syncMissing "last_name" pr_last_name data (au_family_name user).



Section ProfileExamples.

Import PrimFloat.

(** Sign-in counts: an ordinary one, and the first whole number whose
    successor is not a Number. *)
Definition fourSignIns : float := 4%float.

End ProfileExamples.

(** A returning user whose profile is complete, and the browser. *)
Definition knownProfile : Profile :=
  (mkProfile (Some "a@example.org") (Some "Ada") (Some "Lovelace")
     (Some "en-GB") (Some "Europe/London") (Some "en") (Some "Firefox")
     (Some "2025-01-01") (Some "2025-01-01") (Some fourSignIns)
     (Some "google"))%string.


Definition googleUser : AuthUser :=
  (mkAuthUser (Some "new@example.org") (Some "2025-02-02")
     (Some "2025-01-01") (Some "google") None (Some "fr") (Some "Augusta")
     (Some "King"))%string.

Definition someBrowser : BrowserData :=
  (mkBrowserData (Some "Asia/Tokyo") (Some "ja") (Some "Chrome"))%string.

(** * Properties of the controller *)

(** ** Node identity and child lists *)

Lemma node_eqb_refl (x : Node) : node_eqb x x = true.
Proof. unfold node_eqb. destruct (node_eq_dec x x); congruence. Qed.

Lemma node_eqb_eq (x y : Node) : node_eqb x y = true <-> x = y.
Proof. unfold node_eqb. destruct (node_eq_dec x y); split; congruence. Qed.

Lemma node_eqb_neq (x y : Node) : node_eqb x y = false <-> x <> y.
Proof. unfold node_eqb. destruct (node_eq_dec x y); split; congruence. Qed.

Lemma node_eqb_sym (x y : Node) : node_eqb x y = node_eqb y x.
Proof.
  unfold node_eqb.
  destruct (node_eq_dec x y), (node_eq_dec y x); congruence.
Qed.

(** Case analysis on every node comparison in sight. *)
Ltac node_cases :=
  repeat match goal with
         | |- context [node_eqb ?a ?b] =>
             let E := fresh "E" in
             destruct (node_eqb a b) eqn:E;
             [apply node_eqb_eq in E | apply node_eqb_neq in E]
         | H : context [node_eqb ?a ?b] |- _ =>
             let E := fresh "E" in
             destruct (node_eqb a b) eqn:E;
             [apply node_eqb_eq in E | apply node_eqb_neq in E]
         end.

Lemma isChild_In (x : Node) (l : list Node) : isChild x l = true <-> In x l.
Proof.
  unfold isChild. rewrite existsb_exists. split.
  - intros [y [Hy E]]. apply node_eqb_eq in E. now subst.
  - intros H. exists x. split; [assumption | apply node_eqb_refl].
Qed.

Lemma isChild_not_In (x : Node) (l : list Node) :
  isChild x l = false <-> ~ In x l.
Proof.
  rewrite <- isChild_In. destruct (isChild x l); split; congruence.
Qed.

Lemma indexOf_ge (x : Node) (l : list Node) : -1 <= indexOf x l.
Proof.
  induction l as [|n t IH]; simpl; [lia|].
  destruct (node_eqb n x); [lia|].
  destruct (indexOf x t =? -1) eqn:E; lia.
Qed.

Lemma indexOf_absent (x : Node) (l : list Node) :
  indexOf x l = -1 <-> ~ In x l.
Proof.
  induction l as [|n t IH]; simpl.
  - tauto.
  - pose proof (indexOf_ge x t) as Hge.
    destruct (node_eqb n x) eqn:E.
    + apply node_eqb_eq in E. split; [lia | tauto].
    + apply node_eqb_neq in E.
      destruct (indexOf x t =? -1) eqn:E1.
      * apply Z.eqb_eq in E1. split; [|reflexivity].
        intros _ [H|H]; [congruence | tauto].
      * apply Z.eqb_neq in E1. split; [lia|].
        intros H. exfalso. apply E1, IH. tauto.
Qed.

Lemma indexOf_present (x : Node) (l : list Node) :
  In x l -> 0 <= indexOf x l < Z.of_nat (List.length l).
Proof.
  induction l as [|n t IH]; simpl; [tauto|].
  intros H. destruct (node_eqb n x) eqn:E; [lia|].
  apply node_eqb_neq in E.
  destruct H as [H|H]; [congruence|].
  specialize (IH H).
  destruct (indexOf x t =? -1) eqn:E1; [apply Z.eqb_eq in E1|]; lia.
Qed.

Lemma removeNode_not_In (x : Node) (l : list Node) : ~ In x (removeNode x l).
Proof.
  unfold removeNode. rewrite filter_In. intros [_ H].
  now rewrite node_eqb_refl in H.
Qed.

Lemma removeNode_In (x y : Node) (l : list Node) :
  In y (removeNode x l) <-> In y l /\ y <> x.
Proof.
  unfold removeNode. rewrite filter_In, negb_true_iff, node_eqb_neq. tauto.
Qed.

Lemma removeNode_absent (x : Node) (l : list Node) :
  ~ In x l -> removeNode x l = l.
Proof.
  induction l as [|n t IH]; simpl; [reflexivity|].
  intros H. node_cases; simpl.
  - exfalso. apply H. now left.
  - f_equal. apply IH. tauto.
Qed.

(** ** Listener lists *)

Lemma gesture_eqb_refl (g : Gesture) : gesture_eqb g g = true.
Proof.
  unfold gesture_eqb.
  now rewrite Nat.eqb_refl, !Bool.eqb_reflx, Z.eqb_refl.
Qed.

Lemma gesture_eqb_eq (g h : Gesture) : gesture_eqb g h = true <-> g = h.
Proof.
  split; [|intros ->; apply gesture_eqb_refl].
  unfold gesture_eqb. rewrite !andb_true_iff.
  intros [[[H1 H2] H3] H4].
  apply Nat.eqb_eq in H1. apply Bool.eqb_prop in H2, H3.
  apply Z.eqb_eq in H4.
  destruct g, h; simpl in *; congruence.
Qed.

Lemma moveL_eqb_eq (a b : MoveListener) : moveL_eqb a b = true <-> a = b.
Proof.
  destruct a as [g|], b as [h|]; simpl; try (split; congruence).
  rewrite gesture_eqb_eq. split; congruence.
Qed.

Lemma upL_eqb_eq (a b : UpListener) : upL_eqb a b = true <-> a = b.
Proof.
  destruct a as [g|], b as [h|]; simpl; try (split; congruence).
  rewrite gesture_eqb_eq. split; congruence.
Qed.

Lemma existsb_moveL (l : MoveListener) (ls : list MoveListener) :
  existsb (moveL_eqb l) ls = true <-> In l ls.
Proof.
  rewrite existsb_exists. split.
  - intros [k [Hk E]]. apply moveL_eqb_eq in E. now subst.
  - intros H. exists l. split; [assumption | now apply moveL_eqb_eq].
Qed.

Lemma existsb_upL (l : UpListener) (ls : list UpListener) :
  existsb (upL_eqb l) ls = true <-> In l ls.
Proof.
  rewrite existsb_exists. split.
  - intros [k [Hk E]]. apply upL_eqb_eq in E. now subst.
  - intros H. exists l. split; [assumption | now apply upL_eqb_eq].
Qed.

Lemma removeMoveListener_In (k l : MoveListener) (ls : list MoveListener) :
  In k (removeMoveListener l ls) <-> In k ls /\ k <> l.
Proof.
  unfold removeMoveListener. rewrite filter_In, negb_true_iff.
  split; intros [H1 H2]; split; try assumption.
  - intros ->. now rewrite (proj2 (moveL_eqb_eq l l) eq_refl) in H2.
  - destruct (moveL_eqb k l) eqn:E; [|reflexivity].
    apply moveL_eqb_eq in E. contradiction.
Qed.

Lemma removeUpListener_In (k l : UpListener) (ls : list UpListener) :
  In k (removeUpListener l ls) <-> In k ls /\ k <> l.
Proof.
  unfold removeUpListener. rewrite filter_In, negb_true_iff.
  split; intros [H1 H2]; split; try assumption.
  - intros ->. now rewrite (proj2 (upL_eqb_eq l l) eq_refl) in H2.
  - destruct (upL_eqb k l) eqn:E; [|reflexivity].
    apply upL_eqb_eq in E. contradiction.
Qed.

Lemma addMoveListener_In (k l : MoveListener) (ls : list MoveListener) :
  In k (addMoveListener l ls) <-> In k ls \/ k = l.
Proof.
  unfold addMoveListener. destruct (existsb (moveL_eqb l) ls) eqn:E.
  - apply existsb_moveL in E. split; [tauto|]. intros [H | ->]; assumption.
  - rewrite in_app_iff. simpl. split; intros [H|H]; auto.
    + destruct H as [H|[]]; auto.
Qed.

Lemma addUpListener_In (k l : UpListener) (ls : list UpListener) :
  In k (addUpListener l ls) <-> In k ls \/ k = l.
Proof.
  unfold addUpListener. destruct (existsb (upL_eqb l) ls) eqn:E.
  - apply existsb_upL in E. split; [tauto|]. intros [H | ->]; assumption.
  - rewrite in_app_iff. simpl. split; intros [H|H]; auto.
    + destruct H as [H|[]]; auto.
Qed.

(** ** Pointer-down on an interactive control *)

Lemma closest_chainFrom (sel : Node -> bool) (path : list Node) (c : Node) :
  closest sel path = Some c -> closest sel (chainFrom c path) = Some c.
Proof.
  unfold closest. induction path as [|n t IH]; simpl; [congruence|].
  destruct (sel n) eqn:Hn.
  - intros [= ->]. rewrite node_eqb_refl. simpl. now rewrite Hn.
  - intros H. destruct (node_eqb n c) eqn:E.
    + simpl. now rewrite Hn.
    + now apply IH.
Qed.

(** The guard of [handlePointerDown] as the source writes it: the nearest
    interactive ancestor-or-self of the target exists and is not the
    nearest draggable ancestor-or-self. *)
Lemma interactive_guard (e : DownEvent) (s : State) (c : Node) :
  closest isInteractive (d_path e) = Some c ->
  closest dataDraggable (d_path e) <> Some c ->
  handlePointerDown e s = s.
Proof.
  intros Hc Hd. unfold handlePointerDown.
  destruct (disabled (options (ctl s)) || isDragging (ctl s));
    [reflexivity|].
  rewrite Hc.
  destruct (closest dataDraggable (d_path e)) as [d|] eqn:Ed; simpl.
  - destruct (node_eqb c d) eqn:E; [|reflexivity].
    apply node_eqb_eq in E. congruence.
  - reflexivity.
Qed.

(** C9.  A pointer-down whose target is, or lies inside, an interactive
    control ([c] is the nearest one: button, input, select, textarea, link
    or role=button) that is not inside a draggable item (no draggable
    element among [c] and its ancestors, the relation [closest] walks) is
    ignored: the handler returns the state it was given, so there is no
    pending gesture, no listener and nothing a drag could start from. *)
Theorem C9_interactive_control_ignored
    (e : DownEvent) (s : State) (c : Node)
    (Hc : closest isInteractive (d_path e) = Some c)
    (Hout : closest dataDraggable (chainFrom c (d_path e)) = None) :
  handlePointerDown e s = s.
Proof.
  apply (interactive_guard e s c Hc).
  intros Hd. apply closest_chainFrom in Hd. congruence.
Qed.

(** ** The time condition of the touch-scroll branch *)

Lemma dragThreshold_touch_scroll (g : Gesture) :
  g_isTouch g = true -> g_isScrollable g = true -> dragThreshold g = 30.
Proof. unfold dragThreshold. now intros -> ->. Qed.

(** C2 (what the code does).  For a pending touch gesture on a scrollable
    container, a move whose distance is below 30 px never promotes the
    gesture, whatever time has elapsed: the disjunct that mentions the
    elapsed time is only reached when the distance is already below the
    threshold.  In particular a move of 25 px after 500 ms is not promoted. *)
Theorem C2_below_30_never_promotes
    (g : Gesture) (e : MoveEvent) (s : State) (pd : PendingDrag)
    (Htouch : g_isTouch g = true) (Hscroll : g_isScrollable g = true)
    (Hpending : pendingDrag (ctl s) = Some pd)
    (Hdist : moveDistance e pd < 30) :
  isDragging (ctl (handleMove g e s)) = isDragging (ctl s)
  /\ ghostElement (ctl (handleMove g e s)) = ghostElement (ctl s)
  /\ draggedElement (ctl (handleMove g e s)) = draggedElement (ctl s).
Proof.
  unfold handleMove. rewrite Hpending, Htouch, Hscroll.
  rewrite (dragThreshold_touch_scroll g Htouch Hscroll). simpl.
  destruct (2 * moveDistanceY e pd >? 3 * moveDistanceX e pd).
  - unfold abandon. simpl. auto.
  - apply Z.ltb_lt in Hdist. rewrite Hdist. simpl. auto.
Qed.

(** ** Reconfiguration while dragging *)

Ltac cleanup_cases s :=
  unfold cleanup; cbn;
  destruct (ghostElement (ctl s)) eqn:Eg; cbn; rewrite ?Eg;
  destruct (placeholder (ctl s)) eqn:Ep; cbn; rewrite ?Eg, ?Ep;
  destruct (draggedElement (ctl s)) eqn:Ed; cbn; rewrite ?Eg, ?Ep, ?Ed.

(** [cleanup] never touches the listeners of [document]. *)
Lemma cleanup_listeners (s : State) :
  moveListeners (doc (cleanup s)) = moveListeners (doc s)
  /\ upListeners (doc (cleanup s)) = upListeners (doc s)
  /\ cancelListeners (doc (cleanup s)) = cancelListeners (doc s)
  /\ bodyGrabbing (doc (cleanup s)) = bodyGrabbing (doc s).
Proof.
  cleanup_cases s; repeat split; reflexivity.
Qed.

Lemma cleanup_ctl (s : State) :
  isDragging (ctl (cleanup s)) = false
  /\ ghostElement (ctl (cleanup s)) = None
  /\ placeholder (ctl (cleanup s)) = None
  /\ draggedElement (ctl (cleanup s)) = None
  /\ pendingDrag (ctl (cleanup s)) = None
  /\ draggedIndex (ctl (cleanup s)) = -1
  /\ dropLog (cleanup s) = dropLog s.
Proof.
  cleanup_cases s; repeat split; reflexivity.
Qed.

(** C3 (what the code does).  Reconfiguring to [disabled] while a drag is
    active ends the session through [cleanup] without calling [onDrop], but
    the drag-phase listeners that [startDrag] put on [document] stay
    registered and the page-level overrides stay in force: only
    [handlePointerUp] and [destroy] detach them. *)
Theorem C3_disable_keeps_drag_listeners
    (o : Options) (s : State)
    (Hdrag : isDragging (ctl s) = true)
    (Hdis : disabled o = true)
    (Hmove : In LHandlePointerMove (moveListeners (doc s)))
    (Hup : In LHandlePointerUp (upListeners (doc s)))
    (Hcancel : In LHandlePointerUp (cancelListeners (doc s)))
    (Hbody : bodyGrabbing (doc s) = true) :
  isDragging (ctl (update o s)) = false
  /\ dropLog (update o s) = dropLog s
  /\ In LHandlePointerMove (moveListeners (doc (update o s)))
  /\ In LHandlePointerUp (upListeners (doc (update o s)))
  /\ In LHandlePointerUp (cancelListeners (doc (update o s)))
  /\ bodyGrabbing (doc (update o s)) = true.
Proof.
  assert (E : update o s = cleanup (upd_ctl (set_options o) s)).
  { unfold update. cbn [ctl upd_ctl isDragging set_options].
    now rewrite Hdis, Hdrag. }
  rewrite E. clear E.
  set (s1 := upd_ctl (set_options o) s).
  destruct (cleanup_listeners s1) as (Lm & Lu & Lc & Lb).
  destruct (cleanup_ctl s1) as (Cd & _ & _ & _ & _ & _ & Cl).
  rewrite Lm, Lu, Lc, Lb, Cd, Cl. subst s1. cbn.
  repeat split; assumption.
Qed.

(** ** Release: commit and cleanup *)

Lemma cleanup_doc (s : State) :
  bodyKids (doc (cleanup s))
  = match ghostElement (ctl s) with
    | Some g => removeNode g (bodyKids (doc s))
    | None => bodyKids (doc s)
    end
  /\ kids (doc (cleanup s))
     = match placeholder (ctl s) with
       | Some p => removeNode p (kids (doc s))
       | None => kids (doc s)
       end
  /\ itemStyle (doc (cleanup s))
     = match draggedElement (ctl s) with
       | Some d => setStyle d clearStyle (itemStyle (doc s))
       | None => itemStyle (doc s)
       end.
Proof. cleanup_cases s; repeat split; reflexivity. Qed.

Lemma commitDrop_frame (s : State) :
  ctl (commitDrop s) = ctl s /\ doc (commitDrop s) = doc s.
Proof.
  unfold commitDrop. destruct (draggedElement (ctl s)); [|auto].
  match goal with |- context [if ?c then _ else _] => destruct c end;
    auto.
Qed.

Lemma commitDrop_log (s : State) (d : Node) :
  draggedElement (ctl s) = Some d ->
  dropLog (commitDrop s)
  = dropLog s
    ++ (let j := indexOf d (getDraggableItems s) in
        if negb (j =? -1) && negb (j =? draggedIndex (ctl s))
        then [(draggedIndex (ctl s), j)]
        else []).
Proof.
  intros Hd. unfold commitDrop. rewrite Hd. cbv zeta.
  match goal with |- context [if ?c then _ else _] => destruct c end.
  - reflexivity.
  - now rewrite app_nil_r.
Qed.

Lemma handlePointerUp_idle (s : State) :
  isDragging (ctl s) = false -> handlePointerUp s = s.
Proof. intros H. unfold handlePointerUp. now rewrite H. Qed.

Lemma handlePointerUp_unfold (s : State) :
  isDragging (ctl s) = true ->
  handlePointerUp s
  = upd_doc (set_bodyGrabbing false)
      (detachDragListeners
         (cleanup (commitDrop (upd_ctl (set_animationFrameId None) s)))).
Proof. intros H. unfold handlePointerUp. now rewrite H. Qed.

Lemma handlePointerUp_log (s : State) (d : Node) :
  isDragging (ctl s) = true ->
  draggedElement (ctl s) = Some d ->
  dropLog (handlePointerUp s)
  = dropLog s
    ++ (let j := indexOf d (getDraggableItems s) in
        if negb (j =? -1) && negb (j =? draggedIndex (ctl s))
        then [(draggedIndex (ctl s), j)]
        else []).
Proof.
  intros Hdrag Hd. rewrite (handlePointerUp_unfold s Hdrag).
  cbn [dropLog upd_doc detachDragListeners].
  destruct (cleanup_ctl
              (commitDrop (upd_ctl (set_animationFrameId None) s)))
    as (_ & _ & _ & _ & _ & _ & Hl).
  rewrite Hl. now rewrite (commitDrop_log _ d).
Qed.

Lemma cleanup_sessionCleared (s : State) : sessionCleared s (cleanup s).
Proof.
  destruct (cleanup_ctl s) as (C1 & C2 & C3 & C4 & _).
  destruct (cleanup_doc s) as (D1 & D2 & D3).
  unfold sessionCleared. rewrite C1, C2, C3, C4, D1, D2, D3.
  repeat split.
  - intros g ->. apply removeNode_not_In.
  - intros p ->. apply removeNode_not_In.
  - intros d ->. unfold setStyle. now rewrite node_eqb_refl.
Qed.

Lemma detachDragListeners_detached (s : State) :
  ~ In LHandlePointerMove (moveListeners (doc (detachDragListeners s)))
  /\ ~ In LHandlePointerUp (upListeners (doc (detachDragListeners s)))
  /\ ~ In LHandlePointerUp (cancelListeners (doc (detachDragListeners s))).
Proof.
  unfold detachDragListeners. cbn.
  repeat split; intros H;
    [apply removeMoveListener_In in H | apply removeUpListener_In in H
    | apply removeUpListener_In in H]; tauto.
Qed.

Lemma handlePointerUp_cleans (s : State) :
  isDragging (ctl s) = true ->
  sessionCleared s (handlePointerUp s)
  /\ dragListenersDetached (handlePointerUp s).
Proof.
  intros Hdrag. rewrite (handlePointerUp_unfold s Hdrag).
  set (s1 := commitDrop (upd_ctl (set_animationFrameId None) s)).
  assert (Hc : ctl s1 = ctl (upd_ctl (set_animationFrameId None) s))
    by apply commitDrop_frame.
  pose proof (cleanup_sessionCleared s1) as Hs.
  pose proof (detachDragListeners_detached (cleanup s1)) as Hl.
  split.
  - unfold sessionCleared in *. rewrite Hc in Hs. cbn in Hs |- *.
    exact Hs.
  - unfold dragListenersDetached. cbn in Hl |- *. tauto.
Qed.

(** C10.  When the dragged element is no longer among the draggable
    children at pointer-up (its index is [-1]), [onDrop] is not called,
    and the cleanup still runs: ghost and placeholder are removed, the
    item's styling is reset, the controller is idle again and the
    drag-phase listeners are detached. *)
Theorem C10_removed_item_no_callback
    (s : State) (d : Node)
    (Hdrag : isDragging (ctl s) = true)
    (Hd : draggedElement (ctl s) = Some d)
    (Hgone : indexOf d (getDraggableItems s) = -1) :
  dropLog (handlePointerUp s) = dropLog s
  /\ sessionCleared s (handlePointerUp s)
  /\ dragListenersDetached (handlePointerUp s).
Proof.
  split; [|now apply handlePointerUp_cleans].
  rewrite (handlePointerUp_log s d Hdrag Hd). cbv zeta.
  rewrite Hgone. simpl. apply app_nil_r.
Qed.

(** ** A drag session seen from the event loop *)

Lemma relayout_id (s : State) :
  relayout (kids (doc s)) (isHorizontalLayout (ctl s)) s = s.
Proof. destruct s as [[] [] ?]. reflexivity. Qed.

Lemma relayout_relayout (l l' : list Node) (h h' : bool) (s : State) :
  relayout l' h' (relayout l h s) = relayout l' h' s.
Proof. reflexivity. Qed.

Lemma viaParent_relayout (x : Node) (op : list Node -> list Node)
    (s : State) :
  exists l, viaParent x op s = relayout l (isHorizontalLayout (ctl s)) s.
Proof.
  unfold viaParent. destruct (isChild x (kids (doc s))).
  - exists (op (kids (doc s))). destruct s as [[] [] ?]. reflexivity.
  - exists (kids (doc s)). now rewrite relayout_id.
Qed.

Lemma viaParent_after_relayout (Q : list Node -> Prop) (x : Node)
    (op : list Node -> list Node) (l : list Node) (h : bool) (s : State) :
  Q l -> (forall k, Q k -> Q (op k)) ->
  exists l', viaParent x op (relayout l h s) = relayout l' h s /\ Q l'.
Proof.
  intros Hl Hop. unfold viaParent.
  destruct (isChild x (kids (doc (relayout l h s)))).
  - exists (op l). split; [reflexivity | now apply Hop].
  - exists l. split; [reflexivity | exact Hl].
Qed.

(** A position update only reorders the children and sets the layout
    flag, and it reorders them by moving the dragged element and the
    placeholder with [insertBefore]: a property [Q] of child lists that
    those moves keep is kept by the update. *)
Lemma updateDragPosition_moves (Q : list Node -> Prop) (x y : Z)
    (lay : Layout) (s : State) :
  (forall d p ref k,
      draggedElement (ctl s) = Some d -> placeholder (ctl s) = Some p ->
      Q k -> Q (domInsertBefore d ref k) /\ Q (domInsertBefore p ref k)) ->
  Q (kids (doc s)) ->
  exists l h, updateDragPosition x y lay s = relayout l h s /\ Q l.
Proof.
  intros HQ HQ0.
  assert (Hid : exists l h, s = relayout l h s /\ Q l).
  { exists (kids (doc s)), (isHorizontalLayout (ctl s)).
    now rewrite relayout_id. }
  unfold updateDragPosition.
  destruct (ghostElement (ctl s)); [|exact Hid].
  destruct (draggedElement (ctl s)) as [dragged|]; [|exact Hid].
  destruct (placeholder (ctl s)) as [ph|]; [|exact Hid].
  assert (HQd : forall ref k, Q k -> Q (domInsertBefore dragged ref k))
    by (intros ref k Hk; now apply (HQ dragged ph ref k)).
  assert (HQp : forall ref k, Q k -> Q (domInsertBefore ph ref k))
    by (intros ref k Hk; now apply (HQ dragged ph ref k)).
  set (h := isFlexWrapOf lay && isHorizontalOf lay).
  assert (E0 : upd_ctl (set_isHorizontalLayout h) s
               = relayout (kids (doc s)) h s).
  { destruct s as [[] [] ?]. reflexivity. }
  rewrite E0. clear Hid E0.
  set (s1 := relayout (kids (doc s)) h s).
  assert (H1 : exists l, s1 = relayout l h s /\ Q l)
    by (exists (kids (doc s)); auto).
  cbv zeta.
  assert (Hvia : forall z op t,
            (forall k, Q k -> Q (op k)) ->
            (exists l, t = relayout l h s /\ Q l) ->
            exists l, viaParent z op t = relayout l h s /\ Q l).
  { intros z op t Hop [l [-> Hl]].
    now apply viaParent_after_relayout. }
  assert (Hfollow : forall t, (exists l, t = relayout l h s /\ Q l) ->
            exists l h', followDragged dragged ph t = relayout l h' s /\ Q l).
  { intros t Ht. unfold followDragged.
    destruct (Hvia dragged
                (fun l0 => domInsertBefore ph (nextSibling dragged l0) l0)
                t) as [l' E]; [intros k; apply HQp | exact Ht|].
    exists l', h. exact E. }
  assert (Hs1 : exists l h', s1 = relayout l h' s /\ Q l)
    by (exists (kids (doc s)), h; auto).
  destruct (getElementUnderPoint lay x y) as [hovered|].
  - destruct (negb (node_eqb hovered dragged) && negb (node_eqb hovered ph));
      [|exact Hs1].
    match goal with |- context [if ?c then _ else _] => destruct c end;
      [|exact Hs1].
    match goal with
    | |- context [if isChild ph (kids (doc ?t)) && _ then _ else _] =>
        assert (Ht : exists l, t = relayout l h s /\ Q l)
    end.
    { destruct (if beforeSide (isHorizontalLayout (ctl s1)) x y
                     (rectOf lay hovered)
                then Some hovered
                else nextSibling hovered (kids (doc s1))) as [r|].
      - destruct (negb (node_eqb r dragged)); [|exact H1].
        apply Hvia; [apply HQd | exact H1].
      - apply Hvia; [apply HQd | exact H1]. }
    match goal with |- context [if ?c then _ else _] => destruct c end.
    + now apply Hfollow.
    + destruct Ht as [l Ht]. exists l, h. exact Ht.
  - destruct (getDraggableItems s1) as [|firstItem rest]; [exact Hs1|].
    destruct (isHorizontalLayout (ctl s1)).
    + destruct (x <? left (rectOf lay firstItem)).
      * apply Hfollow. apply Hvia; [apply HQd | exact H1].
      * destruct (x >? right (rectOf lay (last rest firstItem)));
          [|exact Hs1].
        apply Hfollow. apply Hvia; [apply HQd | exact H1].
    + destruct (y <? top (rectOf lay firstItem)).
      * apply Hfollow. apply Hvia; [apply HQd | exact H1].
      * destruct (y >? bottom (rectOf lay (last rest firstItem)));
          [|exact Hs1].
        apply Hfollow. apply Hvia; [apply HQd | exact H1].
Qed.

Lemma updateDragPosition_relayout (x y : Z) (lay : Layout) (s : State) :
  exists l h, updateDragPosition x y lay s = relayout l h s.
Proof.
  destruct (updateDragPosition_moves (fun _ => True) x y lay s)
    as (l & h & E & _); [auto | exact I|].
  now exists l, h.
Qed.

Lemma inSession_relayout (item : Node) (i : Z) (log : list (Z * Z))
    (l : list Node) (h : bool) (s : State) :
  inSession item i log s -> inSession item i log (relayout l h s).
Proof. unfold inSession. cbn. tauto. Qed.

Lemma startDrag_dragging (item : Node) (s : State) :
  isDragging (ctl s) = true -> startDrag item s = s.
Proof. intros H. unfold startDrag. now rewrite H. Qed.

(** [startDrag] gives up when the item is not a draggable child. *)
Lemma startDrag_not_child (item : Node) (s : State) :
  isDragging (ctl s) = false ->
  indexOf item (getDraggableItems s) = -1 ->
  startDrag item s
  = upd_ctl (set_draggedElement None) (upd_ctl (set_draggedIndex (-1)) s).
Proof.
  intros Hidle Hi. unfold startDrag. rewrite Hidle.
  cbn [ctl upd_ctl draggedIndex set_draggedIndex].
  change (getDraggableItems
            (upd_ctl (set_draggedElement (Some item))
               (upd_ctl (set_isDragging true) s)))
    with (getDraggableItems s).
  rewrite Hi. simpl (-1 =? -1).
  destruct s as [[] [] ?]. cbn in *. subst. reflexivity.
Qed.

Lemma startDrag_session (item : Node) (s : State) :
  isDragging (ctl s) = false ->
  indexOf item (getDraggableItems s) <> -1 ->
  inSession item (indexOf item (getDraggableItems s)) (dropLog s)
    (startDrag item s).
Proof.
  intros Hidle Hi. unfold startDrag. rewrite Hidle.
  cbn [ctl upd_ctl draggedIndex set_draggedIndex].
  change (getDraggableItems
            (upd_ctl (set_draggedElement (Some item))
               (upd_ctl (set_isDragging true) s)))
    with (getDraggableItems s).
  apply Z.eqb_neq in Hi. rewrite Hi.
  unfold createGhost, createPlaceholder. cbv zeta.
  match goal with
  | |- context [viaParent item ?op ?t] =>
      destruct (viaParent_relayout item op t) as [l E]; rewrite E
  end.
  unfold inSession. cbn. repeat split.
  apply addUpListener_In. now right.
Qed.

Lemma removeGestureListeners_session (g : Gesture) (item : Node) (i : Z)
    (log : list (Z * Z)) (s : State) :
  inSession item i log s ->
  inSession item i log
    (removeGestureListeners g (upd_ctl (set_pendingDrag None) s)).
Proof.
  unfold inSession. cbn. intros (H1 & H2 & H3 & H4 & H5).
  repeat split; try assumption.
  apply removeUpListener_In. split; [assumption | discriminate].
Qed.

Lemma handleMove_session (g : Gesture) (e : MoveEvent) (item : Node)
    (i : Z) (log : list (Z * Z)) (s : State) :
  inSession item i log s -> inSession item i log (handleMove g e s).
Proof.
  intros H. unfold handleMove.
  destruct (pendingDrag (ctl s)) as [pd|]; [|exact H].
  assert (Hp : inSession item i log (promote g pd s)).
  { unfold promote. rewrite startDrag_dragging by apply H.
    now apply removeGestureListeners_session. }
  assert (Ha : inSession item i log (abandon g s))
    by now apply removeGestureListeners_session.
  cbv zeta.
  repeat match goal with
         | |- context [if ?c then _ else _] => destruct c
         end; assumption.
Qed.

Lemma handlePointerMove_session (e : MoveEvent) (item : Node) (i : Z)
    (log : list (Z * Z)) (s : State) :
  inSession item i log s -> inSession item i log (handlePointerMove e s).
Proof.
  intros H. unfold handlePointerMove.
  destruct (negb (isDragging (ctl s))); [exact H|].
  destruct (draggedElement (ctl s)); [|exact H].
  unfold inSession in *. cbn. exact H.
Qed.

Lemma runMoveListener_session (e : MoveEvent) (l : MoveListener)
    (item : Node) (i : Z) (log : list (Z * Z)) (s : State) :
  inSession item i log s -> inSession item i log (runMoveListener e s l).
Proof.
  intros H. unfold runMoveListener.
  destruct (existsb (moveL_eqb l) (moveListeners (doc s))); [|exact H].
  destruct l.
  - now apply handleMove_session.
  - now apply handlePointerMove_session.
Qed.

Lemma fold_moves_session (e : MoveEvent) (ls : list MoveListener)
    (item : Node) (i : Z) (log : list (Z * Z)) (s : State) :
  inSession item i log s ->
  inSession item i log (fold_left (runMoveListener e) ls s).
Proof.
  revert s. induction ls as [|l ls IH]; intros s H; simpl; [exact H|].
  apply IH. now apply runMoveListener_session.
Qed.



(** *** How a session begins: a pointermove that promotes a gesture *)

Lemma getDraggableItems_kids (s t : State) :
  kids (doc t) = kids (doc s) -> getDraggableItems t = getDraggableItems s.
Proof. unfold getDraggableItems. now intros ->. Qed.





(** *** How a session ends: pointerup *)

Lemma runUpListener_released (l : UpListener) (log : list (Z * Z))
    (t : State) :
  released log t -> released log (runUpListener t l).
Proof.
  intros H. unfold runUpListener.
  destruct (existsb (upL_eqb l) (upListeners (doc t))); [|exact H].
  destruct l.
  - unfold released in *. cbn. exact H.
  - rewrite handlePointerUp_idle; [exact H | apply H].
Qed.

Lemma fold_ups_released (ls : list UpListener) (log : list (Z * Z))
    (t : State) :
  released log t -> released log (fold_left runUpListener ls t).
Proof.
  revert t. induction ls as [|l ls IH]; intros t H; simpl; [exact H|].
  apply IH. now apply runUpListener_released.
Qed.

Lemma fold_ups_session (ls : list UpListener) (item : Node) (i : Z)
    (log : list (Z * Z)) (s t : State) :
  inSession item i log t ->
  kids (doc t) = kids (doc s) ->
  In LHandlePointerUp ls ->
  released (log ++ dropCalls i (indexOf item (getDraggableItems s)))
    (fold_left runUpListener ls t).
Proof.
  revert t. induction ls as [|l ls IH]; intros t H Hk Hin; simpl;
    [contradiction|].
  destruct l as [g|].
  - destruct Hin as [Hin|Hin]; [discriminate|].
    apply IH; [| |exact Hin].
    + unfold runUpListener.
      destruct (existsb (upL_eqb (LHandleUp g)) (upListeners (doc t)));
        [|exact H].
      now apply removeGestureListeners_session.
    + unfold runUpListener.
      destruct (existsb (upL_eqb (LHandleUp g)) (upListeners (doc t)));
        [|exact Hk].
      exact Hk.
  - apply fold_ups_released.
    destruct H as (Hd & Hi & Hx & Hl & Hreg).
    unfold runUpListener.
    rewrite (proj2 (existsb_upL _ _) Hreg).
    split.
    + apply (handlePointerUp_cleans t Hd).
    + rewrite (handlePointerUp_log t item Hd Hi). cbv zeta.
      rewrite Hx, Hl, (getDraggableItems_kids s t Hk). reflexivity.
Qed.

Lemma dispatchUp_session (item : Node) (i : Z) (log : list (Z * Z))
    (s : State) :
  inSession item i log s ->
  released (log ++ dropCalls i (indexOf item (getDraggableItems s)))
    (dispatchUp s).
Proof.
  intros H. unfold dispatchUp.
  apply (fold_ups_session _ item i log s s H eq_refl). apply H.
Qed.


(** ** The pending gesture *)

(** Without a pending drag and without a session, no listener on
    pointermove does anything. *)
Lemma runMoveListener_quiet (e : MoveEvent) (l : MoveListener) (t : State) :
  pendingDrag (ctl t) = None -> isDragging (ctl t) = false ->
  runMoveListener e t l = t.
Proof.
  intros Hp Hd. unfold runMoveListener.
  destruct (existsb (moveL_eqb l) (moveListeners (doc t))); [|reflexivity].
  destruct l.
  - unfold handleMove. now rewrite Hp.
  - unfold handlePointerMove. now rewrite Hd.
Qed.

Lemma fold_moves_quiet (e : MoveEvent) (ls : list MoveListener) (t : State) :
  pendingDrag (ctl t) = None -> isDragging (ctl t) = false ->
  fold_left (runMoveListener e) ls t = t.
Proof.
  intros Hp Hd. induction ls as [|l ls IH]; simpl; [reflexivity|].
  now rewrite runMoveListener_quiet.
Qed.

Lemma run_moves_quiet (later : list MoveEvent) (t : State) :
  pendingDrag (ctl t) = None -> isDragging (ctl t) = false ->
  run (map PointerMove later) t = t.
Proof.
  intros Hp Hd. induction later as [|m later IH]; simpl; [reflexivity|].
  unfold dispatchMove. now rewrite fold_moves_quiet.
Qed.

(** The walk over the pointermove listeners when the only gesture
    closure among them is [g] and [g] gives the gesture up. *)
Lemma fold_moves_abandon (g : Gesture) (e : MoveEvent) (s : State)
    (ls : list MoveListener) :
  isDragging (ctl s) = false ->
  In (LHandleMove g) (moveListeners (doc s)) ->
  handleMove g e s = abandon g s ->
  (forall h, In (LHandleMove h) ls -> h = g) ->
  fold_left (runMoveListener e) ls s
  = if existsb (moveL_eqb (LHandleMove g)) ls then abandon g s else s.
Proof.
  intros Hidle Hreg Hab. induction ls as [|l ls IH]; intros Honly;
    [reflexivity|].
  cbn [fold_left existsb].
  destruct l as [h|].
  - assert (h = g) by (apply Honly; now left). subst h.
    cbn [moveL_eqb]. rewrite gesture_eqb_refl. cbn [orb].
    assert (E : runMoveListener e s (LHandleMove g) = abandon g s).
    { unfold runMoveListener.
      now rewrite (proj2 (existsb_moveL _ _) Hreg). }
    rewrite E. apply fold_moves_quiet; [reflexivity | exact Hidle].
  - assert (E : runMoveListener e s LHandlePointerMove = s).
    { unfold runMoveListener, handlePointerMove. rewrite Hidle.
      destruct (existsb (moveL_eqb LHandlePointerMove)
                  (moveListeners (doc s))); reflexivity. }
    rewrite E. cbn [moveL_eqb orb].
    apply IH. intros h Hh. apply Honly. now right.
Qed.

(** A pending touch gesture on a scrollable container whose closure [g]
    is the only gesture closure registered: a move whose vertical
    displacement exceeds 1.5 times the horizontal one gives the gesture
    up for good: the pending drag is discarded, the closure's move and up
    listeners are removed, and whatever moves follow, however far, leave
    the controller as it is, so none of them starts a drag. *)
Lemma vertical_move_abandons_alone
    (g : Gesture) (e : MoveEvent) (s : State) (pd : PendingDrag)
    (later : list MoveEvent)
    (Htouch : g_isTouch g = true) (Hscroll : g_isScrollable g = true)
    (Hidle : isDragging (ctl s) = false)
    (Hpending : pendingDrag (ctl s) = Some pd)
    (Hreg : In (LHandleMove g) (moveListeners (doc s)))
    (Honly : forall h, In (LHandleMove h) (moveListeners (doc s)) -> h = g)
    (Hvert : 2 * moveDistanceY e pd > 3 * moveDistanceX e pd) :
  let s1 := step s (PointerMove e) in
  pendingDrag (ctl s1) = None
  /\ ~ In (LHandleMove g) (moveListeners (doc s1))
  /\ ~ In (LHandleUp g) (upListeners (doc s1))
  /\ isDragging (ctl s1) = false
  /\ dropLog s1 = dropLog s
  /\ run (map PointerMove later) s1 = s1
  /\ isDragging (ctl (run (map PointerMove later) s1)) = false.
Proof.
  assert (Hab : handleMove g e s = abandon g s).
  { unfold handleMove. rewrite Hpending, Htouch, Hscroll. cbn [andb].
    apply Z.gtb_gt in Hvert. now rewrite Hvert. }
  assert (E : step s (PointerMove e) = abandon g s).
  { cbn [step]. unfold dispatchMove.
    rewrite (fold_moves_abandon g e s _ Hidle Hreg Hab Honly).
    now rewrite (proj2 (existsb_moveL _ _) Hreg). }
  intros s1. subst s1. rewrite E.
  assert (Hq : run (map PointerMove later) (abandon g s) = abandon g s)
    by (apply run_moves_quiet; [reflexivity | exact Hidle]).
  rewrite Hq. unfold abandon. cbn.
  repeat split; try assumption.
  - intros H. apply removeMoveListener_In in H. tauto.
  - intros H. apply removeUpListener_In in H. tauto.
Qed.

(** *** Closures left behind by an earlier gesture

    [handleUp] is registered for [pointerup] only, so a gesture that ends
    with [pointercancel] leaves its [handleMove] on [document], and a
    second [pointerdown] before the first gesture ended adds a second
    pair.  Such a closure keeps the [isTouch] and [isScrollable] of its
    own gesture and reads the shared [pendingDrag] of the current one. *)

(** The first listener in line is the closure of a gesture that was not
    a touch on a scrollable container: it promotes whatever gesture is
    pending as soon as the move reaches its own threshold. *)
Lemma stale_closure_promotes (h : Gesture) (rest : list MoveListener)
    (e : MoveEvent) (s : State) (pd : PendingDrag) :
  isDragging (ctl s) = false ->
  pendingDrag (ctl s) = Some pd ->
  indexOf (p_item pd) (getDraggableItems s) <> -1 ->
  moveListeners (doc s) = LHandleMove h :: rest ->
  g_isTouch h = false \/ g_isScrollable h = false ->
  (if g_isTouch h then 20 else 8) <= moveDistance e pd ->
  inSession (p_item pd) (indexOf (p_item pd) (getDraggableItems s))
    (dropLog s) (step s (PointerMove e)).
Proof.
  intros Hidle Hpending Hchild Hstale Hplain Hfar.
  cbn [step]. unfold dispatchMove. rewrite Hstale. cbn [fold_left].
  apply fold_moves_session.
  unfold runMoveListener. rewrite Hstale. cbn [existsb moveL_eqb].
  rewrite gesture_eqb_refl. cbn [orb].
  assert (Hp : handleMove h e s = promote h pd s).
  { unfold handleMove. rewrite Hpending. unfold dragThreshold.
    destruct (g_isTouch h), (g_isScrollable h); cbn [andb];
      try (destruct Hplain; discriminate);
      apply Z.ltb_ge in Hfar; now rewrite Hfar. }
  rewrite Hp. unfold promote. apply removeGestureListeners_session.
  now apply startDrag_session.
Qed.

(** C4 (what the code does).  A touch gesture is pending on a scrollable
    container and its closure [g] is registered, but the closure [h] of
    an earlier gesture, which was not a touch on a scrollable container,
    is still first in line.  On a move whose vertical displacement
    exceeds 1.5 times the horizontal one, [g] on its own would give the
    gesture up; the event as [document] delivers it starts a drag of
    the pending item instead, as soon as the move reaches the threshold
    of the earlier gesture (8 px for a mouse, 20 px for a touch). *)
Theorem C4_vertical_move_starts_drag
    (g h : Gesture) (rest : list MoveListener) (e : MoveEvent) (s : State)
    (pd : PendingDrag)
    (Htouch : g_isTouch g = true) (Hscroll : g_isScrollable g = true)
    (Hidle : isDragging (ctl s) = false)
    (Hpending : pendingDrag (ctl s) = Some pd)
    (Hchild : indexOf (p_item pd) (getDraggableItems s) <> -1)
    (Hstale : moveListeners (doc s) = LHandleMove h :: rest)
    (Hreg : In (LHandleMove g) rest)
    (Hplain : g_isTouch h = false \/ g_isScrollable h = false)
    (Hvert : 2 * Z.abs (m_clientY e - p_startY pd)
             > 3 * Z.abs (m_clientX e - p_startX pd))
    (Hfar : (if g_isTouch h then 20 else 8)
            <= Z.abs (m_clientY e - p_startY pd)) :
  handleMove g e s = abandon g s
  /\ isDragging (ctl (step s (PointerMove e))) = true
  /\ draggedElement (ctl (step s (PointerMove e))) = Some (p_item pd)
  /\ In LHandlePointerUp (upListeners (doc (step s (PointerMove e)))).
Proof.
  split.
  { unfold handleMove. rewrite Hpending, Htouch, Hscroll. cbn [andb].
    unfold moveDistanceY, moveDistanceX.
    apply Z.gtb_gt in Hvert. now rewrite Hvert. }
  assert (Hdist : (if g_isTouch h then 20 else 8) <= moveDistance e pd).
  { unfold moveDistance, moveDistanceY, moveDistanceX. lia. }
  destruct (stale_closure_promotes h rest e s pd Hidle Hpending Hchild
              Hstale Hplain Hdist) as (H1 & H2 & _ & _ & H5).
  auto.
Qed.

Lemma applicableThreshold_le (item : Node) (e : DownEvent) (s : State) :
  closest dataDraggable (d_path e) = Some item ->
  applicableThreshold (d_pointerType e) (scrollableAt e)
  <= dragThreshold (gestureOf item e s).
Proof.
  intros H. unfold scrollableAt. rewrite H.
  unfold dragThreshold, gestureOf, applicableThreshold. simpl.
  destruct (d_pointerType e), (d_ontouchstart e),
    (containerScrollable item e); simpl; lia.
Qed.

Lemma handlePointerDown_cases (e : DownEvent) (s : State) :
  handlePointerDown e s = s
  \/ exists item, closest dataDraggable (d_path e) = Some item
                  /\ handlePointerDown e s = armGesture item e s.
Proof.
  unfold handlePointerDown.
  repeat match goal with
         | |- context [if ?c then _ else _] => destruct c; [now left|]
         end.
  destruct (closest dataDraggable (d_path e)) as [item|]; [|now left].
  right. now exists item.
Qed.

(** A move below the closure's threshold leaves the gesture pending or
    gives it up; the time of the move plays no part. *)
Lemma handleMove_below (g : Gesture) (m : MoveEvent) (t : State)
    (pd : PendingDrag) :
  pendingDrag (ctl t) = Some pd ->
  moveDistance m pd < dragThreshold g ->
  handleMove g m t = t \/ handleMove g m t = abandon g t.
Proof.
  intros Hp Hlt. unfold handleMove. rewrite Hp. cbv zeta.
  apply Z.ltb_lt in Hlt. rewrite Hlt. simpl.
  destruct (g_isTouch g && g_isScrollable g); [|now left].
  destruct (2 * moveDistanceY m pd >? 3 * moveDistanceX m pd); auto.
Qed.

(** The result of [handleMove] does not depend on the time of the move. *)
Lemma handleMove_time_irrelevant (g : Gesture) (m m' : MoveEvent)
    (t : State) :
  m_clientX m = m_clientX m' -> m_clientY m = m_clientY m' ->
  handleMove g m t = handleMove g m' t.
Proof.
  intros Hx Hy. unfold handleMove.
  destruct (pendingDrag (ctl t)) as [pd|]; [|reflexivity].
  unfold moveDistance, moveDistanceX, moveDistanceY. rewrite Hx, Hy.
  cbv zeta.
  set (d := Z.max (Z.abs (m_clientY m' - p_startY pd))
                  (Z.abs (m_clientX m' - p_startX pd))).
  destruct (d <? dragThreshold g) eqn:E; simpl; [reflexivity|].
  assert (E' : (10 * d <? 7 * dragThreshold g) = false).
  { apply Z.ltb_ge in E. apply Z.ltb_ge.
    assert (0 < dragThreshold g)
      by (unfold dragThreshold;
          destruct (g_isTouch g), (g_isScrollable g); lia).
    lia. }
  rewrite E'. reflexivity.
Qed.

Lemma runMoveListener_stillPending (g : Gesture) (pd : PendingDrag)
    (m : MoveEvent) (l : MoveListener) (s0 t : State) :
  moveDistance m pd < dragThreshold g ->
  stillPending g pd s0 t -> stillPending g pd s0 (runMoveListener m t l).
Proof.
  intros Hlt H. unfold runMoveListener.
  destruct (existsb (moveL_eqb l) (moveListeners (doc t))) eqn:Hreg;
    [|exact H].
  apply existsb_moveL in Hreg.
  destruct H as (Hd & Hl & Hg & Hp).
  destruct l as [h|].
  - rewrite (Hg h Hreg).
    destruct Hp as [Hp|Hp].
    + unfold handleMove. rewrite Hp. unfold stillPending. auto.
    + destruct (handleMove_below g m t pd Hp Hlt) as [E|E]; rewrite E.
      * unfold stillPending. auto.
      * unfold stillPending, abandon. cbn. repeat split; auto.
        intros k Hk. apply removeMoveListener_In in Hk. apply Hg, Hk.
  - unfold handlePointerMove. rewrite Hd. unfold stillPending. auto.
Qed.

Lemma run_moves_stillPending (g : Gesture) (pd : PendingDrag)
    (moves : list MoveEvent) (s0 t : State) :
  Forall (fun m => moveDistance m pd < dragThreshold g) moves ->
  stillPending g pd s0 t ->
  stillPending g pd s0 (run (map PointerMove moves) t).
Proof.
  intros Hall. revert t.
  induction Hall as [|m moves Hm Hall IH]; intros t H; simpl; [exact H|].
  apply IH. unfold dispatchMove.
  generalize (moveListeners (doc t)). intros ls. revert t H.
  induction ls as [|l ls IHl]; intros t H; simpl; [exact H|].
  apply IHl. now apply runMoveListener_stillPending.
Qed.

(** With no gesture closure registered and no session, pointermove does
    nothing at all. *)
Lemma run_moves_no_closure (moves : list MoveEvent) (t : State) :
  isDragging (ctl t) = false ->
  (forall h, ~ In (LHandleMove h) (moveListeners (doc t))) ->
  run (map PointerMove moves) t = t.
Proof.
  intros Hd Hno. induction moves as [|m moves IH]; simpl; [reflexivity|].
  assert (E : dispatchMove m t = t).
  { unfold dispatchMove.
    assert (G : forall ls, fold_left (runMoveListener m) ls t = t).
    { induction ls as [|l ls IHl]; simpl; [reflexivity|].
      assert (E1 : runMoveListener m t l = t).
      { unfold runMoveListener.
        destruct (existsb (moveL_eqb l) (moveListeners (doc t))) eqn:Hreg;
          [|reflexivity].
        apply existsb_moveL in Hreg. destruct l as [h|].
        - exfalso. exact (Hno h Hreg).
        - unfold handlePointerMove. now rewrite Hd. }
      now rewrite E1. }
    apply G. }
  now rewrite E.
Qed.

(** A pointer-down arriving while no earlier gesture's closure is
    registered, followed only by moves whose distance from the down point
    stays strictly below the applicable threshold (8 px for mouse and pen,
    20 px for touch on a container that does not scroll, 30 px for touch on
    one that does) and then by pointer-up: no drag session starts at any
    point and [onDrop] is never called.  The statement covers every prefix
    of the moves, and the time of a move never enters the decision. *)
Lemma below_threshold_no_drag_fresh
    (s0 : State) (e : DownEvent) (moves : list MoveEvent)
    (Hidle : isDragging (ctl s0) = false)
    (Hfresh : forall h, ~ In (LHandleMove h) (moveListeners (doc s0)))
    (Hbelow : Forall (fun m => distanceFromDown e m
                               < applicableThreshold (d_pointerType e)
                                   (scrollableAt e)) moves) :
  let s1 := run (PointerDown e :: map PointerMove moves) s0 in
  isDragging (ctl s1) = false
  /\ dropLog s1 = dropLog s0
  /\ isDragging (ctl (step s1 PointerUp)) = false
  /\ dropLog (step s1 PointerUp) = dropLog s0
  /\ (forall g m m' t,
        m_clientX m = m_clientX m' -> m_clientY m = m_clientY m' ->
        handleMove g m t = handleMove g m' t).
Proof.
  intros s1.
  assert (H1 : isDragging (ctl s1) = false /\ dropLog s1 = dropLog s0).
  { subst s1. simpl run.
    destruct (handlePointerDown_cases e s0) as [E|[item [Hitem E]]];
      rewrite E.
    - rewrite (run_moves_no_closure moves s0 Hidle Hfresh). auto.
    - set (g := gestureOf item e s0).
      set (pd := mkPending item (d_clientY e) (d_clientX e)).
      assert (Hall : Forall (fun m => moveDistance m pd < dragThreshold g)
                       moves).
      { eapply Forall_impl; [|exact Hbelow]. intros m Hm.
        pose proof (applicableThreshold_le item e s0 Hitem) as Hle.
        fold g in Hle. unfold distanceFromDown in Hm.
        unfold moveDistance, moveDistanceX, moveDistanceY, pd. simpl. lia. }
      assert (H0 : stillPending g pd s0 (armGesture item e s0)).
      { unfold stillPending, armGesture. cbn. repeat split; auto.
        intros h Hh. apply in_app_or in Hh. destruct Hh as [Hh|Hh].
        - exfalso. exact (Hfresh h Hh).
        - destruct Hh as [Hh|[]]. fold g in Hh. congruence. }
      destruct (run_moves_stillPending g pd moves s0 _ Hall H0)
        as (Hd & Hl & _).
      auto. }
  destruct H1 as (Hd & Hl).
  assert (Hr : released (dropLog s0) (step s1 PointerUp)).
  { simpl. unfold dispatchUp. apply fold_ups_released. split; assumption. }
  destruct Hr as (Hd' & Hl').
  repeat split; try assumption.
  intros g m m' t. apply handleMove_time_irrelevant.
Qed.

(** C5 (what the code does).  A touch gesture is pending, its closure
    [g] registered, and the closure [h] of an earlier gesture, which was
    not a touch on a scrollable container, is still first in line.  A
    move that stays below the threshold of the pending gesture (20 px,
    or 30 px on a container that scrolls) but reaches the one of the
    earlier gesture (8 px for a mouse, 20 px for a touch) does not make
    [g] start a drag, and yet the event as [document] delivers it starts
    one: the threshold applied is the one of the earlier gesture. *)
Theorem C5_below_threshold_starts_drag
    (g h : Gesture) (rest : list MoveListener) (e : MoveEvent) (s : State)
    (pd : PendingDrag)
    (Htouch : g_isTouch g = true)
    (Hidle : isDragging (ctl s) = false)
    (Hpending : pendingDrag (ctl s) = Some pd)
    (Hchild : indexOf (p_item pd) (getDraggableItems s) <> -1)
    (Hstale : moveListeners (doc s) = LHandleMove h :: rest)
    (Hreg : In (LHandleMove g) rest)
    (Hplain : g_isTouch h = false \/ g_isScrollable h = false)
    (Hbelow : Z.max (Z.abs (m_clientY e - p_startY pd))
                (Z.abs (m_clientX e - p_startX pd))
              < (if g_isScrollable g then 30 else 20))
    (Hfar : (if g_isTouch h then 20 else 8)
            <= Z.max (Z.abs (m_clientY e - p_startY pd))
                 (Z.abs (m_clientX e - p_startX pd))) :
  isDragging (ctl (handleMove g e s)) = false
  /\ isDragging (ctl (step s (PointerMove e))) = true
  /\ draggedElement (ctl (step s (PointerMove e))) = Some (p_item pd)
  /\ In LHandlePointerUp (upListeners (doc (step s (PointerMove e)))).
Proof.
  split.
  { unfold handleMove. rewrite Hpending, Htouch.
    unfold dragThreshold. rewrite Htouch.
    unfold moveDistance, moveDistanceY, moveDistanceX.
    apply Z.ltb_lt in Hbelow.
    destruct (g_isScrollable g); cbn [andb].
    - destruct (2 * Z.abs (m_clientY e - p_startY pd)
                >? 3 * Z.abs (m_clientX e - p_startX pd)).
      + unfold abandon. cbn. exact Hidle.
      + rewrite Hbelow. cbn [orb]. exact Hidle.
    - rewrite Hbelow. exact Hidle. }
  destruct (stale_closure_promotes h rest e s pd Hidle Hpending Hchild
              Hstale Hplain Hfar) as (H1 & H2 & _ & _ & H5).
  auto.
Qed.

(** ** Moving nodes inside the child list *)

Lemma nextSibling_In (x r : Node) (l : list Node) :
  nextSibling x l = Some r -> In r l.
Proof.
  induction l as [|n t IH]; simpl; [discriminate|].
  destruct (node_eqb n x).
  - destruct t; simpl; [discriminate|]. intros [= ->]. auto.
  - auto.
Qed.

Lemma removeNode_cons_same (x : Node) (t : list Node) :
  removeNode x (x :: t) = removeNode x t.
Proof. unfold removeNode. simpl. now rewrite node_eqb_refl. Qed.

Lemma removeNode_cons_other (x n : Node) (t : list Node) :
  n <> x -> removeNode x (n :: t) = n :: removeNode x t.
Proof.
  intros H. unfold removeNode. simpl.
  apply node_eqb_neq in H. now rewrite H.
Qed.

Lemma NoDup_removeNode (x : Node) (l : list Node) :
  NoDup l -> NoDup (removeNode x l).
Proof. apply NoDup_filter. Qed.

Lemma insertAt_In (y x r : Node) (l : list Node) :
  In y (insertAt x r l) <-> y = x \/ In y l.
Proof.
  induction l as [|n t IH]; simpl.
  - intuition congruence.
  - destruct (node_eqb n r); simpl; [intuition congruence|].
    rewrite IH. intuition congruence.
Qed.

Lemma NoDup_insertAt (x r : Node) (l : list Node) :
  NoDup l -> ~ In x l -> NoDup (insertAt x r l).
Proof.
  induction l as [|n t IH]; simpl; intros Hnd Hx.
  - constructor; [tauto | constructor].
  - destruct (node_eqb n r).
    + constructor; [simpl; tauto | assumption].
    + inversion Hnd; subst. constructor.
      * rewrite insertAt_In. intros [->|H]; tauto.
      * apply IH; tauto.
Qed.

Lemma domInsertBefore_In (y x : Node) (ref : option Node) (l : list Node) :
  In y (domInsertBefore x ref l) <-> y = x \/ In y l.
Proof.
  unfold domInsertBefore.
  destruct (match ref with
            | Some r => if node_eqb r x then nextSibling x l else Some r
            | None => None
            end) as [r|].
  - rewrite insertAt_In, removeNode_In.
    destruct (node_eq_dec y x); tauto.
  - rewrite in_app_iff, removeNode_In. simpl.
    destruct (node_eq_dec y x); intuition congruence.
Qed.

Lemma NoDup_domInsertBefore (x : Node) (ref : option Node) (l : list Node) :
  NoDup l -> NoDup (domInsertBefore x ref l).
Proof.
  intros H. unfold domInsertBefore.
  destruct (match ref with
            | Some r => if node_eqb r x then nextSibling x l else Some r
            | None => None
            end) as [r|].
  - apply NoDup_insertAt; [now apply NoDup_removeNode|].
    apply removeNode_not_In.
  - apply NoDup_app; [now apply NoDup_removeNode | repeat constructor; auto|].
    intros y Hy [<-|[]]. exact (removeNode_not_In _ _ Hy).
Qed.

(** Inserting a child before itself leaves the list as it is. *)
Lemma domInsertBefore_self (x : Node) (l : list Node) :
  NoDup l -> In x l -> domInsertBefore x (Some x) l = l.
Proof.
  unfold domInsertBefore. rewrite node_eqb_refl.
  induction l as [|n t IH]; [simpl; tauto|].
  intros Hnd Hin. inversion Hnd as [|? ? Hn Ht]; subst.
  simpl nextSibling.
  destruct (node_eq_dec n x) as [->|E].
  - rewrite node_eqb_refl, removeNode_cons_same,
      (removeNode_absent x t Hn).
    destruct t as [|r t']; simpl; [reflexivity|].
    now rewrite node_eqb_refl.
  - rewrite (proj2 (node_eqb_neq n x) E).
    destruct Hin as [Hin|Hin]; [congruence|].
    specialize (IH Ht Hin).
    rewrite (removeNode_cons_other x n t E).
    destruct (nextSibling x t) as [r|] eqn:Er.
    + assert (H : n <> r).
      { intros ->. apply Hn. eapply nextSibling_In; eassumption. }
      apply node_eqb_neq in H. simpl insertAt. rewrite H. now rewrite IH.
    + simpl app. now rewrite IH.
Qed.

Lemma insertAt_spliceBefore (x h : Node) (l : list Node) :
  insertAt x h l = spliceBefore [x] h l.
Proof.
  induction l as [|n t IH]; simpl; [reflexivity|].
  destruct (node_eqb n h); [reflexivity | now rewrite IH].
Qed.

(** Inserting before another child [h]. *)
Lemma domInsertBefore_before (x h : Node) (l : list Node) :
  x <> h ->
  domInsertBefore x (Some h) l = spliceBefore [x] h (removeNode x l).
Proof.
  intros H. unfold domInsertBefore.
  assert (E : node_eqb h x = false) by (apply node_eqb_neq; congruence).
  rewrite E. apply insertAt_spliceBefore.
Qed.

Lemma domInsertBefore_cons_other (x n : Node) (ref : option Node)
    (t : list Node) :
  n <> x -> ~ In n t ->
  (forall r, ref = Some r -> In r t) ->
  domInsertBefore x ref (n :: t) = n :: domInsertBefore x ref t.
Proof.
  intros Hnx Hn Href. unfold domInsertBefore.
  simpl nextSibling.
  assert (E : node_eqb n x = false) by now apply node_eqb_neq.
  rewrite E, (removeNode_cons_other x n t Hnx).
  set (ref' := match ref with
               | Some r => if node_eqb r x then nextSibling x t else Some r
               | None => None
               end).
  assert (Hr : forall r, ref' = Some r -> In r t).
  { subst ref'. destruct ref as [r0|]; [|discriminate].
    destruct (node_eqb r0 x).
    - intros r. apply nextSibling_In.
    - intros r [= <-]. now apply Href. }
  destruct ref' as [r|]; simpl; [|reflexivity].
  assert (n <> r) by (intros ->; apply Hn, Hr; reflexivity).
  apply node_eqb_neq in H. now rewrite H.
Qed.

Lemma domInsertBefore_cons_self (x : Node) (ref : option Node)
    (t : list Node) :
  ~ In x t -> (forall r, ref = Some r -> In r t) ->
  domInsertBefore x ref (x :: t) = domInsertBefore x ref t.
Proof.
  intros Hx Href. unfold domInsertBefore.
  rewrite removeNode_cons_same.
  destruct ref as [r|]; [|reflexivity].
  assert (r <> x) by (intros ->; apply Hx, Href; reflexivity).
  apply node_eqb_neq in H. now rewrite H.
Qed.

(** Inserting before the next sibling of [h] (appending when there is
    none) puts the node right after [h]. *)
Lemma domInsertBefore_after (x h : Node) (l : list Node) :
  NoDup l -> In h l -> x <> h ->
  domInsertBefore x (nextSibling h l) l
  = spliceAfter [x] h (removeNode x l).
Proof.
  intros Hnd Hin Hxh. induction l as [|n t IH]; [contradiction|].
  inversion Hnd as [|? ? Hn Ht]; subst.
  destruct (node_eq_dec n h) as [->|Hnh].
  - simpl nextSibling. rewrite node_eqb_refl.
    rewrite (removeNode_cons_other x h t) by congruence.
    simpl spliceAfter. rewrite node_eqb_refl. simpl app.
    destruct t as [|r t'].
    { unfold domInsertBefore. simpl hd_error.
      now rewrite (removeNode_cons_other x h []) by congruence. }
    simpl hd_error.
    destruct (node_eq_dec r x) as [->|Hrx].
    + rewrite domInsertBefore_cons_other;
        [|congruence|assumption|intros ? [= <-]; now left].
      f_equal. inversion Ht; subst.
      rewrite domInsertBefore_self; [|assumption|now left].
      now rewrite removeNode_cons_same, removeNode_absent.
    + unfold domInsertBefore.
      assert (E : node_eqb r x = false) by now apply node_eqb_neq.
      rewrite E.
      rewrite (removeNode_cons_other x h) by congruence.
      rewrite (removeNode_cons_other x r) by congruence.
      simpl. assert (h <> r) by (intros ->; apply Hn; now left).
      apply node_eqb_neq in H. rewrite H, node_eqb_refl. reflexivity.
  - destruct Hin as [Hin|Hin]; [congruence|].
    simpl nextSibling.
    assert (E : node_eqb n h = false) by now apply node_eqb_neq.
    rewrite E.
    destruct (node_eq_dec n x) as [->|Hnx].
    + rewrite removeNode_cons_same.
      rewrite domInsertBefore_cons_self;
        [now apply IH | assumption | intros r; apply nextSibling_In].
    + rewrite (removeNode_cons_other x n t Hnx). simpl spliceAfter.
      rewrite E.
      rewrite domInsertBefore_cons_other;
        [f_equal; now apply IH | assumption | assumption
        | intros r; apply nextSibling_In].
Qed.

Lemma removeNode_spliceBefore (p d h : Node) (l : list Node) :
  p <> d -> p <> h ->
  removeNode p (spliceBefore [d] h l) = spliceBefore [d] h (removeNode p l).
Proof.
  intros Hpd Hph. induction l as [|n t IH].
  - change (removeNode p [d] = [d]).
    now rewrite removeNode_cons_other by congruence.
  - cbn [spliceBefore]. destruct (node_eqb n h) eqn:E.
    + apply node_eqb_eq in E. subst n. cbn [app].
      rewrite !(removeNode_cons_other p) by congruence.
      cbn [spliceBefore app]. now rewrite node_eqb_refl.
    + destruct (node_eq_dec n p) as [->|Hnp].
      * now rewrite !removeNode_cons_same.
      * rewrite !(removeNode_cons_other p n) by assumption.
        cbn [spliceBefore]. now rewrite E, IH.
Qed.

Lemma removeNode_spliceAfter (p d h : Node) (l : list Node) :
  p <> d -> p <> h ->
  removeNode p (spliceAfter [d] h l) = spliceAfter [d] h (removeNode p l).
Proof.
  intros Hpd Hph. induction l as [|n t IH]; [reflexivity|].
  cbn [spliceAfter]. destruct (node_eqb n h) eqn:E.
  - apply node_eqb_eq in E. subst n. cbn [app].
    rewrite !(removeNode_cons_other p) by congruence.
    cbn [spliceAfter app]. now rewrite node_eqb_refl.
  - destruct (node_eq_dec n p) as [->|Hnp].
    + now rewrite !removeNode_cons_same.
    + rewrite !(removeNode_cons_other p n) by assumption.
      cbn [spliceAfter]. now rewrite E, IH.
Qed.

Lemma spliceAfter_spliceBefore (p d h : Node) (l : list Node) :
  ~ In d l -> d <> h ->
  spliceAfter [p] d (spliceBefore [d] h l) = spliceBefore [d; p] h l.
Proof.
  intros Hd Hdh. induction l as [|n t IH]; simpl.
  - now rewrite node_eqb_refl.
  - destruct (node_eqb n h) eqn:E; simpl.
    + now rewrite node_eqb_refl.
    + assert (Hn : node_eqb n d = false)
        by (apply node_eqb_neq; intros ->; apply Hd; now left).
      rewrite Hn. f_equal. apply IH. intros H. apply Hd. now right.
Qed.

Lemma spliceAfter_spliceAfter (p d h : Node) (l : list Node) :
  ~ In d l -> d <> h ->
  spliceAfter [p] d (spliceAfter [d] h l) = spliceAfter [d; p] h l.
Proof.
  intros Hd Hdh. induction l as [|n t IH]; simpl; [reflexivity|].
  destruct (node_eqb n h) eqn:E; simpl.
  - apply node_eqb_eq in E. subst n.
    assert (Hn : node_eqb h d = false)
      by (apply node_eqb_neq; congruence).
    now rewrite Hn, node_eqb_refl.
  - assert (Hn : node_eqb n d = false)
      by (apply node_eqb_neq; intros ->; apply Hd; now left).
    rewrite Hn. f_equal. apply IH. intros H. apply Hd. now right.
Qed.

Lemma nextSibling_spliceAfter (x d : Node) (xs l : list Node) :
  In d l -> nextSibling d (spliceAfter (x :: xs) d l) = Some x.
Proof.
  induction l as [|n t IH]; simpl; [tauto|].
  intros Hin. destruct (node_eqb n d) eqn:E; simpl; rewrite E.
  - reflexivity.
  - apply node_eqb_neq in E. destruct Hin as [Hin|Hin]; [congruence|].
    now apply IH.
Qed.

(** The two DOM moves of the hovered branch, on the child list: the
    dragged node [d] goes before [h] or after it, and the placeholder [p]
    follows [d]. *)
Lemma hover_moves (d p h : Node) (l : list Node) (before : bool) :
  NoDup l -> In h l -> d <> h -> p <> d -> p <> h ->
  let ref := if before then Some h else nextSibling h l in
  let mid := domInsertBefore d ref l in
  let base := removeNode p (removeNode d l) in
  domInsertBefore p (nextSibling d mid) mid
  = (if before then spliceBefore [d; p] h base
     else spliceAfter [d; p] h base)
  /\ nextSibling d (domInsertBefore p (nextSibling d mid) mid) = Some p.
Proof.
  intros Hnd Hh Hdh Hpd Hph ref mid base.
  assert (Hmid : mid = if before
                       then spliceBefore [d] h (removeNode d l)
                       else spliceAfter [d] h (removeNode d l)).
  { subst mid ref. destruct before.
    - now apply domInsertBefore_before.
    - now apply domInsertBefore_after. }
  assert (Hndm : NoDup mid) by now apply NoDup_domInsertBefore.
  assert (Hdm : In d mid) by (apply domInsertBefore_In; now left).
  assert (Hfin : domInsertBefore p (nextSibling d mid) mid
                 = spliceAfter [p] d (removeNode p mid))
    by now apply domInsertBefore_after.
  assert (Hdb : ~ In d base).
  { subst base. rewrite removeNode_In. intros [H _].
    exact (removeNode_not_In _ _ H). }
  split.
  - rewrite Hfin, Hmid. destruct before.
    + rewrite removeNode_spliceBefore by assumption.
      now apply spliceAfter_spliceBefore.
    + rewrite removeNode_spliceAfter by assumption.
      now apply spliceAfter_spliceAfter.
  - rewrite Hfin. apply nextSibling_spliceAfter.
    apply removeNode_In. split; [assumption | congruence].
Qed.

Lemma viaParent_kids (x : Node) (op : list Node -> list Node) (s : State) :
  kids (doc (viaParent x op s))
  = if isChild x (kids (doc s)) then op (kids (doc s)) else kids (doc s).
Proof.
  unfold viaParent. now destruct (isChild x (kids (doc s))).
Qed.

Lemma In_items_kids (x : Node) (s : State) :
  In x (getDraggableItems s) -> In x (kids (doc s)).
Proof. unfold getDraggableItems. rewrite filter_In. tauto. Qed.

Lemma indexOf_items_kids (x : Node) (s : State) :
  indexOf x (getDraggableItems s) <> -1 -> In x (kids (doc s)).
Proof.
  intros H. apply In_items_kids.
  destruct (in_dec node_eq_dec x (getDraggableItems s)) as [Hin|Hin];
    [exact Hin|].
  apply indexOf_absent in Hin. contradiction.
Qed.

(** ** Position updates *)

(** C6 (as amended).  A position update whose hit-test finds a
    draggable item [hovered], distinct from the dragged item and the
    placeholder, both items being draggable children at distinct
    indices.  The layout counts as horizontal when [flex-wrap] is not
    [nowrap] or [display] is [flex], and [flex-direction] is [row] or
    [row-reverse]; then the pointer's X is compared with the horizontal
    midpoint of the hovered box, otherwise its Y with the vertical
    midpoint.  The dragged item is inserted before the hovered item on
    the before side, before the hovered item's next sibling on the after
    side, and appended when there is no next sibling ([mid]).  A
    placeholder that is still a child is then put right after the
    dragged item, which changes nothing when it is there already, so the
    two sit, in this order, right before or right after the hovered
    item; a placeholder that is no longer a child stays out. *)
Theorem C6_hovered_item_insertion
    (s : State) (x y : Z) (lay : Layout) (ghost dragged ph hovered : Node)
    (Hg : ghostElement (ctl s) = Some ghost)
    (Hd : draggedElement (ctl s) = Some dragged)
    (Hp : placeholder (ctl s) = Some ph)
    (Hnd : NoDup (kids (doc s)))
    (Hdp : dragged <> ph)
    (Hhit : getElementUnderPoint lay x y = Some hovered)
    (Hhd : hovered <> dragged)
    (Hhp : hovered <> ph)
    (Hhi : indexOf hovered (getDraggableItems s) <> -1)
    (Hdi : indexOf dragged (getDraggableItems s) <> -1)
    (Hidx : indexOf hovered (getDraggableItems s)
            <> indexOf dragged (getDraggableItems s)) :
  let wraps := match flexWrap lay with Nowrap => false | _ => true end in
  let flex := match display lay with DFlex => true | _ => false end in
  let rowwise := match flexDirection lay with
                 | Row | RowReverse => true
                 | _ => false
                 end in
  let horizontal := (wraps || flex) && rowwise in
  let box := rectOf lay hovered in
  let before := if horizontal
                then 2 * x <? 2 * left box + width box
                else 2 * y <? 2 * top box + height box in
  let ref := if before then Some hovered
             else nextSibling hovered (kids (doc s)) in
  let mid := domInsertBefore dragged ref (kids (doc s)) in
  let others := removeNode dragged (kids (doc s)) in
  let base := removeNode ph others in
  let s' := updateDragPosition x y lay s in
  mid = (if before then spliceBefore [dragged] hovered others
         else spliceAfter [dragged] hovered others)
  /\ (ref = None -> mid = others ++ [dragged])
  /\ (In ph (kids (doc s)) ->
      kids (doc s') = domInsertBefore ph (nextSibling dragged mid) mid
      /\ (nextSibling dragged mid = Some ph -> kids (doc s') = mid)
      /\ kids (doc s') = (if before
                          then spliceBefore [dragged; ph] hovered base
                          else spliceAfter [dragged; ph] hovered base)
      /\ nextSibling dragged (kids (doc s')) = Some ph)
  /\ (~ In ph (kids (doc s)) ->
      kids (doc s') = mid /\ ~ In ph (kids (doc s'))).
Proof.
  intros wraps flex rowwise horizontal box before ref mid others base s'.
  assert (Hhor : isFlexWrapOf lay && isHorizontalOf lay = horizontal).
  { unfold isFlexWrapOf, isHorizontalOf, horizontal, wraps, flex, rowwise.
    destruct (flexWrap lay), (display lay), (flexDirection lay);
      reflexivity. }
  assert (Hhk : In hovered (kids (doc s)))
    by now apply indexOf_items_kids.
  assert (Hdk : In dragged (kids (doc s)))
    by now apply indexOf_items_kids.
  assert (Hndm : NoDup mid) by now apply NoDup_domInsertBefore.
  assert (Hdm : In dragged mid) by (apply domInsertBefore_In; now left).
  (* the state after the dragged element has been moved *)
  set (s1 := upd_ctl (set_isHorizontalLayout horizontal) s).
  set (t := match ref with
            | Some r =>
                if negb (node_eqb r dragged)
                then viaParent dragged (domInsertBefore dragged (Some r)) s1
                else s1
            | None => viaParent dragged (domAppendChild dragged) s1
            end).
  assert (Ht : kids (doc t) = mid).
  { subst t mid. destruct ref as [r|].
    - destruct (node_eqb r dragged) eqn:E; simpl negb; cbv iota.
      + apply node_eqb_eq in E. subst r.
        now rewrite domInsertBefore_self.
      + rewrite viaParent_kids.
        change (kids (doc s1)) with (kids (doc s)).
        now rewrite (proj2 (isChild_In _ _) Hdk).
    - rewrite viaParent_kids.
      change (kids (doc s1)) with (kids (doc s)).
      now rewrite (proj2 (isChild_In _ _) Hdk). }
  assert (Hs' : s' = if isChild ph (kids (doc t))
                        && negb (opt_node_eqb
                                   (nextSibling dragged (kids (doc t)))
                                   (Some ph))
                     then followDragged dragged ph t
                     else t).
  { subst s'. unfold updateDragPosition. rewrite Hg, Hd, Hp, Hhit.
    rewrite Hhor. fold s1.
    rewrite (proj2 (node_eqb_neq _ _) Hhd), (proj2 (node_eqb_neq _ _) Hhp).
    change (getDraggableItems s1) with (getDraggableItems s).
    apply Z.eqb_neq in Hhi, Hdi, Hidx. rewrite Hhi, Hdi, Hidx.
    reflexivity. }
  assert (Hmid : mid = (if before then spliceBefore [dragged] hovered others
                        else spliceAfter [dragged] hovered others)).
  { subst mid ref others. destruct before.
    - apply domInsertBefore_before. congruence.
    - apply domInsertBefore_after; [exact Hnd | exact Hhk | congruence]. }
  split; [exact Hmid|]. split.
  { intros Hnone. subst mid. rewrite Hnone. reflexivity. }
  split.
  - intros Hattached.
    assert (Hpm : In ph mid) by (apply domInsertBefore_In; now right).
    assert (Hk : kids (doc s')
                 = domInsertBefore ph (nextSibling dragged mid) mid).
    { rewrite Hs', Ht, (proj2 (isChild_In _ _) Hpm).
      destruct (nextSibling dragged mid) as [r|] eqn:Er.
      - simpl opt_node_eqb. destruct (node_eqb r ph) eqn:E; simpl.
        + apply node_eqb_eq in E. subst r.
          now rewrite domInsertBefore_self.
        + unfold followDragged. rewrite viaParent_kids, Ht.
          now rewrite (proj2 (isChild_In _ _) Hdm), Er.
      - simpl. unfold followDragged. rewrite viaParent_kids, Ht.
        now rewrite (proj2 (isChild_In _ _) Hdm), Er. }
    destruct (hover_moves dragged ph hovered (kids (doc s)) before
                Hnd Hhk) as (Hshape & Hnext); try congruence.
    fold ref in Hshape, Hnext. fold mid in Hshape, Hnext.
    fold others in Hshape. fold base in Hshape.
    split; [exact Hk|]. split.
    { intros Hthere. rewrite Hk, Hthere. now apply domInsertBefore_self. }
    split; now rewrite Hk.
  - intros Hout.
    assert (Hpm : ~ In ph mid).
    { intros H. apply domInsertBefore_In in H.
      destruct H as [H|H]; [congruence | contradiction]. }
    assert (Hk : kids (doc s') = mid).
    { rewrite Hs', Ht, (proj2 (isChild_not_In _ _) Hpm). exact Ht. }
    split; [exact Hk | now rewrite Hk].
Qed.

(** C6, the claim as it was written: it fails when a re-render has taken
    the placeholder out.  The hit-test finds item C, which like the
    dragged item B is a draggable child, at another index; B is moved
    behind C, and the placeholder does not follow it. *)
Lemma C6_counterexample :
  placeholder (ctl detachedB) = Some placeholderB
  /\ draggedElement (ctl detachedB) = Some itemB
  /\ getElementUnderPoint (stacked [itemC]) 10 340 = Some itemC
  /\ getDraggableItems detachedB = [itemA; itemB; itemC]
  /\ kids (doc (updateDragPosition 10 340 (stacked [itemC]) detachedB))
     = [itemA; itemC; itemB]
  /\ nextSibling itemB
       (kids (doc (updateDragPosition 10 340 (stacked [itemC]) detachedB)))
     = None.
Proof. repeat split; reflexivity. Qed.

Lemma filter_removeNode (P : Node -> bool) (x : Node) (l : list Node) :
  filter P (removeNode x l) = removeNode x (filter P l).
Proof.
  unfold removeNode. induction l as [|n t IH]; simpl; [reflexivity|].
  destruct (negb (node_eqb n x)) eqn:E, (P n) eqn:F; simpl;
    rewrite ?E, ?F, IH; reflexivity.
Qed.

Lemma filter_removeNode_skip (P : Node -> bool) (x : Node) (l : list Node) :
  P x = false -> filter P (removeNode x l) = filter P l.
Proof.
  intros Hx. rewrite filter_removeNode. apply removeNode_absent.
  rewrite filter_In. intros [_ H]. congruence.
Qed.

Lemma filter_insertAt_skip (P : Node -> bool) (x r : Node) (l : list Node) :
  P x = false -> filter P (insertAt x r l) = filter P l.
Proof.
  intros Hx. induction l as [|n t IH]; simpl.
  - now rewrite Hx.
  - destruct (node_eqb n r); simpl.
    + now rewrite Hx.
    + now rewrite IH.
Qed.

(** Moving a node that is not a draggable child leaves the draggable
    order alone. *)
Lemma filter_domInsertBefore_skip (P : Node -> bool) (x : Node)
    (ref : option Node) (l : list Node) :
  P x = false -> filter P (domInsertBefore x ref l) = filter P l.
Proof.
  intros Hx. unfold domInsertBefore.
  destruct (match ref with
            | Some r => if node_eqb r x then nextSibling x l else Some r
            | None => None
            end) as [r|].
  - now rewrite filter_insertAt_skip, filter_removeNode_skip.
  - rewrite filter_app, filter_removeNode_skip by assumption.
    simpl. rewrite Hx. apply app_nil_r.
Qed.

Lemma filter_spliceBefore_front (P : Node -> bool) (d f : Node)
    (l : list Node) :
  hd_error (filter P l) = Some f -> P d = true ->
  filter P (spliceBefore [d] f l) = d :: filter P l.
Proof.
  intros Hf Hd. induction l as [|n t IH]; [discriminate|].
  cbn [spliceBefore]. destruct (node_eqb n f) eqn:E.
  - cbn [app filter]. now rewrite Hd.
  - cbn [filter] in *. destruct (P n).
    + simpl in Hf. injection Hf as ->. now rewrite node_eqb_refl in E.
    + now apply IH.
Qed.

Lemma last_cons_default (n d : Node) (t : list Node) :
  last (n :: t) d = last t n.
Proof.
  revert n d. induction t as [|m t' IH]; intros n d; [reflexivity|].
  change (last (n :: m :: t') d) with (last (m :: t') d).
  now rewrite (IH m d), (IH m n).
Qed.

Lemma last_In (first : Node) (rest : list Node) :
  In (last rest first) (first :: rest).
Proof.
  revert first. induction rest as [|n t IH]; intros first.
  - now left.
  - right. rewrite last_cons_default. apply IH.
Qed.

(** After [followDragged] the placeholder is the next sibling. *)
Lemma placeholder_follows (d p : Node) (l : list Node) :
  NoDup l -> In d l -> p <> d ->
  nextSibling d (domInsertBefore p (nextSibling d l) l) = Some p.
Proof.
  intros Hnd Hd Hpd. rewrite domInsertBefore_after by assumption.
  apply nextSibling_spliceAfter. apply removeNode_In.
  split; [assumption | congruence].
Qed.

Lemma followDragged_kids (d p : Node) (t : State) :
  In d (kids (doc t)) ->
  kids (doc (followDragged d p t))
  = domInsertBefore p (nextSibling d (kids (doc t))) (kids (doc t)).
Proof.
  intros H. unfold followDragged. rewrite viaParent_kids.
  now rewrite (proj2 (isChild_In _ _) H).
Qed.

Lemma indexOf_last (d : Node) (l : list Node) :
  ~ In d l -> indexOf d (l ++ [d]) = Z.of_nat (List.length l).
Proof.
  induction l as [|n t IH]; intros Hd.
  - simpl. now rewrite node_eqb_refl.
  - cbn [app indexOf List.length].
    assert (E : node_eqb n d = false)
      by (apply node_eqb_neq; intros ->; apply Hd; now left).
    rewrite E, IH by (intros H; apply Hd; now right).
    destruct (Z.of_nat (List.length t) =? -1) eqn:E1;
      [apply Z.eqb_eq in E1|]; lia.
Qed.

Lemma NoDup_items (s : State) :
  NoDup (kids (doc s)) -> NoDup (getDraggableItems s).
Proof. apply NoDup_filter. Qed.

(** The dragged element taken to the front of the draggable order. *)
Lemma toFront_items (d p firstItem : Node) (rest : list Node) (t : State) :
  NoDup (kids (doc t)) ->
  draggableChild d = true -> draggableChild p = false ->
  getDraggableItems t = firstItem :: rest ->
  let t' := followDragged d p
              (viaParent firstItem (domInsertBefore d (Some firstItem)) t) in
  getDraggableItems t' = d :: removeNode d (getDraggableItems t)
  /\ nextSibling d (kids (doc t')) = Some p.
Proof.
  intros Hnd Hd Hp Hitems t'.
  assert (Hpd : p <> d) by (intros ->; congruence).
  assert (Hfk : In firstItem (kids (doc t))).
  { apply In_items_kids. rewrite Hitems. now left. }
  set (k1 := domInsertBefore d (Some firstItem) (kids (doc t))).
  assert (Hk1 : kids (doc (viaParent firstItem
                             (domInsertBefore d (Some firstItem)) t)) = k1).
  { rewrite viaParent_kids. now rewrite (proj2 (isChild_In _ _) Hfk). }
  assert (Hdk1 : In d k1) by (apply domInsertBefore_In; now left).
  assert (Hndk1 : NoDup k1) by now apply NoDup_domInsertBefore.
  assert (Hk' : kids (doc t')
                = domInsertBefore p (nextSibling d k1) k1).
  { subst t'. rewrite followDragged_kids; rewrite Hk1; [reflexivity|].
    exact Hdk1. }
  split.
  - unfold getDraggableItems at 1. rewrite Hk'.
    rewrite filter_domInsertBefore_skip by assumption.
    subst k1. destruct (node_eq_dec d firstItem) as [->|Hne].
    + rewrite domInsertBefore_self by assumption.
      fold (getDraggableItems t). rewrite Hitems.
      rewrite removeNode_cons_same, removeNode_absent; [reflexivity|].
      pose proof (NoDup_items t Hnd) as Hni. rewrite Hitems in Hni.
      now inversion Hni.
    + rewrite domInsertBefore_before by assumption.
      rewrite filter_spliceBefore_front;
        [now rewrite filter_removeNode | | assumption].
      rewrite filter_removeNode. fold (getDraggableItems t).
      rewrite Hitems, removeNode_cons_other by congruence. reflexivity.
  - rewrite Hk'. now apply placeholder_follows.
Qed.

(** The dragged element taken to the end of the draggable order. *)
Lemma toEnd_items (d p lastItem : Node) (t : State) :
  NoDup (kids (doc t)) ->
  draggableChild d = true -> draggableChild p = false ->
  In lastItem (getDraggableItems t) ->
  let t' := followDragged d p
              (viaParent lastItem (domAppendChild d) t) in
  getDraggableItems t' = removeNode d (getDraggableItems t) ++ [d]
  /\ nextSibling d (kids (doc t')) = Some p.
Proof.
  intros Hnd Hd Hp Hlast t'.
  assert (Hpd : p <> d) by (intros ->; congruence).
  assert (Hlk : In lastItem (kids (doc t))) by now apply In_items_kids.
  set (k1 := domAppendChild d (kids (doc t))).
  assert (Hk1 : kids (doc (viaParent lastItem (domAppendChild d) t)) = k1).
  { rewrite viaParent_kids. now rewrite (proj2 (isChild_In _ _) Hlk). }
  assert (Hdk1 : In d k1) by (apply domInsertBefore_In; now left).
  assert (Hndk1 : NoDup k1) by now apply NoDup_domInsertBefore.
  assert (Hk' : kids (doc t')
                = domInsertBefore p (nextSibling d k1) k1).
  { subst t'. rewrite followDragged_kids; rewrite Hk1; [reflexivity|].
    exact Hdk1. }
  split.
  - unfold getDraggableItems at 1. rewrite Hk'.
    rewrite filter_domInsertBefore_skip by assumption.
    subst k1. unfold domAppendChild, domInsertBefore.
    rewrite filter_app, filter_removeNode. simpl. now rewrite Hd.
  - rewrite Hk'. now apply placeholder_follows.
Qed.

(** C7.  A position update whose hit-test finds no draggable item, the
    list of draggable children being non-empty.  The layout counts as
    horizontal when [flex-wrap] is not [nowrap] or [display] is [flex],
    and [flex-direction] is [row] or [row-reverse].  The pointer beyond
    the leading edge of the first draggable item (left of its left edge
    in a horizontal layout, above its top edge in a vertical one) takes
    the dragged item to the front of the draggable order; otherwise the
    pointer beyond the trailing edge of the last one (right of its right
    edge [left + width], below its bottom edge [top + height]) takes it
    to the end; otherwise nothing moves.  In both moves the placeholder
    ends up right after the dragged item.  The item at index 1 of 3,
    taken past the trailing edge and released, is reported as
    [(1, 2)]. *)
Theorem C7_edge_of_list
    (s : State) (x y : Z) (lay : Layout) (ghost dragged ph firstItem : Node)
    (rest : list Node)
    (Hg : ghostElement (ctl s) = Some ghost)
    (Hd : draggedElement (ctl s) = Some dragged)
    (Hp : placeholder (ctl s) = Some ph)
    (Hnd : NoDup (kids (doc s)))
    (Hdd : draggableChild dragged = true)
    (Hpd : draggableChild ph = false)
    (Hhit : getElementUnderPoint lay x y = None)
    (Hitems : getDraggableItems s = firstItem :: rest) :
  let items := getDraggableItems s in
  let lastItem := last rest firstItem in
  let wraps := match flexWrap lay with Nowrap => false | _ => true end in
  let flex := match display lay with DFlex => true | _ => false end in
  let rowwise := match flexDirection lay with
                 | Row | RowReverse => true
                 | _ => false
                 end in
  let horizontal := (wraps || flex) && rowwise in
  let firstBox := rectOf lay firstItem in
  let lastBox := rectOf lay lastItem in
  let beyondFirst := if horizontal
                     then x <? left firstBox
                     else y <? top firstBox in
  let beyondLast := if horizontal
                    then x >? left lastBox + width lastBox
                    else y >? top lastBox + height lastBox in
  let s' := updateDragPosition x y lay s in
  (beyondFirst = true ->
     getDraggableItems s' = dragged :: removeNode dragged items
     /\ nextSibling dragged (kids (doc s')) = Some ph)
  /\ (beyondFirst = false -> beyondLast = true ->
        getDraggableItems s' = removeNode dragged items ++ [dragged]
        /\ nextSibling dragged (kids (doc s')) = Some ph)
  /\ (beyondFirst = false -> beyondLast = false ->
        kids (doc s') = kids (doc s))
  /\ (isDragging (ctl s) = true -> draggedIndex (ctl s) = 1 ->
      (exists a c, items = [a; dragged; c]) ->
      beyondFirst = false -> beyondLast = true ->
      dropLog (handlePointerUp s') = dropLog s ++ [(1, 2)]).
Proof.
  intros items lastItem wraps flex rowwise horizontal firstBox lastBox
    beyondFirst beyondLast s'.
  assert (Hhor : isFlexWrapOf lay && isHorizontalOf lay = horizontal).
  { unfold isFlexWrapOf, isHorizontalOf, horizontal, wraps, flex, rowwise.
    destruct (flexWrap lay), (display lay), (flexDirection lay);
      reflexivity. }
  set (s1 := upd_ctl (set_isHorizontalLayout horizontal) s).
  assert (Hs' : s' = if beyondFirst
                     then followDragged dragged ph
                            (viaParent firstItem
                               (domInsertBefore dragged (Some firstItem)) s1)
                     else if beyondLast
                          then followDragged dragged ph
                                 (viaParent lastItem
                                    (domAppendChild dragged) s1)
                          else s1).
  { subst s'. unfold updateDragPosition. rewrite Hg, Hd, Hp, Hhit.
    rewrite Hhor. fold s1.
    change (getDraggableItems s1) with (getDraggableItems s).
    rewrite Hitems. cbv zeta.
    change (isHorizontalLayout (ctl s1)) with horizontal.
    subst beyondFirst beyondLast firstBox lastBox. fold lastItem.
    unfold right, bottom.
    destruct horizontal; reflexivity. }
  assert (Hnd1 : NoDup (kids (doc s1))) by exact Hnd.
  assert (Hit1 : getDraggableItems s1 = firstItem :: rest) by exact Hitems.
  assert (Hlast : In lastItem (getDraggableItems s1)).
  { rewrite Hit1. apply last_In. }
  assert (Hend : beyondFirst = false -> beyondLast = true ->
                 getDraggableItems s' = removeNode dragged items ++ [dragged]
                 /\ nextSibling dragged (kids (doc s')) = Some ph).
  { intros Hf Hl. rewrite Hs', Hf, Hl.
    apply (toEnd_items dragged ph lastItem s1 Hnd1 Hdd Hpd Hlast). }
  repeat split.
  - rewrite Hs', H.
    apply (toFront_items dragged ph firstItem rest s1 Hnd1 Hdd Hpd Hit1).
  - rewrite Hs', H.
    apply (toFront_items dragged ph firstItem rest s1 Hnd1 Hdd Hpd Hit1).
  - now apply Hend.
  - now apply Hend.
  - intros Hf Hl. now rewrite Hs', Hf, Hl.
  - intros Hdrag Hidx (a & c & Habc) Hf Hl.
    destruct (Hend Hf Hl) as (Hitems' & _).
    destruct (updateDragPosition_relayout x y lay s) as (l & h & E).
    fold s' in E.
    assert (Hdrag' : isDragging (ctl s') = true) by (now rewrite E).
    assert (Hd' : draggedElement (ctl s') = Some dragged) by (now rewrite E).
    assert (Hi' : draggedIndex (ctl s') = 1) by (now rewrite E).
    assert (Hl' : dropLog s' = dropLog s) by (now rewrite E).
    rewrite (handlePointerUp_log s' dragged Hdrag' Hd'). cbv zeta.
    rewrite Hi', Hl', Hitems'. f_equal.
    pose proof (NoDup_items s Hnd) as Hni. fold items in Hni.
    rewrite Habc in *.
    assert (Ha : a <> dragged).
    { intros ->. inversion Hni as [|? ? Hn _]. apply Hn. now left. }
    assert (Hc : c <> dragged).
    { intros ->. inversion Hni as [|? ? _ Hn2].
      inversion Hn2 as [|? ? Hn _]. apply Hn. now left. }
    rewrite (removeNode_cons_other dragged a) by assumption.
    rewrite removeNode_cons_same.
    rewrite (removeNode_cons_other dragged c) by assumption.
    change (removeNode dragged []) with (@nil Node).
    rewrite (indexOf_last dragged [a; c]).
    + reflexivity.
    + simpl. intuition congruence.
Qed.

(** ** One session, one ghost, one placeholder *)

Lemma noDupb_NoDup (l : list Node) : noDupb l = true -> NoDup l.
Proof.
  induction l as [|n t IH]; simpl; [constructor|].
  rewrite andb_true_iff, negb_true_iff. intros [Hn Ht].
  constructor; [now apply isChild_not_In | now apply IH].
Qed.

Lemma kidsOk_insert (ph : option Node) (x : Node) (ref : option Node)
    (l : list Node) :
  (dataPlaceholder x = true -> ph = Some x) ->
  kidsOk ph l -> kidsOk ph (domInsertBefore x ref l).
Proof.
  intros Hx [Hnd Hph]. split.
  - now apply NoDup_domInsertBefore.
  - intros n Hn Hf. apply domInsertBefore_In in Hn.
    destruct Hn as [->|Hn]; auto.
Qed.

Lemma kidsOk_remove (p : Node) (l : list Node) :
  kidsOk (Some p) l -> kidsOk None (removeNode p l).
Proof.
  intros [Hnd Hph]. split.
  - now apply NoDup_removeNode.
  - intros n Hn Hf. apply removeNode_In in Hn. destruct Hn as [Hn Hne].
    specialize (Hph n Hn Hf). congruence.
Qed.

Lemma wellFormed_cleanup (s : State) : wellFormed s -> wellFormed (cleanup s).
Proof.
  intros (Hk & Hb & Hi & Hd).
  destruct (cleanup_ctl s) as (C1 & C2 & C3 & C4 & _).
  destruct (cleanup_doc s) as (D1 & D2 & _).
  unfold wellFormed. rewrite C1, C2, C3, C4, D1, D2.
  repeat split; try discriminate.
  - destruct (placeholder (ctl s)) as [p|]; [|apply Hk].
    now apply kidsOk_remove.
  - destruct (placeholder (ctl s)) as [p|].
    + now apply kidsOk_remove.
    + apply Hk.
  - rewrite Hb. destruct (ghostElement (ctl s)) as [g|]; [|reflexivity].
    unfold removeNode. simpl. now rewrite node_eqb_refl.
Qed.

Lemma wellFormed_startDrag (item : Node) (s : State) :
  wellFormed s -> wellFormed (startDrag item s).
Proof.
  intros H. pose proof H as (Hk & Hb & Hi & Hd).
  unfold startDrag. destruct (isDragging (ctl s)) eqn:Hdrag; [exact H|].
  destruct (Hi eq_refl) as (Hg0 & Hp0).
  cbn [ctl upd_ctl draggedIndex set_draggedIndex].
  change (getDraggableItems
            (upd_ctl (set_draggedElement (Some item))
               (upd_ctl (set_isDragging true) s)))
    with (getDraggableItems s).
  destruct (indexOf item (getDraggableItems s) =? -1) eqn:Ei.
  - unfold wellFormed. cbn.
    repeat split; try apply Hk; try assumption; discriminate.
  - apply Z.eqb_neq in Ei. pose proof (indexOf_items_kids item s Ei) as Hin.
    assert (Hplain : dataPlaceholder item = false).
    { destruct (dataPlaceholder item) eqn:F; [|reflexivity].
      destruct Hk as (_ & Hk). specialize (Hk item Hin F). congruence. }
    unfold createGhost, createPlaceholder. cbv zeta.
    set (ph := mkNode (nextId (doc _)) TDiv false false true false).
    match goal with
    | |- context [viaParent item ?op ?t] =>
        assert (E : viaParent item op t
                    = upd_doc (set_kids (op (kids (doc t)))) t)
          by (unfold viaParent;
              change (kids (doc t)) with (kids (doc s));
              now rewrite (proj2 (isChild_In _ _) Hin));
        rewrite E; clear E
    end.
    unfold wellFormed. cbn. rewrite Hb, Hg0.
    repeat split; try discriminate.
    + apply NoDup_domInsertBefore, Hk.
    + intros n Hn Hf. apply domInsertBefore_In in Hn.
      destruct Hn as [->|Hn]; [reflexivity|].
      destruct Hk as (_ & Hk). specialize (Hk n Hn Hf). congruence.
    + intros d [= <-]. exact Hplain.
Qed.

(** [wellFormed] only reads six components of the state. *)
Lemma wellFormed_same (s t : State) :
  placeholder (ctl t) = placeholder (ctl s) ->
  ghostElement (ctl t) = ghostElement (ctl s) ->
  isDragging (ctl t) = isDragging (ctl s) ->
  draggedElement (ctl t) = draggedElement (ctl s) ->
  kids (doc t) = kids (doc s) ->
  bodyKids (doc t) = bodyKids (doc s) ->
  wellFormed s -> wellFormed t.
Proof.
  unfold wellFormed. intros -> -> -> -> -> ->. tauto.
Qed.

Ltac same_frame := apply wellFormed_same; reflexivity.

Lemma wellFormed_handleMove (g : Gesture) (e : MoveEvent) (s : State) :
  wellFormed s -> wellFormed (handleMove g e s).
Proof.
  intros H. unfold handleMove.
  destruct (pendingDrag (ctl s)) as [pd|]; [|exact H].
  assert (Ha : wellFormed (abandon g s)).
  { revert H. unfold abandon. same_frame. }
  assert (Hp : wellFormed (promote g pd s)).
  { unfold promote.
    generalize (wellFormed_startDrag (p_item pd) s H). same_frame. }
  cbv zeta.
  repeat match goal with
         | |- context [if ?c then _ else _] => destruct c
         end; assumption.
Qed.

Lemma wellFormed_handlePointerUp (s : State) :
  wellFormed s -> wellFormed (handlePointerUp s).
Proof.
  intros H. destruct (isDragging (ctl s)) eqn:Hd.
  - rewrite (handlePointerUp_unfold s Hd).
    set (s1 := commitDrop (upd_ctl (set_animationFrameId None) s)).
    assert (H1 : wellFormed s1).
    { destruct (commitDrop_frame (upd_ctl (set_animationFrameId None) s))
        as (Ec & Ed).
      revert H. apply wellFormed_same; subst s1; rewrite ?Ec, ?Ed;
        reflexivity. }
    generalize (wellFormed_cleanup s1 H1). same_frame.
  - now rewrite handlePointerUp_idle.
Qed.

Lemma wellFormed_updateDragPosition (x y : Z) (lay : Layout) (s : State) :
  wellFormed s -> wellFormed (updateDragPosition x y lay s).
Proof.
  intros H. pose proof H as (Hk & Hb & Hi & Hd).
  destruct (updateDragPosition_moves (kidsOk (placeholder (ctl s)))
              x y lay s) as (l & h & E & Hl).
  - intros d p ref k Ed Ep Hkk. split; apply kidsOk_insert; auto.
    + intros F. rewrite (Hd d Ed) in F. discriminate.
  - exact Hk.
  - rewrite E. unfold wellFormed. cbn. auto.
Qed.

Lemma wellFormed_mutate (l : list Node) (s : State) :
  wellFormed s -> wellFormed (mutate l s).
Proof.
  intros H. unfold mutate. destruct (mutationOk l s) eqn:E; [|exact H].
  unfold mutationOk in E. apply andb_true_iff in E. destruct E as [E1 E2].
  destruct H as (Hk & Hb & Hi & Hd).
  unfold wellFormed, kidsOk. cbn. split; [split|].
  - now apply noDupb_NoDup.
  - intros n Hn Hf. rewrite forallb_forall in E2.
    specialize (E2 n Hn). rewrite Hf in E2. simpl in E2.
    apply isChild_In in E2. now apply Hk.
  - split; [exact Hb | split; [exact Hi | exact Hd]].
Qed.

Lemma wellFormed_step (ev : Event) (s : State) :
  wellFormed s -> wellFormed (step s ev).
Proof.
  intros H. destruct ev as [e|e| | |lay|o|l]; simpl.
  - destruct (handlePointerDown_cases e s) as [E|[item [_ E]]];
      rewrite E; [exact H|].
    revert H. unfold armGesture. same_frame.
  - unfold dispatchMove. generalize (moveListeners (doc s)).
    intros ls. revert s H.
    induction ls as [|k ls IH]; intros s H; simpl; [exact H|].
    apply IH. unfold runMoveListener.
    destruct (existsb (moveL_eqb k) (moveListeners (doc s))); [|exact H].
    destruct k.
    + now apply wellFormed_handleMove.
    + unfold handlePointerMove.
      destruct (negb (isDragging (ctl s))); [exact H|].
      destruct (draggedElement (ctl s)) eqn:Ed; [|exact H].
      revert H. apply wellFormed_same; cbn; congruence.
  - unfold dispatchUp. generalize (upListeners (doc s)).
    intros ls. revert s H.
    induction ls as [|k ls IH]; intros s H; simpl; [exact H|].
    apply IH. unfold runUpListener.
    destruct (existsb (upL_eqb k) (upListeners (doc s))); [|exact H].
    destruct k.
    + revert H. unfold handleUp. same_frame.
    + now apply wellFormed_handlePointerUp.
  - unfold dispatchCancel. generalize (cancelListeners (doc s)).
    intros ls. revert s H.
    induction ls as [|k ls IH]; intros s H; simpl; [exact H|].
    apply IH. unfold runCancelListener.
    destruct (existsb (upL_eqb k) (cancelListeners (doc s))); [|exact H].
    destruct k.
    + revert H. unfold handleUp. same_frame.
    + now apply wellFormed_handlePointerUp.
  - unfold runFrame. destruct (animationFrameId (ctl s)) as [[x y]|];
      [|exact H].
    generalize (wellFormed_updateDragPosition x y lay s H). same_frame.
  - unfold update.
    assert (H1 : wellFormed (upd_ctl (set_options o) s))
      by (revert H; same_frame).
    destruct (disabled o && isDragging (ctl (upd_ctl (set_options o) s)));
      [now apply wellFormed_cleanup | exact H1].
  - now apply wellFormed_mutate.
Qed.

Lemma wellFormed_run (evs : list Event) (s : State) :
  wellFormed s -> wellFormed (run evs s).
Proof.
  revert s. induction evs as [|ev evs IH]; intros s H; simpl; [exact H|].
  apply IH. now apply wellFormed_step.
Qed.

Lemma wellFormed_initial (opts : Options) (children : list Node)
    (styles : Node -> ItemStyle) (fresh : nat) :
  NoDup children ->
  (forall n, In n children -> dataPlaceholder n = false) ->
  wellFormed (initial opts children styles fresh).
Proof.
  intros Hnd Hplain. unfold wellFormed, kidsOk. cbn.
  repeat split; try assumption; try discriminate.
  intros n Hn Hf. rewrite (Hplain n Hn) in Hf. discriminate.
Qed.

Lemma kidsOk_at_most_one (ph : option Node) (l : list Node) :
  kidsOk ph l -> (List.length (filter dataPlaceholder l) <= 1)%nat.
Proof.
  intros [Hnd Hph].
  assert (Hf : NoDup (filter dataPlaceholder l)) by now apply NoDup_filter.
  assert (Hall : forall n, In n (filter dataPlaceholder l) -> ph = Some n).
  { intros n Hn. apply filter_In in Hn. now apply Hph. }
  destruct (filter dataPlaceholder l) as [|a [|b r]]; simpl; try lia.
  exfalso. inversion Hf as [|? ? Ha _]. apply Ha.
  assert (Ea : ph = Some a) by (apply Hall; now left).
  assert (Eb : ph = Some b) by (apply Hall; right; now left).
  left. congruence.
Qed.

(** C8.  In every state the controller reaches from its initial state:
    while a session is active a pointer-down, on whatever item, returns
    the state unchanged, so the session in progress stays the only one;
    and at most one ghost is attached to [document.body] and at most one
    placeholder node is among the container's children. *)
Theorem C8_exclusivity
    (opts : Options) (children : list Node) (styles : Node -> ItemStyle)
    (fresh : nat) (evs : list Event)
    (Hnd : NoDup children)
    (Hplain : forall n, In n children -> dataPlaceholder n = false) :
  let s := run evs (initial opts children styles fresh) in
  (forall e, isDragging (ctl s) = true ->
             handlePointerDown e s = s /\ step s (PointerDown e) = s)
  /\ (List.length (bodyKids (doc s)) <= 1)%nat
  /\ (List.length (filter dataPlaceholder (kids (doc s))) <= 1)%nat.
Proof.
  intros s.
  assert (H : wellFormed s).
  { apply wellFormed_run. now apply wellFormed_initial. }
  destruct H as (Hk & Hb & _).
  repeat split.
  - unfold handlePointerDown. rewrite H. now rewrite orb_true_r.
  - simpl. unfold handlePointerDown. rewrite H. now rewrite orb_true_r.
  - rewrite Hb. destruct (ghostElement (ctl s)); simpl; lia.
  - eapply kidsOk_at_most_one. exact Hk.
Qed.

(** ** A list of three items, worked through *)


Lemma C2_witness :
  moveDistance (mkMove 35 210 500) (mkPending itemB 210 10) = 25
  /\ m_now (mkMove 35 210 500) - g_startTime touchGestureB = 500
  /\ isDragging
       (ctl (run [PointerDown touchDownB; PointerMove (mkMove 35 210 500)]
               threeItems)) = false.
Proof.
  split; [reflexivity|]. split; [reflexivity|].
  apply (C2_below_30_never_promotes touchGestureB (mkMove 35 210 500)
           touchPendingB (mkPending itemB 210 10)).
  - reflexivity.
  - reflexivity.
  - reflexivity.
  - vm_compute. reflexivity.
Defined.

Lemma C3_witness :
  isDragging (ctl (update (mkOptions true None) draggingB)) = false
  /\ dropLog (update (mkOptions true None) draggingB) = []
  /\ In LHandlePointerMove
       (moveListeners (doc (update (mkOptions true None) draggingB)))
  /\ In LHandlePointerUp
       (upListeners (doc (update (mkOptions true None) draggingB)))
  /\ In LHandlePointerUp
       (cancelListeners (doc (update (mkOptions true None) draggingB)))
  /\ bodyGrabbing (doc (update (mkOptions true None) draggingB)) = true.
Proof.
  apply (C3_disable_keeps_drag_listeners (mkOptions true None) draggingB).
  - reflexivity.
  - reflexivity.
  - vm_compute. tauto.
  - vm_compute. tauto.
  - vm_compute. tauto.
  - reflexivity.
Defined.

Lemma C4_witness :
  isDragging (ctl (step staleTouchB (PointerMove (mkMove 10 250 20)))) = true.
Proof.
  refine (proj1 (proj2 (C4_vertical_move_starts_drag secondTouchGesture
                          cancelledMouseGesture
                          [LHandleMove secondTouchGesture]
                          (mkMove 10 250 20) staleTouchB
                          (mkPending itemB 210 10) _ _ _ _ _ _ _ _ _ _))).
  - reflexivity.
  - reflexivity.
  - reflexivity.
  - reflexivity.
  - discriminate.
  - reflexivity.
  - now left.
  - now left.
  - reflexivity.
  - discriminate.
Defined.

Lemma C5_witness :
  isDragging (ctl (step staleTouchB (PointerMove (mkMove 20 210 20)))) = true
  /\ dropLog
       (run (PointerMove (mkMove 20 210 20) :: pastTheEnd ++ [PointerUp])
          staleTouchB)
     = [(1, 2)].
Proof.
  split; [|reflexivity].
  refine (proj1 (proj2 (C5_below_threshold_starts_drag secondTouchGesture
                          cancelledMouseGesture
                          [LHandleMove secondTouchGesture]
                          (mkMove 20 210 20) staleTouchB
                          (mkPending itemB 210 10) _ _ _ _ _ _ _ _ _))).
  - reflexivity.
  - reflexivity.
  - reflexivity.
  - discriminate.
  - reflexivity.
  - now left.
  - now left.
  - reflexivity.
  - discriminate.
Defined.

Lemma C6_witness :
  kids (doc (updateDragPosition 110 150 (sideBySide [itemA]) draggingB))
  = [itemB; placeholderB; itemA; itemC]
  /\ kids (doc (updateDragPosition 340 50 (sideBySide [itemC]) draggingB))
     = [itemA; itemC; itemB; placeholderB]
  /\ kids (doc (updateDragPosition 10 340 (stacked [itemC]) draggingB))
     = [itemA; itemC; itemB; placeholderB].
Proof.
  assert (Hnd : NoDup (kids (doc draggingB)))
    by (apply noDupb_NoDup; reflexivity).
  assert (Hin : In placeholderB (kids (doc draggingB)))
    by (right; right; left; reflexivity).
  assert (Hdp : itemB <> placeholderB) by discriminate.
  assert (Hb : indexOf itemB (getDraggableItems draggingB) <> -1)
    by discriminate.
  split; [|split].
  - pose proof (C6_hovered_item_insertion draggingB 110 150
                  (sideBySide [itemA]) ghostB itemB placeholderB itemA
                  eq_refl eq_refl eq_refl Hnd Hdp eq_refl) as H.
    cbv zeta in H.
    destruct H as (_ & _ & H & _); try discriminate.
    exact (proj1 (proj2 (proj2 (H Hin)))).
  - pose proof (C6_hovered_item_insertion draggingB 340 50
                  (sideBySide [itemC]) ghostB itemB placeholderB itemC
                  eq_refl eq_refl eq_refl Hnd Hdp eq_refl) as H.
    cbv zeta in H.
    destruct H as (_ & _ & H & _); try discriminate.
    exact (proj1 (proj2 (proj2 (H Hin)))).
  - pose proof (C6_hovered_item_insertion draggingB 10 340
                  (stacked [itemC]) ghostB itemB placeholderB itemC
                  eq_refl eq_refl eq_refl Hnd Hdp eq_refl) as H.
    cbv zeta in H.
    destruct H as (_ & _ & H & _); try discriminate.
    exact (proj1 (proj2 (proj2 (H Hin)))).
Defined.

Lemma C7_witness :
  (getDraggableItems (updateDragPosition 10 500 (stacked []) draggingB)
   = [itemA; itemC; itemB]
   /\ dropLog (handlePointerUp
                 (updateDragPosition 10 500 (stacked []) draggingB))
      = [(1, 2)])
  /\ kids (doc (updateDragPosition 10 320 (stacked []) draggingB))
     = [itemA; itemB; placeholderB; itemC]
  /\ getDraggableItems (updateDragPosition 10 50 (stacked []) draggingB)
     = [itemB; itemA; itemC]
  /\ getDraggableItems (updateDragPosition 400 100 (sideBySide []) draggingB)
     = [itemA; itemC; itemB]
  /\ getDraggableItems (updateDragPosition 50 100 (sideBySide []) draggingB)
     = [itemB; itemA; itemC]
  /\ kids (doc (updateDragPosition 320 1000 (sideBySide []) draggingB))
     = [itemA; itemB; placeholderB; itemC].
Proof.
  assert (Hnd : NoDup (kids (doc draggingB)))
    by (apply noDupb_NoDup; reflexivity).
  assert (Hall : forall x y lay,
            getElementUnderPoint lay x y = None -> _)
    by (intros x y lay Hhit;
        exact (C7_edge_of_list draggingB x y lay ghostB itemB placeholderB
                 itemA [itemB; itemC] eq_refl eq_refl eq_refl Hnd
                 eq_refl eq_refl Hhit eq_refl)).
  cbv zeta in Hall.
  split; [|split; [|split; [|split; [|split]]]].
  - destruct (Hall 10 500 (stacked []) eq_refl) as (_ & Hend & _ & Hscen).
    split.
    + exact (proj1 (Hend eq_refl eq_refl)).
    + apply Hscen; try reflexivity. exists itemA, itemC. reflexivity.
  - destruct (Hall 10 320 (stacked []) eq_refl) as (_ & _ & Hsame & _).
    exact (Hsame eq_refl eq_refl).
  - destruct (Hall 10 50 (stacked []) eq_refl) as (Hfront & _).
    exact (proj1 (Hfront eq_refl)).
  - destruct (Hall 400 100 (sideBySide []) eq_refl) as (_ & Hend & _).
    exact (proj1 (Hend eq_refl eq_refl)).
  - destruct (Hall 50 100 (sideBySide []) eq_refl) as (Hfront & _).
    exact (proj1 (Hfront eq_refl)).
  - destruct (Hall 320 1000 (sideBySide []) eq_refl) as (_ & _ & Hsame & _).
    exact (Hsame eq_refl eq_refl).
Defined.

Lemma C8_witness :
  (List.length
     (bodyKids
        (doc (run [PointerDown mouseDownB; PointerMove (mkMove 10 220 5);
                   PointerDown mouseDownB] threeItems))) <= 1)%nat.
Proof.
  apply (C8_exclusivity plainOptions [itemA; itemB; itemC]
           (fun _ => clearStyle) 10
           [PointerDown mouseDownB; PointerMove (mkMove 10 220 5);
            PointerDown mouseDownB]).
  - apply noDupb_NoDup. reflexivity.
  - intros n H. destruct H as [<-|[<-|[<-|[]]]]; reflexivity.
Defined.

Lemma C9_witness : handlePointerDown downInLink threeItems = threeItems.
Proof.
  apply (C9_interactive_control_ignored downInLink threeItems linkAround).
  - reflexivity.
  - reflexivity.
Defined.

Lemma C10_witness :
  dropLog (handlePointerUp
             (step draggingB (Mutation [itemA; itemC; placeholderB])))
  = [].
Proof.
  apply (C10_removed_item_no_callback
           (step draggingB (Mutation [itemA; itemC; placeholderB])) itemB).
  - reflexivity.
  - reflexivity.
  - reflexivity.
Defined.

(** * The rest of the controller *)

(** ** Cleanup and teardown *)


Lemma updateDragPosition_no_ghost (x y : Z) (lay : Layout) (s : State) :
  ghostElement (ctl s) = None -> updateDragPosition x y lay s = s.
Proof. intros H. unfold updateDragPosition. now rewrite H. Qed.

Lemma inert_handleUp (g : Gesture) (s : State) :
  inert s -> inert (handleUp g s).
Proof. unfold inert, handleUp. cbn. tauto. Qed.

(** An inert controller stays inert under every event but a
    pointer-down, and neither calls [onDrop] nor touches
    [document.body]. *)
Lemma inert_step (ev : Event) (s : State) :
  withoutPointerDown ev -> inert s ->
  inert (step s ev)
  /\ dropLog (step s ev) = dropLog s
  /\ bodyKids (doc (step s ev)) = bodyKids (doc s).
Proof.
  intros Hev H. pose proof H as (Hp & Hd & Hg).
  destruct ev as [e|e| | |lay|o|l]; simpl in *; try contradiction.
  - unfold dispatchMove. rewrite fold_moves_quiet by assumption. auto.
  - unfold dispatchUp. generalize (upListeners (doc s)). intros ls.
    assert (G : forall t, inert t ->
              inert (fold_left runUpListener ls t)
              /\ dropLog (fold_left runUpListener ls t) = dropLog t
              /\ bodyKids (doc (fold_left runUpListener ls t))
                 = bodyKids (doc t)).
    { induction ls as [|k ls IH]; intros t Ht; simpl; [auto|].
      assert (Hk : inert (runUpListener t k)
                   /\ dropLog (runUpListener t k) = dropLog t
                   /\ bodyKids (doc (runUpListener t k)) = bodyKids (doc t)).
      { unfold runUpListener.
        destruct (existsb (upL_eqb k) (upListeners (doc t))); [|auto].
        destruct k.
        - split; [now apply inert_handleUp | split; reflexivity].
        - rewrite handlePointerUp_idle by apply Ht. auto. }
      destruct Hk as (K1 & K2 & K3).
      destruct (IH _ K1) as (I1 & I2 & I3).
      rewrite I2, I3. auto. }
    now apply G.
  - unfold dispatchCancel. generalize (cancelListeners (doc s)). intros ls.
    assert (G : forall t, inert t ->
              inert (fold_left runCancelListener ls t)
              /\ dropLog (fold_left runCancelListener ls t) = dropLog t
              /\ bodyKids (doc (fold_left runCancelListener ls t))
                 = bodyKids (doc t)).
    { induction ls as [|k ls IH]; intros t Ht; simpl; [auto|].
      assert (Hk : inert (runCancelListener t k)
                   /\ dropLog (runCancelListener t k) = dropLog t
                   /\ bodyKids (doc (runCancelListener t k))
                      = bodyKids (doc t)).
      { unfold runCancelListener.
        destruct (existsb (upL_eqb k) (cancelListeners (doc t))); [|auto].
        destruct k.
        - split; [now apply inert_handleUp | split; reflexivity].
        - rewrite handlePointerUp_idle by apply Ht. auto. }
      destruct Hk as (K1 & K2 & K3).
      destruct (IH _ K1) as (I1 & I2 & I3).
      rewrite I2, I3. auto. }
    now apply G.
  - unfold runFrame. destruct (animationFrameId (ctl s)) as [[x y]|];
      [|auto].
    rewrite updateDragPosition_no_ghost by assumption.
    unfold inert. cbn. auto.
  - unfold update. cbn [ctl upd_ctl isDragging set_options].
    rewrite Hd, andb_false_r. unfold inert. cbn. auto.
  - unfold mutate. destruct (mutationOk l s); [|auto].
    unfold inert. cbn. auto.
Qed.

Lemma inert_run (evs : list Event) (s : State) :
  Forall withoutPointerDown evs -> inert s ->
  inert (run evs s)
  /\ dropLog (run evs s) = dropLog s
  /\ bodyKids (doc (run evs s)) = bodyKids (doc s).
Proof.
  intros Hall. revert s.
  induction Hall as [|ev evs Hev Hall IH]; intros s H; simpl; [auto|].
  destruct (inert_step ev s Hev H) as (H1 & H2 & H3).
  destruct (IH _ H1) as (I1 & I2 & I3).
  rewrite I2, I3. auto.
Qed.

(** X2.  [destroy] ends whatever session is active without calling
    [onDrop]: ghost and placeholder are removed, the item's styling is
    reset and the three drag-phase listeners are detached; the overrides of
    [document.body] are left as they are.  Afterwards no event that can
    still arrive (every event but a pointer-down on an item) starts a
    drag, calls [onDrop] or adds a ghost. *)
Theorem destroy_ends_everything (s : State) :
  sessionCleared s (destroy s)
  /\ ~ In LHandlePointerMove (moveListeners (doc (destroy s)))
  /\ ~ In LHandlePointerUp (upListeners (doc (destroy s)))
  /\ ~ In LHandlePointerUp (cancelListeners (doc (destroy s)))
  /\ dropLog (destroy s) = dropLog s
  /\ bodyGrabbing (doc (destroy s)) = bodyGrabbing (doc s)
  /\ (forall evs, Forall withoutPointerDown evs ->
        isDragging (ctl (run evs (destroy s))) = false
        /\ dropLog (run evs (destroy s)) = dropLog s
        /\ bodyKids (doc (run evs (destroy s)))
           = bodyKids (doc (destroy s))).
Proof.
  pose proof (cleanup_sessionCleared s) as Hc.
  destruct (detachDragListeners_detached (cleanup s)) as (L1 & L2 & L3).
  destruct (cleanup_ctl s) as (C1 & C2 & C3 & C4 & C5 & _ & C7).
  destruct (cleanup_listeners s) as (_ & _ & _ & Lb).
  assert (Hin : inert (destroy s)).
  { unfold inert, destroy, detachDragListeners. cbn. auto. }
  unfold destroy in *.
  split; [exact Hc|].
  split; [exact L1|]. split; [exact L2|]. split; [exact L3|].
  split; [exact C7|]. split; [exact Lb|].
  intros evs H. destruct (inert_run evs _ H Hin) as (I1 & I2 & I3).
  split; [apply I1|]. split; [|exact I3].
  rewrite I2. exact C7.
Qed.

Lemma destroy_witness :
  isDragging
    (ctl (run [PointerMove (mkMove 10 500 10); AnimationFrame (stacked []);
               PointerUp] (destroy draggingB))) = false.
Proof.
  apply (destroy_ends_everything draggingB).
  repeat constructor.
Defined.

(** ** The listeners of reachable states *)

(** [listenersOk] reads the session flag, the dragged element and the
    three listener lists; a step that keeps the first two and keeps or
    extends membership in the lists keeps it. *)
Lemma listenersOk_same (s t : State) :
  isDragging (ctl t) = isDragging (ctl s) ->
  draggedElement (ctl t) = draggedElement (ctl s) ->
  (In LHandlePointerMove (moveListeners (doc s)) ->
   In LHandlePointerMove (moveListeners (doc t))) ->
  (In LHandlePointerUp (upListeners (doc s)) ->
   In LHandlePointerUp (upListeners (doc t))) ->
  cancelListeners (doc t) = cancelListeners (doc s) ->
  listenersOk s -> listenersOk t.
Proof.
  unfold listenersOk, sessionRegistered, cancelOnlyDrag.
  intros -> -> Hm Hu -> [H1 H2]. split; [|exact H2].
  intros Hd. destruct (H1 Hd) as (A & B & C & D). auto.
Qed.

Lemma listenersOk_idle (t : State) :
  isDragging (ctl t) = false ->
  (forall g, ~ In (LHandleUp g) (cancelListeners (doc t))) ->
  listenersOk t.
Proof.
  intros Hd Hc. split; [|exact Hc].
  intros H. congruence.
Qed.

Lemma listenersOk_removeGesture (g : Gesture) (s : State) :
  listenersOk s ->
  listenersOk (removeGestureListeners g (upd_ctl (set_pendingDrag None) s)).
Proof.
  apply listenersOk_same; cbn; try reflexivity.
  - intros H. apply removeMoveListener_In. split; [exact H | discriminate].
  - intros H. apply removeUpListener_In. split; [exact H | discriminate].
Qed.

Lemma listenersOk_startDrag (item : Node) (s : State) :
  listenersOk s -> listenersOk (startDrag item s).
Proof.
  intros H. destruct (isDragging (ctl s)) eqn:Hd.
  - now rewrite startDrag_dragging.
  - destruct (Z.eq_dec (indexOf item (getDraggableItems s)) (-1)) as [Hi|Hi].
    + rewrite (startDrag_not_child item s Hd Hi).
      apply listenersOk_idle; [exact Hd | apply H].
    + destruct H as [_ Hc].
      unfold startDrag. rewrite Hd.
      cbn [ctl upd_ctl draggedIndex set_draggedIndex].
      change (getDraggableItems
                (upd_ctl (set_draggedElement (Some item))
                   (upd_ctl (set_isDragging true) s)))
        with (getDraggableItems s).
      apply Z.eqb_neq in Hi. rewrite Hi.
      unfold createGhost, createPlaceholder. cbv zeta.
      match goal with
      | |- context [viaParent item ?op ?t] =>
          destruct (viaParent_relayout item op t) as [l E]; rewrite E
      end.
      split.
      * intros _. cbn. repeat split.
        -- now exists item.
        -- apply addMoveListener_In. now right.
        -- apply addUpListener_In. now right.
        -- apply addUpListener_In. now right.
      * intros g. cbn. rewrite addUpListener_In.
        intros [Hg|Hg]; [exact (Hc g Hg) | discriminate].
Qed.

Lemma listenersOk_cleanup (s : State) :
  listenersOk s -> listenersOk (cleanup s).
Proof.
  intros [_ Hc]. apply listenersOk_idle.
  - apply cleanup_ctl.
  - destruct (cleanup_listeners s) as (_ & _ & E & _). now rewrite E.
Qed.

Lemma handlePointerUp_cancelListeners (s : State) :
  isDragging (ctl s) = true ->
  cancelListeners (doc (handlePointerUp s))
  = removeUpListener LHandlePointerUp (cancelListeners (doc s)).
Proof.
  intros Hd. rewrite (handlePointerUp_unfold s Hd).
  set (s1 := commitDrop (upd_ctl (set_animationFrameId None) s)).
  change (removeUpListener LHandlePointerUp
            (cancelListeners (doc (cleanup s1)))
          = removeUpListener LHandlePointerUp (cancelListeners (doc s))).
  destruct (cleanup_listeners s1) as (_ & _ & E & _). rewrite E.
  destruct (commitDrop_frame (upd_ctl (set_animationFrameId None) s))
    as (_ & Ed).
  subst s1. now rewrite Ed.
Qed.

Lemma listenersOk_handlePointerUp (s : State) :
  listenersOk s -> listenersOk (handlePointerUp s).
Proof.
  intros H. destruct (isDragging (ctl s)) eqn:Hd.
  - destruct (handlePointerUp_cleans s Hd) as (Hs & Hl).
    apply listenersOk_idle; [apply Hs|].
    intros g Hg. rewrite (handlePointerUp_cancelListeners s Hd) in Hg.
    apply removeUpListener_In in Hg. destruct Hg as [Hg _].
    destruct H as [_ Hc]. exact (Hc g Hg).
  - now rewrite handlePointerUp_idle.
Qed.

Lemma listenersOk_handleMove (g : Gesture) (e : MoveEvent) (s : State) :
  listenersOk s -> listenersOk (handleMove g e s).
Proof.
  intros H. unfold handleMove.
  destruct (pendingDrag (ctl s)) as [pd|]; [|exact H].
  assert (Ha : listenersOk (abandon g s))
    by now apply listenersOk_removeGesture.
  assert (Hp : listenersOk (promote g pd s)).
  { unfold promote. apply listenersOk_removeGesture.
    now apply listenersOk_startDrag. }
  cbv zeta.
  repeat match goal with
         | |- context [if ?c then _ else _] => destruct c
         end; assumption.
Qed.

Lemma listenersOk_step (ev : Event) (s : State) :
  listenersOk s -> listenersOk (step s ev).
Proof.
  intros H. destruct ev as [e|e| | |lay|o|l]; simpl.
  - destruct (handlePointerDown_cases e s) as [E|[item [_ E]]];
      rewrite E; [exact H|].
    revert H. unfold armGesture.
    apply listenersOk_same; cbn; try reflexivity;
      intros Hin; apply in_or_app; now left.
  - unfold dispatchMove. generalize (moveListeners (doc s)).
    intros ls. revert s H.
    induction ls as [|k ls IH]; intros s H; simpl; [exact H|].
    apply IH. unfold runMoveListener.
    destruct (existsb (moveL_eqb k) (moveListeners (doc s))); [|exact H].
    destruct k.
    + now apply listenersOk_handleMove.
    + unfold handlePointerMove.
      destruct (negb (isDragging (ctl s))); [exact H|].
      destruct (draggedElement (ctl s)) eqn:Ed; [|exact H].
      revert H. apply listenersOk_same; cbn; auto.
  - unfold dispatchUp. generalize (upListeners (doc s)).
    intros ls. revert s H.
    induction ls as [|k ls IH]; intros s H; simpl; [exact H|].
    apply IH. unfold runUpListener.
    destruct (existsb (upL_eqb k) (upListeners (doc s))); [|exact H].
    destruct k.
    + now apply listenersOk_removeGesture.
    + now apply listenersOk_handlePointerUp.
  - unfold dispatchCancel. generalize (cancelListeners (doc s)).
    intros ls. revert s H.
    induction ls as [|k ls IH]; intros s H; simpl; [exact H|].
    apply IH. unfold runCancelListener.
    destruct (existsb (upL_eqb k) (cancelListeners (doc s))); [|exact H].
    destruct k.
    + now apply listenersOk_removeGesture.
    + now apply listenersOk_handlePointerUp.
  - unfold runFrame. destruct (animationFrameId (ctl s)) as [[x y]|];
      [|exact H].
    destruct (updateDragPosition_relayout x y lay s) as (l & h & E).
    rewrite E. revert H. apply listenersOk_same; cbn; auto.
  - unfold update.
    assert (H1 : listenersOk (upd_ctl (set_options o) s))
      by (revert H; apply listenersOk_same; cbn; auto).
    destruct (disabled o && isDragging (ctl (upd_ctl (set_options o) s)));
      [now apply listenersOk_cleanup | exact H1].
  - unfold mutate. destruct (mutationOk l s); [|exact H].
    revert H. apply listenersOk_same; cbn; auto.
Qed.

Lemma listenersOk_run (evs : list Event) (s : State) :
  listenersOk s -> listenersOk (run evs s).
Proof.
  revert s. induction evs as [|ev evs IH]; intros s H; simpl; [exact H|].
  apply IH. now apply listenersOk_step.
Qed.

Lemma listenersOk_initial (opts : Options) (children : list Node)
    (styles : Node -> ItemStyle) (fresh : nat) :
  listenersOk (initial opts children styles fresh).
Proof.
  apply listenersOk_idle; [reflexivity|]. intros g H. exact H.
Qed.

(** ** Ending a session, from any reachable state *)

Lemma runCancelListener_released (l : UpListener) (log : list (Z * Z))
    (t : State) :
  released log t -> released log (runCancelListener t l).
Proof.
  intros H. unfold runCancelListener.
  destruct (existsb (upL_eqb l) (cancelListeners (doc t))); [|exact H].
  destruct l.
  - unfold released in *. cbn. exact H.
  - rewrite handlePointerUp_idle; [exact H | apply H].
Qed.

Lemma fold_cancels_released (ls : list UpListener) (log : list (Z * Z))
    (t : State) :
  released log t -> released log (fold_left runCancelListener ls t).
Proof.
  revert t. induction ls as [|l ls IH]; intros t H; simpl; [exact H|].
  apply IH. now apply runCancelListener_released.
Qed.

Lemma fold_cancels_session (ls : list UpListener) (d : Node) (s t : State) :
  isDragging (ctl t) = true ->
  draggedElement (ctl t) = Some d ->
  draggedIndex (ctl t) = draggedIndex (ctl s) ->
  dropLog t = dropLog s ->
  kids (doc t) = kids (doc s) ->
  In LHandlePointerUp (cancelListeners (doc t)) ->
  In LHandlePointerUp ls ->
  released (dropLog s
            ++ dropCalls (draggedIndex (ctl s))
                 (indexOf d (getDraggableItems s)))
    (fold_left runCancelListener ls t).
Proof.
  revert t. induction ls as [|l ls IH];
    intros t Hd Hi Hx Hl Hk Hreg Hin; simpl; [contradiction|].
  destruct l as [g|].
  - destruct Hin as [Hin|Hin]; [discriminate|].
    unfold runCancelListener.
    destruct (existsb (upL_eqb (LHandleUp g)) (cancelListeners (doc t)));
      apply IH; auto.
  - apply fold_cancels_released.
    unfold runCancelListener.
    rewrite (proj2 (existsb_upL _ _) Hreg).
    split.
    + apply (handlePointerUp_cleans t Hd).
    + rewrite (handlePointerUp_log t d Hd Hi). cbv zeta.
      rewrite Hx, Hl, (getDraggableItems_kids s t Hk). reflexivity.
Qed.

Lemma idle_wellFormed_clear (t : State) :
  wellFormed t -> isDragging (ctl t) = false ->
  bodyKids (doc t) = [] /\ filter dataPlaceholder (kids (doc t)) = [].
Proof.
  intros (Hk & Hb & Hi & _) Hd. destruct (Hi Hd) as (Hg & Hp).
  rewrite Hb, Hg. split; [reflexivity|].
  destruct (filter dataPlaceholder (kids (doc t))) as [|n r] eqn:E;
    [reflexivity|].
  assert (Hn : In n (filter dataPlaceholder (kids (doc t))))
    by (rewrite E; now left).
  apply filter_In in Hn. destruct Hn as [Hn Hf].
  destruct Hk as (_ & Hk). specialize (Hk n Hn Hf). congruence.
Qed.

(** X3.  From every state the controller reaches in which a session is
    active, a pointerup and a pointercancel both end the session, and
    they do the same: [onDrop] is called under the same condition with
    the same pair, the controller is idle afterwards, no ghost is left in
    [document.body] and no placeholder among the children. *)
Theorem session_ends_on_up_and_cancel
    (opts : Options) (children : list Node) (styles : Node -> ItemStyle)
    (fresh : nat) (evs : list Event)
    (Hnd : NoDup children)
    (Hplain : forall n, In n children -> dataPlaceholder n = false)
    (Hdrag : isDragging
               (ctl (run evs (initial opts children styles fresh))) = true) :
  let s := run evs (initial opts children styles fresh) in
  exists d,
    draggedElement (ctl s) = Some d
    /\ forall ev, ev = PointerUp \/ ev = PointerCancel ->
         isDragging (ctl (step s ev)) = false
         /\ dropLog (step s ev)
            = dropLog s
              ++ dropCalls (draggedIndex (ctl s))
                   (indexOf d (getDraggableItems s))
         /\ bodyKids (doc (step s ev)) = []
         /\ filter dataPlaceholder (kids (doc (step s ev))) = [].
Proof.
  intros s.
  assert (Hw : wellFormed s)
    by (apply wellFormed_run; now apply wellFormed_initial).
  assert (Hl : listenersOk s)
    by (apply listenersOk_run; apply listenersOk_initial).
  destruct Hl as [Hreg _].
  destruct (Hreg Hdrag) as ([d Hd] & _ & Hup & Hcancel).
  exists d. split; [exact Hd|].
  intros ev Hev.
  assert (Hr : released (dropLog s
                         ++ dropCalls (draggedIndex (ctl s))
                              (indexOf d (getDraggableItems s)))
                 (step s ev)).
  { destruct Hev as [-> | ->]; simpl.
    - apply (dispatchUp_session d (draggedIndex (ctl s)) (dropLog s) s).
      unfold inSession. auto.
    - unfold dispatchCancel.
      now apply (fold_cancels_session _ d s s). }
  destruct Hr as (Hidle & Hlog).
  destruct (idle_wellFormed_clear (step s ev)
              (wellFormed_step ev s Hw) Hidle) as (Hb & Hp).
  auto.
Qed.

Lemma session_ends_witness :
  isDragging (ctl (step draggingB PointerCancel)) = false
  /\ dropLog (step draggingB PointerCancel) = [].
Proof.
  destruct (session_ends_on_up_and_cancel plainOptions
              [itemA; itemB; itemC] (fun _ => clearStyle) 10
              [PointerDown mouseDownB; PointerMove (mkMove 10 220 5)])
    as [d [Hd H]].
  - apply noDupb_NoDup. reflexivity.
  - intros n Hn. destruct Hn as [<-|[<-|[<-|[]]]]; reflexivity.
  - reflexivity.
  - destruct (H PointerCancel (or_intror eq_refl)) as (H1 & H2 & _).
    split; [exact H1|].
    etransitivity; [exact H2|].
    assert (E : d = itemB)
      by (lazy in Hd; injection Hd as <-; reflexivity).
    subst d. reflexivity.
Defined.

(** X4.  While no session is active a pointercancel does nothing at all,
    in every state the controller reaches: a pending gesture, its start
    point and its two listeners are still there afterwards (the pending
    phase listens to pointerup only). *)
Theorem pointercancel_keeps_pending_gesture
    (opts : Options) (children : list Node) (styles : Node -> ItemStyle)
    (fresh : nat) (evs : list Event)
    (Hidle : isDragging
               (ctl (run evs (initial opts children styles fresh)))
             = false) :
  step (run evs (initial opts children styles fresh)) PointerCancel
  = run evs (initial opts children styles fresh).
Proof.
  set (s := run evs (initial opts children styles fresh)) in *.
  assert (Hl : listenersOk s)
    by (apply listenersOk_run; apply listenersOk_initial).
  destruct Hl as [_ Hc]. simpl. unfold dispatchCancel.
  assert (G : forall ls, fold_left runCancelListener ls s = s).
  { induction ls as [|k ls IH]; simpl; [reflexivity|].
    assert (E : runCancelListener s k = s).
    { unfold runCancelListener.
      destruct (existsb (upL_eqb k) (cancelListeners (doc s))) eqn:Hreg;
        [|reflexivity].
      apply existsb_upL in Hreg. destruct k as [g|].
      - exfalso. exact (Hc g Hreg).
      - now apply handlePointerUp_idle. }
    now rewrite E. }
  apply G.
Qed.

Lemma pointercancel_witness :
  pendingDrag (ctl (step pendingMouseB PointerCancel))
  = Some (mkPending itemB 210 10).
Proof.
  pose proof (pointercancel_keeps_pending_gesture plainOptions
                [itemA; itemB; itemC] (fun _ => clearStyle) 10
                [PointerDown mouseDownB] eq_refl) as H.
  change (step pendingMouseB PointerCancel = pendingMouseB) in H.
  rewrite H. reflexivity.
Defined.

(** ** A disabled controller *)

Lemma dormant_step (ev : Event) (s : State) :
  keepsDisabled ev -> dormant s -> dormant (step s ev).
Proof.
  intros Hev H.
  pose proof H as (Hdis & (Hp & Hd & Hg) & Hraf & Hm & Hu & Hc & Hb & Hl).
  destruct ev as [e|e| | |lay|o|l]; simpl in *.
  - unfold handlePointerDown. now rewrite Hdis.
  - unfold dispatchMove. now rewrite Hm.
  - unfold dispatchUp. now rewrite Hu.
  - unfold dispatchCancel. now rewrite Hc.
  - unfold runFrame. now rewrite Hraf.
  - unfold update. cbn [ctl upd_ctl isDragging set_options].
    rewrite Hd, andb_false_r. unfold dormant, inert. cbn. auto 10.
  - unfold mutate. destruct (mutationOk l s); [|exact H].
    unfold dormant, inert. cbn. auto 10.
Qed.

(** X5.  A controller created with [disabled] set, and not reconfigured
    to enabled, never does anything: whatever pointer events, frames and
    re-renders arrive, no gesture becomes pending, no listener is put on
    [document], no ghost appears and [onDrop] is not called. *)
Theorem disabled_controller_never_drags
    (opts : Options) (children : list Node) (styles : Node -> ItemStyle)
    (fresh : nat) (evs : list Event)
    (Hdis : disabled opts = true)
    (Hevs : Forall keepsDisabled evs) :
  let s := run evs (initial opts children styles fresh) in
  isDragging (ctl s) = false
  /\ pendingDrag (ctl s) = None
  /\ moveListeners (doc s) = []
  /\ upListeners (doc s) = []
  /\ bodyKids (doc s) = []
  /\ dropLog s = [].
Proof.
  intros s.
  assert (H : dormant s).
  { subst s.
    assert (H0 : dormant (initial opts children styles fresh)).
    { unfold dormant, inert. cbn. auto 10. }
    revert H0. generalize (initial opts children styles fresh).
    induction Hevs as [|ev evs Hev Hall IH]; intros t Ht; simpl;
      [exact Ht|].
    apply IH. now apply dormant_step. }
  destruct H as (_ & (Hp & Hd & _) & _ & Hm & Hu & _ & Hb & Hl).
  auto 10.
Qed.

Lemma disabled_witness :
  isDragging
    (ctl (run [PointerDown mouseDownB; PointerMove (mkMove 10 320 5);
               PointerUp]
            (initial (mkOptions true None) [itemA; itemB; itemC]
               (fun _ => clearStyle) 10))) = false.
Proof.
  apply (disabled_controller_never_drags (mkOptions true None)
           [itemA; itemB; itemC] (fun _ => clearStyle) 10
           [PointerDown mouseDownB; PointerMove (mkMove 10 320 5);
            PointerUp]).
  - reflexivity.
  - repeat constructor.
Defined.

(** ** Gestures that do not become a drag *)

Lemma filter_no_match_move (l : MoveListener) (ls : list MoveListener) :
  ~ In l ls -> removeMoveListener l ls = ls.
Proof.
  intros H. unfold removeMoveListener.
  induction ls as [|k ls IH]; simpl; [reflexivity|].
  destruct (moveL_eqb k l) eqn:E.
  - apply moveL_eqb_eq in E. subst k. exfalso. apply H. now left.
  - simpl. f_equal. apply IH. intros Hin. apply H. now right.
Qed.

Lemma filter_no_match_up (l : UpListener) (ls : list UpListener) :
  ~ In l ls -> removeUpListener l ls = ls.
Proof.
  intros H. unfold removeUpListener.
  induction ls as [|k ls IH]; simpl; [reflexivity|].
  destruct (upL_eqb k l) eqn:E.
  - apply upL_eqb_eq in E. subst k. exfalso. apply H. now left.
  - simpl. f_equal. apply IH. intros Hin. apply H. now right.
Qed.

Lemma removeMoveListener_app_last (l : MoveListener)
    (ls : list MoveListener) :
  ~ In l ls -> removeMoveListener l (ls ++ [l]) = ls.
Proof.
  intros H. unfold removeMoveListener. rewrite filter_app. simpl.
  rewrite (proj2 (moveL_eqb_eq l l) eq_refl). simpl.
  rewrite app_nil_r. now apply filter_no_match_move.
Qed.

Lemma removeUpListener_app_last (l : UpListener) (ls : list UpListener) :
  ~ In l ls -> removeUpListener l (ls ++ [l]) = ls.
Proof.
  intros H. unfold removeUpListener. rewrite filter_app. simpl.
  rewrite (proj2 (upL_eqb_eq l l) eq_refl). simpl.
  rewrite app_nil_r. now apply filter_no_match_up.
Qed.

(** X6.  A press and release without a move in between leaves no trace:
    with no session active, nothing pending and no gesture closure
    registered, pointer-down followed by pointerup gives back the state
    it started from, up to the supply of object identities; the two
    listeners of the gesture are gone again. *)
Theorem click_leaves_no_trace (e : DownEvent) (s : State)
    (Hidle : isDragging (ctl s) = false)
    (Hnone : pendingDrag (ctl s) = None)
    (Hfresh : noGestureClosures s) :
  run [PointerDown e; PointerUp] s = s
  \/ run [PointerDown e; PointerUp] s
     = upd_doc (set_nextId (S (nextId (doc s)))) s.
Proof.
  destruct Hfresh as [Hm Hu].
  assert (Hquiet : forall t ls,
            isDragging (ctl t) = false ->
            (forall g, ~ In (LHandleUp g) ls) ->
            fold_left runUpListener ls t = t).
  { intros t ls Ht. induction ls as [|k ls IH]; intros Hno; simpl;
      [reflexivity|].
    assert (E : runUpListener t k = t).
    { unfold runUpListener.
      destruct (existsb (upL_eqb k) (upListeners (doc t))); [|reflexivity].
      destruct k as [g|].
      - exfalso. apply (Hno g). now left.
      - now apply handlePointerUp_idle. }
    rewrite E. apply IH. intros g Hg. apply (Hno g). now right. }
  simpl run.
  destruct (handlePointerDown_cases e s) as [E|[item [_ E]]]; rewrite E.
  - left. unfold dispatchUp. now apply Hquiet.
  - right. set (g := gestureOf item e s).
    unfold dispatchUp.
    change (upListeners (doc (armGesture item e s)))
      with (upListeners (doc s) ++ [LHandleUp g]).
    rewrite fold_left_app.
    rewrite (Hquiet (armGesture item e s) (upListeners (doc s)) Hidle Hu).
    simpl fold_left. unfold runUpListener.
    change (upListeners (doc (armGesture item e s)))
      with (upListeners (doc s) ++ [LHandleUp g]).
    assert (Hreg : existsb (upL_eqb (LHandleUp g))
                     (upListeners (doc s) ++ [LHandleUp g]) = true).
    { apply existsb_upL. apply in_or_app. right. now left. }
    rewrite Hreg. unfold handleUp, removeGestureListeners, armGesture.
    fold g. clearbody g. clear E Hreg Hquiet.
    destruct s as [[o de di gh p dr af pd hl] [k b st bg ml ul cl ni] lg].
    cbn in Hm, Hu, Hnone. subst pd.
    lazy -[removeMoveListener removeUpListener app].
    rewrite removeMoveListener_app_last by apply Hm.
    rewrite removeUpListener_app_last by apply Hu.
    reflexivity.
Qed.

Lemma click_witness :
  kids (doc (run [PointerDown mouseDownB; PointerUp] threeItems))
  = [itemA; itemB; itemC]
  /\ moveListeners (doc (run [PointerDown mouseDownB; PointerUp] threeItems))
     = [].
Proof.
  destruct (click_leaves_no_trace mouseDownB threeItems) as [E|E].
  - reflexivity.
  - reflexivity.
  - split; intros g H; exact H.
  - rewrite E. split; reflexivity.
  - rewrite E. split; reflexivity.
Defined.

Lemma handleMove_cases (g : Gesture) (m : MoveEvent) (t : State)
    (pd : PendingDrag) :
  pendingDrag (ctl t) = Some pd ->
  handleMove g m t = t
  \/ handleMove g m t = abandon g t
  \/ handleMove g m t = promote g pd t.
Proof.
  intros Hp. unfold handleMove. rewrite Hp. cbv zeta.
  repeat match goal with
         | |- context [if ?c then _ else _] => destruct c
         end; auto.
Qed.

Lemma runMoveListener_stray (pd : PendingDrag)
    (m : MoveEvent) (l : MoveListener) (s0 t : State) :
  indexOf (p_item pd) (getDraggableItems s0) = -1 ->
  strayPending pd s0 t -> strayPending pd s0 (runMoveListener m t l).
Proof.
  intros Hstray H. unfold runMoveListener.
  destruct (existsb (moveL_eqb l) (moveListeners (doc t))); [|exact H].
  pose proof H as (Hd & Hgh & Hph & Hk & Hb & Hl & Hp).
  destruct l as [h|].
  - destruct Hp as [Hp|Hp].
    + unfold handleMove. now rewrite Hp.
    + assert (Hrem : forall u,
                strayPending pd s0 u ->
                strayPending pd s0
                  (removeGestureListeners h
                     (upd_ctl (set_pendingDrag None) u))).
      { intros u (U1 & U2 & U3 & U4 & U5 & U6 & U7).
        unfold strayPending. cbn. repeat split; auto. }
      destruct (handleMove_cases h m t pd Hp) as [E|[E|E]]; rewrite E.
      * exact H.
      * now apply Hrem.
      * unfold promote. apply Hrem.
        rewrite startDrag_not_child;
          [|exact Hd|now rewrite (getDraggableItems_kids s0 t Hk)].
        unfold strayPending. cbn. repeat split; auto.
  - unfold handlePointerMove. now rewrite Hd.
Qed.

Lemma run_moves_stray (pd : PendingDrag) (moves : list MoveEvent)
    (s0 t : State) :
  indexOf (p_item pd) (getDraggableItems s0) = -1 ->
  strayPending pd s0 t ->
  strayPending pd s0 (run (map PointerMove moves) t).
Proof.
  intros Hstray. revert t.
  induction moves as [|m ms IH]; intros t Ht; simpl; [exact Ht|].
  apply IH. unfold dispatchMove.
  generalize (moveListeners (doc t)). intros ls. revert t Ht.
  induction ls as [|l ls IHl]; intros t Ht; simpl; [exact Ht|].
  apply IHl. now apply runMoveListener_stray.
Qed.

(** X7.  A pointer-down that leaves a gesture pending on a
    [data-draggable] element which is not one of the container's
    draggable children (a nested one, or one that was taken out) never
    becomes a drag: however far the pointer moves, and whatever closures
    of earlier gestures are still registered, no session starts, no
    ghost and no placeholder are created, the children stay as they are
    and [onDrop] is not called. *)
Theorem stray_item_never_drags
    (s0 : State) (e : DownEvent) (pd : PendingDrag)
    (moves : list MoveEvent)
    (Hidle : isDragging (ctl s0) = false)
    (Hpending : pendingDrag (ctl (step s0 (PointerDown e))) = Some pd)
    (Hstray : indexOf (p_item pd) (getDraggableItems s0) = -1) :
  let s1 := run (PointerDown e :: map PointerMove moves) s0 in
  isDragging (ctl s1) = false
  /\ ghostElement (ctl s1) = ghostElement (ctl s0)
  /\ placeholder (ctl s1) = placeholder (ctl s0)
  /\ kids (doc s1) = kids (doc s0)
  /\ bodyKids (doc s1) = bodyKids (doc s0)
  /\ dropLog s1 = dropLog s0.
Proof.
  intros s1. subst s1. simpl run. cbn [step] in Hpending.
  assert (H0 : strayPending pd s0 (handlePointerDown e s0)).
  { destruct (handlePointerDown_cases e s0) as [E|[item [_ E]]];
      rewrite E in Hpending |- *.
    - unfold strayPending. auto 10.
    - unfold strayPending, armGesture in *. cbn in *. auto 10. }
  destruct (run_moves_stray pd moves s0 _ Hstray H0)
    as (G1 & G2 & G3 & G4 & G5 & G6 & _).
  auto 10.
Qed.

(** ** Position updates, frame by frame *)

Lemma dispatchMove_dragging (m : MoveEvent) (s : State) (d : Node) :
  isDragging (ctl s) = true ->
  draggedElement (ctl s) = Some d ->
  pendingDrag (ctl s) = None ->
  In LHandlePointerMove (moveListeners (doc s)) ->
  dispatchMove m s
  = upd_ctl (set_animationFrameId (Some (m_clientX m, m_clientY m))) s.
Proof.
  intros Hd Hel Hp Hreg. unfold dispatchMove.
  set (s' := upd_ctl (set_animationFrameId
                        (Some (m_clientX m, m_clientY m))) s).
  assert (Hs' : handlePointerMove m s' = s').
  { unfold handlePointerMove, s'. cbn. rewrite Hd, Hel. cbn.
    destruct s as [[] [] ?]. reflexivity. }
  assert (Hs : handlePointerMove m s = s').
  { unfold handlePointerMove. now rewrite Hd, Hel. }
  assert (Hq : forall ls, fold_left (runMoveListener m) ls s' = s').
  { induction ls as [|l ls IH]; simpl; [reflexivity|].
    assert (E : runMoveListener m s' l = s').
    { unfold runMoveListener.
      destruct (existsb (moveL_eqb l) (moveListeners (doc s')));
        [|reflexivity].
      destruct l; [|exact Hs'].
      unfold handleMove.
      change (pendingDrag (ctl s')) with (pendingDrag (ctl s)).
      now rewrite Hp. }
    now rewrite E. }
  assert (G : forall ls, In LHandlePointerMove ls ->
            fold_left (runMoveListener m) ls s = s').
  { induction ls as [|l ls IH]; intros Hin; simpl; [contradiction|].
    destruct l as [g|].
    - destruct Hin as [Hin|Hin]; [discriminate|].
      assert (E : runMoveListener m s (LHandleMove g) = s).
      { unfold runMoveListener, handleMove. rewrite Hp.
        now destruct (existsb (moveL_eqb (LHandleMove g))
                        (moveListeners (doc s))). }
      rewrite E. now apply IH.
    - assert (E : runMoveListener m s LHandlePointerMove = s').
      { unfold runMoveListener.
        now rewrite (proj2 (existsb_moveL _ _) Hreg). }
      rewrite E. apply Hq. }
  now apply G.
Qed.

(** X8.  Position updates are coalesced per frame.  During a session (no
    gesture pending) two pointermoves before the next frame leave only
    the second one scheduled; the frame then runs one position update,
    with the coordinates of the second move, and clears the schedule; a
    further frame without a new move does nothing. *)
Theorem moves_coalesce_per_frame
    (s : State) (d : Node) (m1 m2 : MoveEvent) (lay lay' : Layout)
    (Hdrag : isDragging (ctl s) = true)
    (Hd : draggedElement (ctl s) = Some d)
    (Hp : pendingDrag (ctl s) = None)
    (Hreg : In LHandlePointerMove (moveListeners (doc s))) :
  let t := run [PointerMove m1; PointerMove m2; AnimationFrame lay] s in
  run [PointerMove m1; PointerMove m2] s = step s (PointerMove m2)
  /\ t = upd_ctl (set_animationFrameId None)
           (updateDragPosition (m_clientX m2) (m_clientY m2) lay
              (step s (PointerMove m2)))
  /\ step t (AnimationFrame lay') = t.
Proof.
  intros t.
  assert (E2 : step s (PointerMove m2)
               = upd_ctl (set_animationFrameId
                            (Some (m_clientX m2, m_clientY m2))) s)
    by (simpl; now apply (dispatchMove_dragging m2 s d)).
  assert (E12 : run [PointerMove m1; PointerMove m2] s
                = step s (PointerMove m2)).
  { simpl. rewrite (dispatchMove_dragging m1 s d) by assumption.
    rewrite (dispatchMove_dragging m2 _ d) by assumption.
    simpl in E2. rewrite E2. destruct s as [[] [] ?]. reflexivity. }
  assert (Et : t = upd_ctl (set_animationFrameId None)
                     (updateDragPosition (m_clientX m2) (m_clientY m2) lay
                        (step s (PointerMove m2)))).
  { subst t.
    change (run [PointerMove m1; PointerMove m2; AnimationFrame lay] s)
      with (runFrame lay (run [PointerMove m1; PointerMove m2] s)).
    rewrite E12, E2. reflexivity. }
  split; [exact E12|]. split; [exact Et|].
  rewrite Et. simpl. unfold runFrame.
  destruct (updateDragPosition_relayout (m_clientX m2) (m_clientY m2) lay
              (dispatchMove m2 s)) as (l & h & E).
  rewrite E. reflexivity.
Qed.

Lemma coalesce_witness :
  kids (doc (run [PointerMove (mkMove 10 130 6); PointerMove (mkMove 10 500 9);
                  AnimationFrame (stacked [])] draggingB))
  = [itemA; itemC; itemB; placeholderB].
Proof.
  destruct (moves_coalesce_per_frame draggingB itemB (mkMove 10 130 6)
              (mkMove 10 500 9) (stacked []) (stacked []))
    as (_ & E & _).
  - reflexivity.
  - reflexivity.
  - reflexivity.
  - lazy. tauto.
  - cbv zeta in E. rewrite E. reflexivity.
Defined.

Lemma stray_witness :
  isDragging
    (ctl (run (PointerDown downOnNested
               :: map PointerMove [mkMove 10 260 5; mkMove 300 400 9])
            cancelledMouseB)) = false.
Proof.
  refine (proj1 (stray_item_never_drags cancelledMouseB downOnNested
                   (mkPending nestedInB 210 10)
                   [mkMove 10 260 5; mkMove 300 400 9] _ _ _)).
  - reflexivity.
  - reflexivity.
  - reflexivity.
Defined.

(** ** What a session does to the children *)


Lemma removeNode_insertAt (x r : Node) (l : list Node) :
  removeNode x (insertAt x r l) = removeNode x l.
Proof.
  induction l as [|n t IH].
  - simpl insertAt. now rewrite removeNode_cons_same.
  - simpl insertAt. destruct (node_eqb n r).
    + now rewrite removeNode_cons_same.
    + destruct (node_eq_dec n x) as [->|Hn].
      * now rewrite !removeNode_cons_same.
      * rewrite !(removeNode_cons_other x n) by assumption. now rewrite IH.
Qed.

Lemma removeNode_idem (x : Node) (l : list Node) :
  removeNode x (removeNode x l) = removeNode x l.
Proof. apply removeNode_absent, removeNode_not_In. Qed.

(** Taking the moved node out again gives what was there without it. *)
Lemma removeNode_domInsertBefore (x : Node) (ref : option Node)
    (l : list Node) :
  removeNode x (domInsertBefore x ref l) = removeNode x l.
Proof.
  unfold domInsertBefore.
  destruct (match ref with
            | Some r => if node_eqb r x then nextSibling x l else Some r
            | None => None
            end) as [r|].
  - now rewrite removeNode_insertAt, removeNode_idem.
  - unfold removeNode at 1. rewrite filter_app. simpl.
    rewrite node_eqb_refl. simpl. rewrite app_nil_r.
    apply removeNode_idem.
Qed.






(** ** How a session starts, and what an immediate release undoes *)

(** The state [startDrag] builds for a draggable child, field by field. *)
Lemma startDrag_started (item : Node) (s : State) :
  isDragging (ctl s) = false ->
  indexOf item (getDraggableItems s) <> -1 ->
  let ghost := mkNode (nextId (doc s)) (tag item) (roleButton item)
                 (dataDraggable item) (dataPlaceholder item)
                 (listClass item) in
  let ph := mkNode (S (nextId (doc s))) TDiv false false true false in
  let s' := startDrag item s in
  isDragging (ctl s') = true
  /\ draggedElement (ctl s') = Some item
  /\ draggedIndex (ctl s') = indexOf item (getDraggableItems s)
  /\ ghostElement (ctl s') = Some ghost
  /\ placeholder (ctl s') = Some ph
  /\ kids (doc s')
     = domInsertBefore ph (nextSibling item (kids (doc s))) (kids (doc s))
  /\ bodyKids (doc s') = bodyKids (doc s) ++ [ghost]
  /\ itemStyle (doc s') = setStyle item mutedStyle (itemStyle (doc s))
  /\ bodyGrabbing (doc s') = true
  /\ dropLog s' = dropLog s.
Proof.
  intros Hidle Hi. pose proof (indexOf_items_kids item s Hi) as Hin.
  cbv zeta. unfold startDrag. rewrite Hidle.
  cbn [ctl upd_ctl draggedIndex set_draggedIndex].
  change (getDraggableItems
            (upd_ctl (set_draggedElement (Some item))
               (upd_ctl (set_isDragging true) s)))
    with (getDraggableItems s).
  apply Z.eqb_neq in Hi. rewrite Hi.
  unfold createGhost, createPlaceholder. cbv zeta.
  match goal with
  | |- context [viaParent item ?op ?t] =>
      assert (E : viaParent item op t
                  = upd_doc (set_kids (op (kids (doc t)))) t)
        by (unfold viaParent;
            change (kids (doc t)) with (kids (doc s));
            now rewrite (proj2 (isChild_In _ _) Hin));
      rewrite E; clear E
  end.
  cbn. repeat split; reflexivity.
Qed.

(** X10.  Starting a drag on a draggable child of a container without
    repeated children: a clone of the item is appended to
    [document.body] as the ghost, a new [data-placeholder] element is put
    right after the item, the item is dimmed, and nothing else happens to
    the children; the placeholder is not a draggable item, so the
    draggable items and the item's index among them are as before. *)
Theorem drag_start_effects (item : Node) (s : State)
    (Hidle : isDragging (ctl s) = false)
    (Hi : indexOf item (getDraggableItems s) <> -1)
    (Hnd : NoDup (kids (doc s))) :
  let s' := startDrag item s in
  exists ghost ph,
    ghostElement (ctl s') = Some ghost
    /\ placeholder (ctl s') = Some ph
    /\ dataDraggable ghost = dataDraggable item
    /\ tag ghost = tag item
    /\ dataPlaceholder ph = true
    /\ draggableChild ph = false
    /\ bodyKids (doc s') = bodyKids (doc s) ++ [ghost]
    /\ kids (doc s') = spliceAfter [ph] item (removeNode ph (kids (doc s)))
    /\ nextSibling item (kids (doc s')) = Some ph
    /\ getDraggableItems s' = getDraggableItems s
    /\ draggedIndex (ctl s') = indexOf item (getDraggableItems s')
    /\ itemStyle (doc s') item = mutedStyle
    /\ (forall n, n <> item -> itemStyle (doc s') n = itemStyle (doc s) n)
    /\ dropLog s' = dropLog s.
Proof.
  intros s'.
  destruct (startDrag_started item s Hidle Hi)
    as (_ & _ & Hx & Hg & Hp & Hk & Hb & Hs & _ & Hl).
  fold s' in Hx, Hg, Hp, Hk, Hb, Hs, Hl.
  set (ghost := mkNode (nextId (doc s)) (tag item) (roleButton item)
                  (dataDraggable item) (dataPlaceholder item)
                  (listClass item)) in *.
  set (ph := mkNode (S (nextId (doc s))) TDiv false false true false) in *.
  pose proof (indexOf_items_kids item s Hi) as Hin.
  assert (Hitem : In item (getDraggableItems s)).
  { destruct (in_dec node_eq_dec item (getDraggableItems s)) as [H|H];
      [exact H|]. apply indexOf_absent in H. contradiction. }
  assert (Hne : ph <> item).
  { intros E. unfold getDraggableItems in Hitem.
    apply filter_In in Hitem. destruct Hitem as [_ Hd].
    rewrite <- E in Hd. discriminate. }
  assert (Hkids : kids (doc s')
                  = spliceAfter [ph] item (removeNode ph (kids (doc s))))
    by (rewrite Hk; now apply domInsertBefore_after).
  assert (Hitems : getDraggableItems s' = getDraggableItems s).
  { unfold getDraggableItems. rewrite Hk.
    now apply filter_domInsertBefore_skip. }
  exists ghost, ph.
  split; [exact Hg|]. split; [exact Hp|].
  split; [reflexivity|]. split; [reflexivity|].
  split; [reflexivity|]. split; [reflexivity|].
  split; [exact Hb|]. split; [exact Hkids|].
  split.
  { rewrite Hkids. apply nextSibling_spliceAfter.
    apply removeNode_In. split; [exact Hin | congruence]. }
  split; [exact Hitems|].
  split; [now rewrite Hitems|].
  split.
  { rewrite Hs. unfold setStyle. now rewrite node_eqb_refl. }
  split; [|exact Hl].
  intros n Hn. rewrite Hs. unfold setStyle.
  apply node_eqb_neq in Hn. now rewrite Hn.
Qed.

Lemma drag_start_witness :
  getDraggableItems (startDrag itemB threeItems) = [itemA; itemB; itemC]
  /\ draggedIndex (ctl (startDrag itemB threeItems)) = 1.
Proof.
  destruct (drag_start_effects itemB threeItems) as (g & p & H).
  - reflexivity.
  - discriminate.
  - apply noDupb_NoDup. reflexivity.
  - destruct H as (_ & _ & _ & _ & _ & _ & _ & _ & _ & Hit & Hx & _).
    split; [rewrite Hit | rewrite Hx, Hit]; reflexivity.
Defined.

(** What a release does to the document, whatever is logged. *)
Lemma handlePointerUp_doc (s : State) :
  isDragging (ctl s) = true ->
  kids (doc (handlePointerUp s))
  = match placeholder (ctl s) with
    | Some p => removeNode p (kids (doc s))
    | None => kids (doc s)
    end
  /\ bodyKids (doc (handlePointerUp s))
     = match ghostElement (ctl s) with
       | Some g => removeNode g (bodyKids (doc s))
       | None => bodyKids (doc s)
       end
  /\ itemStyle (doc (handlePointerUp s))
     = match draggedElement (ctl s) with
       | Some d => setStyle d clearStyle (itemStyle (doc s))
       | None => itemStyle (doc s)
       end.
Proof.
  intros Hdrag. rewrite (handlePointerUp_unfold s Hdrag).
  set (s1 := commitDrop (upd_ctl (set_animationFrameId None) s)).
  destruct (commitDrop_frame (upd_ctl (set_animationFrameId None) s))
    as (Hc & Hd).
  fold s1 in Hc, Hd.
  destruct (cleanup_doc s1) as (Hb & Hk & Hs).
  rewrite Hc, Hd in Hb, Hk, Hs.
  cbn [kids bodyKids itemStyle doc upd_doc detachDragListeners
       set_bodyGrabbing set_moveListeners set_upListeners
       set_cancelListeners].
  cbn in Hb, Hk, Hs. auto.
Qed.

(** X11.  The index reported to [onDrop] is the place of the item after
    the release: removing the placeholder does not change the draggable
    items, so the second component of the logged pair is the index the
    item has among them once the session is over. *)
Theorem release_reports_resting_place (s : State) (d : Node)
    (Hdrag : isDragging (ctl s) = true)
    (Hd : draggedElement (ctl s) = Some d)
    (Hp : forall p, placeholder (ctl s) = Some p ->
                    draggableChild p = false) :
  let s' := handlePointerUp s in
  getDraggableItems s' = getDraggableItems s
  /\ dropLog s'
     = dropLog s
       ++ dropCalls (draggedIndex (ctl s)) (indexOf d (getDraggableItems s')).
Proof.
  intros s'.
  assert (Hitems : getDraggableItems s' = getDraggableItems s).
  { unfold getDraggableItems, s'.
    destruct (handlePointerUp_doc s Hdrag) as (Hk & _). rewrite Hk.
    destruct (placeholder (ctl s)) as [p|]; [|reflexivity].
    apply filter_removeNode_skip. now apply Hp. }
  split; [exact Hitems|].
  rewrite Hitems. unfold s'. now rewrite (handlePointerUp_log s d Hdrag Hd).
Qed.

Lemma release_witness :
  getDraggableItems (handlePointerUp draggingB) = [itemA; itemB; itemC]
  /\ dropLog (handlePointerUp draggingB) = [].
Proof.
  destruct (release_reports_resting_place draggingB itemB) as (H1 & H2).
  - reflexivity.
  - reflexivity.
  - intros p Hp. lazy in Hp. injection Hp as <-. reflexivity.
  - split; [rewrite H1 | rewrite H2]; reflexivity.
Defined.

(** X12.  A drag that starts and is released before any position update
    is undone as far as the document goes: from an idle state the
    controller can reach, the children and [document.body] are what they
    were and [onDrop] is not called.  The item's inline styling is
    cleared, not restored. *)
Theorem drag_released_at_once_is_undone (item : Node) (s : State)
    (Hidle : isDragging (ctl s) = false)
    (Hw : wellFormed s) :
  let s' := handlePointerUp (startDrag item s) in
  isDragging (ctl s') = false
  /\ kids (doc s') = kids (doc s)
  /\ bodyKids (doc s') = bodyKids (doc s)
  /\ dropLog s' = dropLog s
  /\ (indexOf item (getDraggableItems s) <> -1 ->
      itemStyle (doc s') item = clearStyle)
  /\ (forall n, n <> item -> itemStyle (doc s') n = itemStyle (doc s) n).
Proof.
  intros s'.
  destruct (Z.eq_dec (indexOf item (getDraggableItems s)) (-1)) as [Hi|Hi].
  - assert (E : s' = upd_ctl (set_draggedElement None)
                       (upd_ctl (set_draggedIndex (-1)) s)).
    { unfold s'. rewrite (startDrag_not_child item s Hidle Hi).
      apply handlePointerUp_idle. exact Hidle. }
    rewrite E. cbn.
    split; [exact Hidle|]. split; [reflexivity|]. split; [reflexivity|].
    split; [reflexivity|]. split; [contradiction | reflexivity].
  - destruct Hw as ((Hnd & Hph) & Hb & Hclr & _).
    destruct (Hclr Hidle) as (Hg0 & Hp0).
    destruct (startDrag_started item s Hidle Hi)
      as (Hdrag & Hd & Hx & Hg & Hp & Hk & Hbk & Hs & _ & Hl).
    set (s1 := startDrag item s) in *.
    set (ghost := mkNode (nextId (doc s)) (tag item) (roleButton item)
                    (dataDraggable item) (dataPlaceholder item)
                    (listClass item)) in *.
    set (ph := mkNode (S (nextId (doc s))) TDiv false false true false) in *.
    assert (Hfresh : ~ In ph (kids (doc s))).
    { intros Hin. specialize (Hph ph Hin eq_refl). congruence. }
    destruct (handlePointerUp_doc s1 Hdrag) as (Hk' & Hb' & Hs').
    fold s' in Hk', Hb', Hs'.
    rewrite Hp in Hk'. rewrite Hg in Hb'. rewrite Hd in Hs'.
    destruct (handlePointerUp_cleans s1 Hdrag) as ((Hoff & _) & _).
    fold s' in Hoff.
    assert (Hitems : getDraggableItems s1 = getDraggableItems s).
    { unfold getDraggableItems. rewrite Hk.
      now apply filter_domInsertBefore_skip. }
    split; [exact Hoff|]. split.
    { rewrite Hk', Hk, removeNode_domInsertBefore.
      now apply removeNode_absent. }
    split.
    { rewrite Hb', Hbk, Hb, Hg0. cbn [app].
      now rewrite removeNode_cons_same. }
    split.
    { unfold s'. rewrite (handlePointerUp_log s1 item Hdrag Hd).
      cbv zeta. rewrite Hitems, Hx, Z.eqb_refl, andb_false_r.
      now rewrite app_nil_r. }
    split.
    { intros _. rewrite Hs'. unfold setStyle. now rewrite node_eqb_refl. }
    intros n Hn. rewrite Hs', Hs. unfold setStyle.
    apply node_eqb_neq in Hn. now rewrite Hn.
Qed.

Lemma undone_witness :
  kids (doc (handlePointerUp (startDrag itemB threeItems)))
  = [itemA; itemB; itemC]
  /\ dropLog (handlePointerUp (startDrag itemB threeItems)) = [].
Proof.
  destruct (drag_released_at_once_is_undone itemB threeItems)
    as (_ & Hk & _ & Hl & _).
  - reflexivity.
  - apply wellFormed_initial.
    + apply noDupb_NoDup. reflexivity.
    + intros n Hn. destruct Hn as [<-|[<-|[<-|[]]]]; reflexivity.
  - split; [rewrite Hk | rewrite Hl]; reflexivity.
Defined.

(** * The spots store *)

(** ** Stable sorting by a key *)

Lemma insertByKey_perm {A : Type} (key : A -> Z) (x : A) (l : list A) :
  Permutation (insertByKey key x l) (x :: l).
Proof.
  induction l as [|y t IH]; simpl; [reflexivity|].
  destruct (key x <=? key y); [reflexivity|].
  rewrite IH. apply perm_swap.
Qed.

Lemma sortByKey_perm {A : Type} (key : A -> Z) (l : list A) :
  Permutation (sortByKey key l) l.
Proof.
  induction l as [|x t IH]; simpl; [reflexivity|].
  rewrite insertByKey_perm. now constructor.
Qed.

Lemma insertByKey_ascending {A : Type} (key : A -> Z) (x : A)
    (l : list A) :
  ascending key l -> ascending key (insertByKey key x l).
Proof.
  induction l as [|y t IH]; simpl; [auto|].
  intros (Hy & Ht). destruct (key x <=? key y) eqn:E.
  - apply Z.leb_le in E. simpl. repeat split; try assumption.
    constructor; [exact E|].
    eapply Forall_impl; [|exact Hy]. simpl. intros; lia.
  - apply Z.leb_gt in E. simpl. split; [|now apply IH].
    eapply Permutation_Forall; [symmetry; apply insertByKey_perm|].
    constructor; [lia | exact Hy].
Qed.

Lemma sortByKey_ascending {A : Type} (key : A -> Z) (l : list A) :
  ascending key (sortByKey key l).
Proof.
  induction l as [|x t IH]; simpl; [exact I|].
  now apply insertByKey_ascending.
Qed.

Lemma insertByKey_head {A : Type} (key : A -> Z) (x : A) (l : list A) :
  Forall (fun y => key x <= key y) l -> insertByKey key x l = x :: l.
Proof.
  destruct l as [|y t]; [reflexivity|].
  intros H. inversion H; subst. simpl.
  now rewrite (proj2 (Z.leb_le _ _)).
Qed.

(** Sorting an ascending list changes nothing. *)
Lemma sortByKey_fixed {A : Type} (key : A -> Z) (l : list A) :
  ascending key l -> sortByKey key l = l.
Proof.
  induction l as [|x t IH]; simpl; [reflexivity|].
  intros (Hx & Ht). rewrite (IH Ht). now apply insertByKey_head.
Qed.

Lemma ascending_filter {A : Type} (key : A -> Z) (p : A -> bool)
    (l : list A) :
  ascending key l -> ascending key (filter p l).
Proof.
  induction l as [|x t IH]; simpl; [auto|].
  intros (Hx & Ht). destruct (p x); [|now apply IH].
  simpl. split; [|now apply IH].
  apply Forall_forall. intros y Hy. apply filter_In in Hy.
  rewrite Forall_forall in Hx. now apply Hx.
Qed.

Lemma filter_insertByKey {A : Type} (key : A -> Z) (p : A -> bool) (x : A)
    (l : list A) :
  ascending key l ->
  filter p (insertByKey key x l)
  = if p x then insertByKey key x (filter p l) else filter p l.
Proof.
  induction l as [|y t IH]; simpl.
  - now destruct (p x).
  - intros (Hy & Ht). destruct (key x <=? key y) eqn:E.
    + simpl. destruct (p x) eqn:Px; [|reflexivity].
      destruct (p y); simpl; [now rewrite E|].
      symmetry. apply insertByKey_head.
      apply Z.leb_le in E. apply Forall_forall. intros z Hz.
      apply filter_In in Hz. rewrite Forall_forall in Hy.
      specialize (Hy z (proj1 Hz)). lia.
    + simpl. rewrite (IH Ht).
      destruct (p y), (p x); simpl; rewrite ?E; reflexivity.
Qed.

(** Filtering commutes with the stable sort. *)
Lemma filter_sortByKey {A : Type} (key : A -> Z) (p : A -> bool)
    (l : list A) :
  filter p (sortByKey key l) = sortByKey key (filter p l).
Proof.
  induction l as [|x t IH]; simpl; [reflexivity|].
  rewrite filter_insertByKey by apply sortByKey_ascending.
  rewrite IH. now destruct (p x).
Qed.

Lemma filter_all {A : Type} (p : A -> bool) (l : list A) :
  (forall x, In x l -> p x = true) -> filter p l = l.
Proof.
  induction l as [|x t IH]; simpl; [reflexivity|].
  intros H. rewrite (H x) by now left. f_equal. apply IH.
  intros y Hy. apply H. now right.
Qed.

Lemma filter_idem {A : Type} (p : A -> bool) (l : list A) :
  filter p (filter p l) = filter p l.
Proof. apply filter_all. intros x Hx. now apply filter_In in Hx. Qed.

Lemma map_fixed {A : Type} (f : A -> A) (l : list A) :
  (forall x, In x l -> f x = x) -> map f l = l.
Proof.
  induction l as [|x t IH]; simpl; [reflexivity|].
  intros H. rewrite (H x) by now left. f_equal. apply IH.
  intros y Hy. apply H. now right.
Qed.

Section SpotsStoreFacts.

Context {Coord : Type}.

Notation Spot := (@Spot Coord).
Notation Category := (@Category Coord).
Notation Store := (@Store Coord).

(** ** The derived stores *)

Lemma totalSpots_from (cats : list Category) (n : nat) :
  fold_left (fun sum cat => (sum + List.length (cat_spots cat))%nat) cats n
  = (n + totalSpots cats)%nat.
Proof.
  unfold totalSpots. revert n.
  induction cats as [|c t IH]; intros n; simpl; [lia|].
  rewrite (IH (n + _)%nat), (IH (List.length (cat_spots c))). lia.
Qed.

Lemma totalSpots_cons (c : Category) (cats : list Category) :
  totalSpots (c :: cats)
  = (List.length (cat_spots c) + totalSpots cats)%nat.
Proof. unfold totalSpots at 1. simpl. apply totalSpots_from. Qed.

(** The filter with a tag selected, written out. *)
Lemma filteredCategories_tag (cats : list Category) (tagId : string) :
  tagId <> EmptyString ->
  filteredCategories cats (Some tagId)
  = filter (fun cat => negb (Nat.eqb (List.length (cat_spots cat)) 0))
      (map (fun cat =>
              with_spots (filter (hasTag tagId) (cat_spots cat)) cat) cats).
Proof. intros H. destruct tagId; [contradiction | reflexivity]. Qed.

(** The spots shown with a tag selected. *)
Lemma shown_spots (cats : list Category) (tagId : string) (s : Spot) :
  tagId <> EmptyString ->
  (In s (flat_map cat_spots (filteredCategories cats (Some tagId)))
   <-> In s (flat_map cat_spots cats) /\ hasTag tagId s = true).
Proof.
  intros Htag. rewrite (filteredCategories_tag cats tagId Htag).
  rewrite !in_flat_map. split.
  - intros (c & Hc & Hs). apply filter_In in Hc. destruct Hc as (Hc & _).
    apply in_map_iff in Hc. destruct Hc as (c0 & <- & Hc0).
    cbn in Hs. apply filter_In in Hs. destruct Hs as (Hs & Ht).
    split; [|exact Ht]. now exists c0.
  - intros ((c0 & Hc0 & Hs) & Ht).
    exists (with_spots (filter (hasTag tagId) (cat_spots c0)) c0).
    assert (Hin : In s (filter (hasTag tagId) (cat_spots c0)))
      by now apply filter_In.
    split; [|exact Hin].
    apply filter_In. split; [apply in_map_iff; now exists c0|].
    cbn. destruct (filter (hasTag tagId) (cat_spots c0));
      [contradiction | reflexivity].
Qed.

(** X13.  With a tag selected, [filteredCategories] shows exactly the
    spots that carry the tag, each under its own category and in the
    stored order, and no category that would be empty; a spot without a
    [tags] field is not shown.  With no tag selected, or the empty
    string, it shows everything. *)
Theorem filteredCategories_shows_tagged_spots
    (cats : list Category) (tagId : string)
    (Htag : tagId <> EmptyString) :
  let shown := filteredCategories cats (Some tagId) in
  (forall s, In s (flat_map cat_spots shown)
             <-> In s (flat_map cat_spots cats) /\ hasTag tagId s = true)
  /\ (forall c, In c shown ->
        cat_spots c <> []
        /\ exists c0, In c0 cats
             /\ cat_id c = cat_id c0 /\ cat_name c = cat_name c0
             /\ cat_spots c = filter (hasTag tagId) (cat_spots c0))
  /\ (forall s, spot_tags s = None -> ~ In s (flat_map cat_spots shown))
  /\ filteredCategories cats None = cats
  /\ filteredCategories cats (Some EmptyString) = cats.
Proof.
  intros shown. unfold shown.
  split; [intros s; now apply shown_spots|]. split.
  { rewrite (filteredCategories_tag cats tagId Htag).
    intros c Hc. apply filter_In in Hc. destruct Hc as (Hc & Hne).
    split.
    - intros E. rewrite E in Hne. discriminate.
    - apply in_map_iff in Hc. destruct Hc as (c0 & <- & Hc0).
      exists c0. cbn. auto. }
  split.
  { intros s Hnone Hin. apply (shown_spots cats tagId s Htag) in Hin.
    destruct Hin as (_ & Ht).
    unfold hasTag in Ht. rewrite Hnone in Ht. discriminate. }
  split; reflexivity.
Qed.

Lemma totalSpots_filteredCategories (cats : list Category)
    (f : option string) :
  (totalSpots (filteredCategories cats f) <= totalSpots cats)%nat.
Proof.
  destruct f as [[|a tagId]|]; [apply Nat.le_refl | | apply Nat.le_refl].
  cbn [filteredCategories].
  induction cats as [|c t IH]; [apply Nat.le_refl|].
  cbn [map filter]. rewrite totalSpots_cons.
  pose proof (filter_length_le (hasTag (String a tagId)) (cat_spots c)) as Hl.
  match goal with |- context [if ?b then _ else _] => destruct b end.
  - rewrite totalSpots_cons. cbn [cat_spots with_spots]. lia.
  - lia.
Qed.

(** X14.  Filtering what is already filtered by the same tag changes
    nothing, and the filtered view never counts more spots than the
    store holds. *)
Theorem filteredCategories_idempotent (cats : list Category)
    (f : option string) :
  filteredCategories (filteredCategories cats f) f = filteredCategories cats f
  /\ (totalSpots (filteredCategories cats f) <= totalSpots cats)%nat.
Proof.
  split; [|apply totalSpots_filteredCategories].
  destruct f as [[|a tagId]|]; [reflexivity | | reflexivity].
  cbn [filteredCategories].
  set (F := fun cat : Category =>
              with_spots (filter (hasTag (String a tagId)) (cat_spots cat))
                cat).
  set (ne := fun cat : Category =>
               negb (Nat.eqb (List.length (cat_spots cat)) 0)).
  rewrite (map_fixed F (filter ne (map F cats))).
  - apply filter_idem.
  - intros c Hc. apply filter_In in Hc. destruct Hc as (Hc & _).
    apply in_map_iff in Hc. destruct Hc as (c0 & <- & _).
    unfold F, with_spots. cbn. now rewrite filter_idem.
Qed.

(** ** Realtime changes of the categories *)

Lemma find_present {A : Type} (p : A -> bool) (l : list A) (x : A) :
  In x l -> p x = true -> exists y, find p l = Some y.
Proof.
  intros Hin Hp. destruct (find p l) as [y|] eqn:E; [now exists y|].
  rewrite (find_none p l E x Hin) in Hp. discriminate.
Qed.

Lemma find_absent_id (id : string) (cats : list Category) :
  find (fun c => String.eqb (cat_id c) id) cats = None ->
  ~ In id (map cat_id cats).
Proof.
  intros E Hin. apply in_map_iff in Hin. destruct Hin as (c & <- & Hc).
  pose proof (find_none _ _ E c Hc) as H. cbn in H.
  now rewrite String.eqb_refl in H.
Qed.

(** X15.  Realtime events can be delivered twice without harm: applying
    the same category event a second time changes nothing. *)
Theorem onCategoryChange_idempotent (payload : CategoryPayload)
    (cats : list Category) :
  onCategoryChange payload (onCategoryChange payload cats)
  = onCategoryChange payload cats.
Proof.
  unfold onCategoryChange.
  destruct (cp_eventType payload).
  - destruct (cp_new payload) as [newData|]; [|reflexivity].
    destruct (find (fun c => String.eqb (cat_id c) (dbc_id newData)) cats)
      eqn:E.
    + now rewrite E.
    + destruct (find_present
                  (fun c => String.eqb (cat_id c) (dbc_id newData))
                  (sortByKey categoryOrder
                     (cats ++ [dbCategoryToLocal newData []]))
                  (dbCategoryToLocal newData [])) as (y & ->).
      * eapply Permutation_in; [symmetry; apply sortByKey_perm|].
        apply in_or_app. right. now left.
      * cbn. apply String.eqb_refl.
      * reflexivity.
  - destruct (cp_new payload) as [newData|]; [|reflexivity].
    set (f := fun c : Category =>
                if String.eqb (cat_id c) (dbc_id newData)
                then mkCategory (cat_id c) (dbc_name newData)
                       (dbc_expanded newData) (dbc_display_order newData)
                       (cat_spots c)
                else c).
    rewrite (map_fixed f (sortByKey categoryOrder (map f cats))).
    + apply sortByKey_fixed, sortByKey_ascending.
    + intros c Hc.
      apply (Permutation_in _ (sortByKey_perm categoryOrder (map f cats)))
        in Hc.
      apply in_map_iff in Hc. destruct Hc as (c0 & <- & _).
      unfold f. destruct (String.eqb (cat_id c0) (dbc_id newData)) eqn:E.
      * cbn. now rewrite E.
      * now rewrite E.
  - destruct (cp_old payload) as [oldData|]; [|reflexivity].
    apply filter_idem.
Qed.

Lemma distinct_ids_filter (keep : Category -> bool) (cats : list Category) :
  NoDup (map cat_id cats) -> NoDup (map cat_id (filter keep cats)).
Proof.
  intros Hnd. induction cats as [|c t IH]; [exact Hnd|].
  inversion Hnd as [|? ? Hc Ht]; subst. cbn [filter].
  destruct (keep c); [|now apply IH].
  cbn [map]. constructor; [|now apply IH].
  rewrite in_map_iff. intros (c' & Hid & Hin).
  apply filter_In in Hin. apply Hc. rewrite <- Hid.
  apply in_map. tauto.
Qed.

Lemma onCategoryChange_invariant (payload : CategoryPayload)
    (cats : list Category) :
  ascending categoryOrder cats -> NoDup (map cat_id cats) ->
  ascending categoryOrder (onCategoryChange payload cats)
  /\ NoDup (map cat_id (onCategoryChange payload cats)).
Proof.
  intros Hasc Hnd. unfold onCategoryChange.
  destruct (cp_eventType payload).
  - destruct (cp_new payload) as [newData|]; [|auto].
    destruct (find (fun c => String.eqb (cat_id c) (dbc_id newData)) cats)
      eqn:E; [auto|].
    split; [apply sortByKey_ascending|].
    eapply Permutation_NoDup.
    + apply Permutation_map. symmetry. apply sortByKey_perm.
    + rewrite map_app. cbn [map dbCategoryToLocal cat_id].
      eapply Permutation_NoDup; [apply Permutation_cons_append|].
      constructor; [now apply find_absent_id | exact Hnd].
  - destruct (cp_new payload) as [newData|]; [|auto].
    split; [apply sortByKey_ascending|].
    eapply Permutation_NoDup.
    + apply Permutation_map. symmetry. apply sortByKey_perm.
    + rewrite map_map.
      erewrite map_ext; [exact Hnd|].
      intros c. cbn. now destruct (String.eqb (cat_id c) (dbc_id newData)).
  - destruct (cp_old payload) as [oldData|]; [|auto].
    split; [now apply ascending_filter | now apply distinct_ids_filter].
Qed.

(** X16.  The category list stays in display order and free of repeated
    ids through any sequence of realtime category events, once it is
    so. *)
Theorem realtime_categories_stay_ordered
    (payloads : list CategoryPayload) (cats : list Category)
    (Hasc : ascending categoryOrder cats)
    (Hnd : NoDup (map cat_id cats)) :
  let cats' := fold_left (fun l p => onCategoryChange p l) payloads cats in
  ascending categoryOrder cats' /\ NoDup (map cat_id cats').
Proof.
  revert cats Hasc Hnd.
  induction payloads as [|p ps IH]; intros cats Hasc Hnd; simpl; [auto|].
  destruct (onCategoryChange_invariant p cats Hasc Hnd) as (H1 & H2).
  now apply IH.
Qed.

(** X17.  A category that is inserted and then deleted by realtime
    events leaves the list as it was, when the list was in display
    order and did not hold that id; the other categories keep their
    places whatever display order the new row carried. *)
Theorem realtime_insert_then_delete (row : DbCategory)
    (cats : list Category)
    (Hasc : ascending categoryOrder cats)
    (Hfresh : ~ In (dbc_id row) (map cat_id cats)) :
  onCategoryChange (mkCategoryPayload DELETE None (Some row))
    (onCategoryChange (mkCategoryPayload INSERT (Some row) None) cats)
  = cats.
Proof.
  unfold onCategoryChange.
  cbn [cp_eventType cp_new cp_old].
  destruct (find (fun c => String.eqb (cat_id c) (dbc_id row)) cats)
    as [c|] eqn:E.
  { exfalso. apply find_some in E. destruct E as (Hin & Heq).
    apply String.eqb_eq in Heq. apply Hfresh.
    apply in_map_iff. now exists c. }
  rewrite filter_sortByKey, filter_app.
  cbn [filter dbCategoryToLocal cat_id]. rewrite String.eqb_refl.
  cbn [negb]. rewrite app_nil_r.
  rewrite filter_all.
  - now apply sortByKey_fixed.
  - intros c Hc. apply negb_true_iff.
    destruct (String.eqb (cat_id c) (dbc_id row)) eqn:Ec; [|reflexivity].
    exfalso. apply String.eqb_eq in Ec. apply Hfresh.
    apply in_map_iff. now exists c.
Qed.


(** ** Tags on spots *)

Lemma hasTag_tagsOrEmpty (tagId : string) (s : Spot) :
  hasTag tagId s
  = existsb (fun t => String.eqb (tag_id t) tagId) (tagsOrEmpty s).
Proof. unfold hasTag, tagsOrEmpty. now destruct (spot_tags s). Qed.

Lemma find_existsb {A : Type} (p : A -> bool) (l : list A) :
  existsb p l = match find p l with Some _ => true | None => false end.
Proof.
  induction l as [|x t IH]; simpl; [reflexivity|].
  now destruct (p x).
Qed.

Lemma map_map_spots (f g : Spot -> Spot) (cats : list Category) :
  map (fun cat => with_spots (map g (cat_spots cat)) cat)
    (map (fun cat => with_spots (map f (cat_spots cat)) cat) cats)
  = map (fun cat => with_spots (map (fun s => g (f s)) (cat_spots cat)) cat)
      cats.
Proof.
  rewrite map_map. apply map_ext. intros c. cbn. now rewrite map_map.
Qed.

Lemma map_spots_ext (f g : Spot -> Spot) (cats : list Category) :
  (forall s, f s = g s) ->
  map (fun cat => with_spots (map f (cat_spots cat)) cat) cats
  = map (fun cat => with_spots (map g (cat_spots cat)) cat) cats.
Proof.
  intros H. apply map_ext. intros c. f_equal. now apply map_ext.
Qed.

Lemma filter_tag_app (tagId : string) (tag : StoreTag)
    (l : list StoreTag) :
  tag_id tag = tagId ->
  filter (fun t => negb (String.eqb (tag_id t) tagId)) (l ++ [tag])
  = filter (fun t => negb (String.eqb (tag_id t) tagId)) l.
Proof.
  intros <-. rewrite filter_app. cbn. rewrite String.eqb_refl. cbn.
  apply app_nil_r.
Qed.

(** Removing a tag undoes attaching it. *)
Lemma detachTag_attachTag (spotId tagId : string) (tag : StoreTag)
    (cats : list Category) :
  tag_id tag = tagId ->
  detachTag spotId tagId (attachTag spotId tagId tag cats)
  = detachTag spotId tagId cats.
Proof.
  intros Htag. unfold detachTag, attachTag. rewrite map_map_spots.
  apply map_spots_ext. intros s.
  destruct (String.eqb (spot_id s) spotId) eqn:E; [|now rewrite E].
  cbv zeta.
  destruct (find (fun t => String.eqb (tag_id t) tagId) (tagsOrEmpty s));
    [now rewrite E|].
  cbn [with_tags spot_id]. rewrite E.
  unfold with_tags, tagsOrEmpty at 1. cbn.
  now rewrite (filter_tag_app tagId tag _ Htag).
Qed.

Lemma find_tag_id (tagId : string) (l : list StoreTag) (tag : StoreTag) :
  find (fun t => String.eqb (tag_id t) tagId) l = Some tag ->
  tag_id tag = tagId.
Proof.
  intros H. apply find_some in H. now apply String.eqb_eq.
Qed.

(** X18.  Adding a tag to a spot and then removing it again gives what
    removing it alone gives: whatever the first call did to the store
    (nothing, when the spot already carried the tag or the tag is
    unknown), the second leaves no spot with that id carrying a tag
    with that id. *)
Theorem tag_added_then_removed (spotId tagId : string)
    (dbAdd : option DbError) (st st1 : Store)
    (Hadd : addTagToSpot spotId tagId dbAdd st = inl st1) :
  removeTagFromSpot spotId tagId None st1
  = removeTagFromSpot spotId tagId None st
  /\ (forall st2, removeTagFromSpot spotId tagId None st1 = inl st2 ->
      forall s, In s (flat_map cat_spots (categories st2)) ->
        spot_id s = spotId -> hasTag tagId s = false).
Proof.
  assert (Hclean : forall st0 st2 : Store,
            removeTagFromSpot spotId tagId None st0 = inl st2 ->
            forall s, In s (flat_map cat_spots (categories st2)) ->
              spot_id s = spotId -> hasTag tagId s = false).
  { intros st0 st2 [= <-] s Hs Hid. cbn in Hs.
    apply in_flat_map in Hs. destruct Hs as (c & Hc & Hs).
    unfold detachTag in Hc. apply in_map_iff in Hc.
    destruct Hc as (c0 & <- & _). cbn in Hs.
    apply in_map_iff in Hs. destruct Hs as (s0 & <- & _).
    destruct (String.eqb (spot_id s0) spotId) eqn:E.
    - unfold hasTag, with_tags. cbn.
      apply not_true_is_false. intros H. apply existsb_exists in H.
      destruct H as (t & Ht & Heq). apply filter_In in Ht.
      destruct Ht as (_ & Hne). rewrite Heq in Hne. discriminate.
    - apply String.eqb_neq in E.
      destruct (String.eqb (spot_id s0) spotId) eqn:E'; [|contradiction].
      apply String.eqb_eq in E'. contradiction. }
  split; [|apply Hclean].
  unfold addTagToSpot in Hadd.
  match type of Hadd with
  | (if ?c then _ else _) = _ => destruct c
  end; [now injection Hadd as <-|].
  destruct (find (fun t => String.eqb (tag_id t) tagId) (tags st))
    as [tag|] eqn:Et.
  - assert (Hst1 : st1 = set_categories (attachTag spotId tagId tag) st).
    { destruct dbAdd as [error|]; [|now injection Hadd as <-].
      destruct (isDuplicateError error); [now injection Hadd as <-|].
      discriminate. }
    subst st1. unfold removeTagFromSpot, set_categories.
    cbn [categories tags selectedTagFilter].
    now rewrite (detachTag_attachTag _ _ _ _ (find_tag_id _ _ _ Et)).
  - destruct dbAdd as [error|]; [|now injection Hadd as <-].
    destruct (isDuplicateError error); [now injection Hadd as <-|].
    discriminate.
Qed.


Lemma flat_map_with_spots (f : Spot -> Spot) (cats : list Category) :
  flat_map cat_spots
    (map (fun cat => with_spots (map f (cat_spots cat)) cat) cats)
  = map f (flat_map cat_spots cats).
Proof.
  induction cats as [|c t IH]; simpl; [reflexivity|].
  now rewrite map_app, IH.
Qed.

Lemma find_map_same {A : Type} (p : A -> bool) (f : A -> A) (l : list A) :
  (forall x, p (f x) = p x) ->
  find p (map f l) = option_map f (find p l).
Proof.
  intros H. induction l as [|x t IH]; simpl; [reflexivity|].
  rewrite H. now destruct (p x).
Qed.

Lemma find_tag_absent (tagId : string) (l : list StoreTag) :
  find (fun t => String.eqb (tag_id t) tagId) l = None ->
  ~ In tagId (map tag_id l).
Proof.
  intros E Hin. apply in_map_iff in Hin. destruct Hin as (t & <- & Ht).
  pose proof (find_none _ _ E t Ht) as H. cbn in H.
  now rewrite String.eqb_refl in H.
Qed.

(** After [addTagToSpot] went through, the first spot with the id
    carries the tag, and tag ids that were distinct stay distinct. *)
Lemma addTagToSpot_first (spotId tagId : string) (db : option DbError)
    (st st1 : Store) (tag : StoreTag) (s : Spot) :
  addTagToSpot spotId tagId db st = inl st1 ->
  find (fun t => String.eqb (tag_id t) tagId) (tags st) = Some tag ->
  find (fun s => String.eqb (spot_id s) spotId)
    (flat_map cat_spots (categories st)) = Some s ->
  exists s1,
    find (fun s => String.eqb (spot_id s) spotId)
      (flat_map cat_spots (categories st1)) = Some s1
    /\ hasTag tagId s1 = true
    /\ ((forall s0, In s0 (flat_map cat_spots (categories st)) ->
           NoDup (map tag_id (tagsOrEmpty s0))) ->
        forall s0, In s0 (flat_map cat_spots (categories st1)) ->
          NoDup (map tag_id (tagsOrEmpty s0))).
Proof.
  intros Hadd Htag Hspot.
  unfold addTagToSpot in Hadd. rewrite Hspot, Htag in Hadd.
  destruct (hasTag tagId s) eqn:Hs.
  - injection Hadd as <-. exists s. auto.
  - assert (Hst1 : st1 = set_categories (attachTag spotId tagId tag) st).
    { destruct db as [error|]; [|now injection Hadd as <-].
      destruct (isDuplicateError error); [now injection Hadd as <-|].
      discriminate. }
    subst st1. unfold set_categories, attachTag.
    cbn [categories]. rewrite flat_map_with_spots.
    set (f := fun s0 : Spot =>
                if String.eqb (spot_id s0) spotId
                then
                  let existingTags := tagsOrEmpty s0 in
                  match find (fun t => String.eqb (tag_id t) tagId)
                          existingTags with
                  | Some _ => s0
                  | None => with_tags (existingTags ++ [tag]) s0
                  end
                else s0).
    assert (Hid : forall x, spot_id (f x) = spot_id x).
    { intros x. unfold f.
      destruct (String.eqb (spot_id x) spotId); [|reflexivity].
      cbv zeta. now destruct (find _ (tagsOrEmpty x)). }
    rewrite find_map_same by (intros x; cbn; now rewrite Hid).
    rewrite Hspot. cbn [option_map]. exists (f s).
    split; [reflexivity|]. split.
    + apply find_some in Hspot. destruct Hspot as (_ & E).
      unfold f. rewrite E. cbv zeta.
      rewrite hasTag_tagsOrEmpty, find_existsb in Hs.
      destruct (find (fun t => String.eqb (tag_id t) tagId)
                  (tagsOrEmpty s)); [discriminate|].
      unfold hasTag, with_tags. cbn. rewrite existsb_app. cbn.
      rewrite (find_tag_id _ _ _ Htag), String.eqb_refl.
      apply orb_true_r.
    + intros Hinv s0 Hs0. apply in_map_iff in Hs0.
      destruct Hs0 as (x & <- & Hx). specialize (Hinv x Hx).
      unfold f. destruct (String.eqb (spot_id x) spotId); [|exact Hinv].
      cbv zeta.
      destruct (find (fun t => String.eqb (tag_id t) tagId)
                  (tagsOrEmpty x)) eqn:Ef; [exact Hinv|].
      unfold with_tags, tagsOrEmpty at 1. cbn. rewrite map_app. cbn.
      eapply Permutation_NoDup; [apply Permutation_cons_append|].
      constructor; [|exact Hinv].
      rewrite (find_tag_id _ _ _ Htag). now apply find_tag_absent.
Qed.

(** A duplicate-key answer, as [addTagToSpot] recognises it: the word
    in the message, or the code of a unique violation. *)
Lemma isDuplicateError_iff (error : DbError) :
  isDuplicateError error = true
  <-> err_code error = "23505"%string
      \/ exists m n, err_message error = Some m
                     /\ substring n 9 m = "duplicate"%string.
Proof.
  unfold isDuplicateError, includes. rewrite orb_true_iff, String.eqb_eq.
  split.
  - intros [H|H]; [right | now left].
    destruct (err_message error) as [m|]; [|discriminate].
    destruct (index 0 "duplicate" m) as [n|] eqn:E; [|discriminate].
    exists m, n. split; [reflexivity|].
    exact (index_correct1 0 n "duplicate" m E).
  - intros [H|(m & n & Hm & Hsub)]; [now right | left].
    rewrite Hm.
    destruct (index 0 "duplicate" m) as [k|] eqn:E; [reflexivity|].
    exfalso.
    apply (index_correct3 0 n "duplicate" m E); [discriminate | lia |].
    exact Hsub.
Qed.

(** X19.  [addTagToSpot] on a spot of the store with a tag of the tag
    list.  When the database accepts the call, or answers with a
    duplicate-key error (code [23505], or a message that contains
    [duplicate]), the call goes through: afterwards the spot carries the
    tag, a repeated call returns at once with the store unchanged
    whatever the database would answer, and no spot that carried each
    tag id at most once carries one twice.  Any other error of a call
    for a spot that does not carry the tag yet is thrown. *)
Theorem addTagToSpot_once (spotId tagId : string) (db : option DbError)
    (st : Store) (tag : StoreTag) (s : Spot)
    (Hdb : db = None
           \/ exists error,
                db = Some error
                /\ (err_code error = "23505"%string
                    \/ exists m n, err_message error = Some m
                                   /\ substring n 9 m = "duplicate"%string))
    (Htag : find (fun t => String.eqb (tag_id t) tagId) (tags st) = Some tag)
    (Hspot : find (fun s => String.eqb (spot_id s) spotId)
               (flat_map cat_spots (categories st)) = Some s) :
  (exists st1,
      addTagToSpot spotId tagId db st = inl st1
      /\ (exists s1,
            find (fun s => String.eqb (spot_id s) spotId)
              (flat_map cat_spots (categories st1)) = Some s1
            /\ hasTag tagId s1 = true)
      /\ (forall db', addTagToSpot spotId tagId db' st1 = inl st1)
      /\ ((forall s0, In s0 (flat_map cat_spots (categories st)) ->
             NoDup (map tag_id (tagsOrEmpty s0))) ->
          forall s0, In s0 (flat_map cat_spots (categories st1)) ->
            NoDup (map tag_id (tagsOrEmpty s0))))
  /\ (forall error,
        hasTag tagId s = false ->
        err_code error <> "23505"%string ->
        (forall m n, err_message error = Some m ->
                     substring n 9 m <> "duplicate"%string) ->
        addTagToSpot spotId tagId (Some error) st = inr error).
Proof.
  split.
  - assert (Hadd : exists st1, addTagToSpot spotId tagId db st = inl st1).
    { unfold addTagToSpot. rewrite Hspot, Htag.
      destruct (hasTag tagId s); [now exists st|].
      destruct Hdb as [-> | (error & -> & Hdup)]; [eauto|].
      rewrite (proj2 (isDuplicateError_iff error) Hdup). eauto. }
    destruct Hadd as (st1 & Hadd). exists st1. split; [exact Hadd|].
    destruct (addTagToSpot_first spotId tagId db st st1 tag s Hadd Htag
                Hspot) as (s1 & Hs1 & Ht1 & Hinv).
    split; [now exists s1|]. split; [|exact Hinv].
    intros db'. unfold addTagToSpot. now rewrite Hs1, Ht1.
  - intros error Hnot Hcode Hmsg.
    unfold addTagToSpot. rewrite Hspot, Htag, Hnot.
    destruct (isDuplicateError error) eqn:E; [|reflexivity].
    exfalso. apply isDuplicateError_iff in E.
    destruct E as [E|(m & n & Hm & Hsub)]; [contradiction|].
    exact (Hmsg m n Hm Hsub).
Qed.

(** X30.  A spot that has just been tagged shows up under that tag:
    after [addTagToSpot] went through for a spot of the store and a tag
    of the tag list, [filteredCategories] with that tag selected shows
    a spot with that id which carries the tag. *)
Theorem tagged_spot_is_shown (spotId tagId : string) (db : option DbError)
    (st st1 : Store) (tag : StoreTag) (s : Spot)
    (Hne : tagId <> EmptyString)
    (Hadd : addTagToSpot spotId tagId db st = inl st1)
    (Htag : find (fun t => String.eqb (tag_id t) tagId) (tags st) = Some tag)
    (Hspot : find (fun s => String.eqb (spot_id s) spotId)
               (flat_map cat_spots (categories st)) = Some s) :
  exists s1,
    In s1 (flat_map cat_spots
             (filteredCategories (categories st1) (Some tagId)))
    /\ spot_id s1 = spotId
    /\ hasTag tagId s1 = true.
Proof.
  destruct (addTagToSpot_first spotId tagId db st st1 tag s Hadd Htag Hspot)
    as (s1 & Hs1 & Ht1 & _).
  apply find_some in Hs1. destruct Hs1 as (Hin & Hid).
  exists s1. split; [|split].
  - apply shown_spots; [exact Hne | now split].
  - now apply String.eqb_eq.
  - exact Ht1.
Qed.


(** ** Realtime changes of the spots *)

Lemma find_unique (l : list Spot) (s : Spot) :
  NoDup (map spot_id l) -> In s l ->
  find (fun sp => String.eqb (spot_id sp) (spot_id s)) l = Some s.
Proof.
  induction l as [|x t IH]; simpl; [contradiction|].
  intros Hnd Hin. inversion Hnd as [|? ? Hx Ht]; subst.
  destruct Hin as [->|Hin]; [now rewrite String.eqb_refl|].
  destruct (String.eqb (spot_id x) (spot_id s)) eqn:E; [|now apply IH].
  exfalso. apply String.eqb_eq in E. apply Hx. rewrite E.
  apply in_map_iff. now exists s.
Qed.

(** X20.  A realtime UPDATE of a spot keeps every spot where it is: each
    category keeps its id, name and position, its spots come out in
    display order, and, when the spot ids of a category are distinct,
    the spots of the category keep their ids, tags, coordinates and
    place ids.  A changed [category_id] is not acted on. *)
Theorem realtime_spot_update_keeps_tags (newData : DbSpot)
    (oldData : option DbSpot) (cats : list Category) :
  Forall2
    (fun c c' =>
       cat_id c' = cat_id c /\ cat_name c' = cat_name c
       /\ ascending spotOrder (cat_spots c')
       /\ Permutation (map spot_id (cat_spots c')) (map spot_id (cat_spots c))
       /\ (NoDup (map spot_id (cat_spots c)) ->
           Permutation
             (map (fun s => (spot_id s, tagsOrEmpty s, spot_lat s, spot_lng s,
                             spot_placeId s)) (cat_spots c'))
             (map (fun s => (spot_id s, tagsOrEmpty s, spot_lat s, spot_lng s,
                             spot_placeId s)) (cat_spots c))))
    cats
    (onSpotChange (mkSpotPayload UPDATE (Some newData) oldData) cats).
Proof.
  unfold onSpotChange. cbn [sp_eventType sp_new].
  induction cats as [|c t IH]; cbn [map]; constructor; [|exact IH].
  cbn [cat_id cat_name cat_spots with_spots].
  split; [reflexivity|]. split; [reflexivity|].
  split; [apply sortByKey_ascending|].
  split.
  - rewrite (Permutation_map spot_id (sortByKey_perm spotOrder _)).
    rewrite map_map. erewrite map_ext; [reflexivity|].
    intros s. cbn. now destruct (String.eqb (spot_id s) (dbs_id newData)).
  - intros Hnd.
    rewrite (Permutation_map _ (sortByKey_perm spotOrder _)).
    rewrite map_map. erewrite map_ext_in; [reflexivity|].
    intros s Hs. cbn beta.
    destruct (String.eqb (spot_id s) (dbs_id newData)) eqn:E;
      [|reflexivity].
    apply String.eqb_eq in E. rewrite <- E.
    rewrite (find_unique (cat_spots c) s Hnd Hs). reflexivity.
Qed.

(** X21.  No realtime spot event adds, removes, renames or reorders a
    category.  A DELETE never raises the number of spots, an UPDATE
    keeps it, and an INSERT raises it by at most one when the category
    ids are distinct. *)
Theorem realtime_spot_events_keep_categories (payload : SpotPayload)
    (cats : list Category) :
  map (fun c => (cat_id c, cat_name c, cat_expanded c, cat_display_order c))
    (onSpotChange payload cats)
  = map (fun c => (cat_id c, cat_name c, cat_expanded c, cat_display_order c))
      cats
  /\ match sp_eventType payload with
     | INSERT =>
         NoDup (map cat_id cats) ->
         (totalSpots cats <= totalSpots (onSpotChange payload cats)
          <= S (totalSpots cats))%nat
     | UPDATE => totalSpots (onSpotChange payload cats) = totalSpots cats
     | DELETE =>
         (totalSpots (onSpotChange payload cats) <= totalSpots cats)%nat
     end.
Proof.
  split.
  - unfold onSpotChange.
    destruct (sp_eventType payload).
    + destruct (sp_new payload) as [newData|]; [|reflexivity].
      rewrite map_map. apply map_ext. intros c.
      now match goal with |- context [if ?b then _ else _] => destruct b end.
    + destruct (sp_new payload) as [newData|]; [|reflexivity].
      rewrite map_map. now apply map_ext.
    + destruct (sp_old payload) as [oldData|]; [|reflexivity].
      rewrite map_map. now apply map_ext.
  - unfold onSpotChange.
    destruct (sp_eventType payload).
    + intros Hnd. destruct (sp_new payload) as [newData|]; [|lia].
      induction cats as [|c t IH]; [cbn; lia|].
      inversion Hnd as [|? ? Hc Ht]; subst. specialize (IH Ht).
      cbn [map]. rewrite !totalSpots_cons.
      destruct (String.eqb (cat_id c) (dbs_category_id newData)) eqn:E.
      * apply String.eqb_eq in E.
        match goal with
        | |- context [map ?G t] =>
            assert (Ht' : map G t = t)
        end.
        { apply map_fixed. intros c' Hc'.
          destruct (String.eqb (cat_id c') (dbs_category_id newData)) eqn:E';
            [|reflexivity].
          exfalso. apply String.eqb_eq in E'. apply Hc. rewrite E, <- E'.
          apply in_map_iff. now exists c'. }
        rewrite Ht'.
        destruct (find _ (cat_spots c)); cbn [andb cat_spots with_spots].
        -- lia.
        -- rewrite (Permutation_length (sortByKey_perm spotOrder _)).
           rewrite length_app. cbn [List.length]. lia.
      * cbn [andb]. lia.
    + destruct (sp_new payload) as [newData|]; [|reflexivity].
      induction cats as [|c t IH]; [reflexivity|].
      cbn [map]. rewrite !totalSpots_cons, IH. cbn [cat_spots with_spots].
      rewrite (Permutation_length (sortByKey_perm spotOrder _)).
      now rewrite length_map.
    + destruct (sp_old payload) as [oldData|]; [|lia].
      induction cats as [|c t IH]; [cbn; lia|].
      cbn [map]. rewrite !totalSpots_cons. cbn [cat_spots with_spots].
      pose proof (filter_length_le
                    (fun s => negb (String.eqb (spot_id s) (dbs_id oldData)))
                    (cat_spots c)).
      lia.
Qed.

(** X22.  The realtime spot callback is idempotent as well: a second
    delivery of the same INSERT, UPDATE or DELETE changes nothing. *)
Theorem onSpotChange_idempotent (payload : SpotPayload)
    (cats : list Category) :
  onSpotChange payload (onSpotChange payload cats)
  = onSpotChange payload cats.
Proof.
  unfold onSpotChange.
  destruct (sp_eventType payload).
  - destruct (sp_new payload) as [newData|]; [|reflexivity].
    rewrite map_map. apply map_ext. intros c.
    destruct (String.eqb (cat_id c) (dbs_category_id newData)) eqn:E;
      [|cbn [andb]; now rewrite E].
    destruct (find (fun s => String.eqb (spot_id s) (dbs_id newData))
                (cat_spots c)) eqn:F; cbn [andb].
    + now rewrite E, F.
    + cbn [cat_id cat_spots with_spots]. rewrite E.
      destruct (find_present
                  (fun s => String.eqb (spot_id s) (dbs_id newData))
                  (sortByKey spotOrder
                     (cat_spots c ++ [dbSpotToLocal newData None]))
                  (dbSpotToLocal newData None)) as (y & ->).
      * eapply Permutation_in; [symmetry; apply sortByKey_perm|].
        apply in_or_app. right. now left.
      * cbn. apply String.eqb_refl.
      * reflexivity.
  - destruct (sp_new payload) as [newData|]; [|reflexivity].
    rewrite map_map. apply map_ext. intros c.
    cbn [cat_spots with_spots cat_id cat_name cat_expanded
         cat_display_order].
    unfold with_spots. cbn [cat_id cat_name cat_expanded cat_display_order].
    f_equal.
    set (p := fun sp : Spot => String.eqb (spot_id sp) (dbs_id newData)).
    set (upd := fun (l : list Spot) (s : Spot) =>
                  if String.eqb (spot_id s) (dbs_id newData)
                  then
                    let existingSpot := find p l in
                    mkSpot (spot_id s) (dbs_name newData)
                      (orEmptyString (dbs_address newData))
                      (spot_lat s) (spot_lng s) (spot_placeId s)
                      (dbs_display_order newData)
                      (Some match existingSpot with
                            | Some sp => tagsOrEmpty sp
                            | None => []
                            end)
                  else s).
    change (sortByKey spotOrder
              (map (upd (sortByKey spotOrder (map (upd (cat_spots c))
                                                (cat_spots c))))
                 (sortByKey spotOrder (map (upd (cat_spots c)) (cat_spots c))))
            = sortByKey spotOrder (map (upd (cat_spots c)) (cat_spots c))).
    set (l := cat_spots c).
    set (l1 := sortByKey spotOrder (map (upd l) l)).
    assert (Hl1 : forall s1, In s1 l1 -> exists s0, In s0 l /\ s1 = upd l s0).
    { intros s1 H1.
      apply (Permutation_in _ (sortByKey_perm spotOrder _)) in H1.
      apply in_map_iff in H1. destruct H1 as (s0 & <- & H0). now exists s0. }
    assert (Hid : forall l0 s, spot_id (upd l0 s) = spot_id s).
    { intros l0 s. unfold upd.
      now destruct (String.eqb (spot_id s) (dbs_id newData)). }
    rewrite (map_fixed (upd l1) l1).
    { apply sortByKey_fixed, sortByKey_ascending. }
    intros s1 H1. destruct (Hl1 s1 H1) as (s0 & H0 & ->).
    unfold upd at 1. rewrite Hid.
    destruct (String.eqb (spot_id s0) (dbs_id newData)) eqn:E;
      [|unfold upd; now rewrite E].
    cbv zeta.
    destruct (find_present p l1 (upd l s0) H1) as (sp1 & Hsp1);
      [unfold p; now rewrite Hid|].
    rewrite Hsp1. apply find_some in Hsp1. destruct Hsp1 as (Hin1 & Hp1).
    destruct (Hl1 sp1 Hin1) as (sp0 & Hsp0 & ->).
    unfold p in Hp1. rewrite Hid in Hp1.
    unfold upd. rewrite E, Hp1. cbv zeta. cbn.
    reflexivity.
  - destruct (sp_old payload) as [oldData|]; [|reflexivity].
    rewrite map_map. apply map_ext. intros c.
    cbn [cat_spots with_spots cat_id cat_name cat_expanded
         cat_display_order].
    unfold with_spots. cbn [cat_id cat_name cat_expanded cat_display_order].
    f_equal. apply filter_idem.
Qed.


(** ** Deleting a tag *)

(** X27.  After [removeTag] the tag list holds no tag with that id and
    the view is never left filtered by the deleted tag: if it was the
    selected filter the filter is cleared and [filteredCategories] shows
    every category again, otherwise the filter stays.  The categories
    are not touched, so spots go on carrying the deleted tag. *)
Theorem removeTag_clears_filter (id : string) (st st' : Store)
    (Hok : removeTag id None st = inl st') :
  (forall t, In t (tags st') -> tag_id t <> id)
  /\ (forall t, In t (tags st) -> tag_id t <> id -> In t (tags st'))
  /\ selectedTagFilter st' <> Some id
  /\ categories st' = categories st
  /\ (selectedTagFilter st = Some id ->
      filteredCategories (categories st') (selectedTagFilter st')
      = categories st)
  /\ (selectedTagFilter st <> Some id ->
      selectedTagFilter st' = selectedTagFilter st).
Proof.
  injection Hok as <-. cbn [tags categories selectedTagFilter].
  split.
  { intros t Ht E. apply filter_In in Ht. destruct Ht as (_ & Hne).
    rewrite E, String.eqb_refl in Hne. discriminate. }
  split.
  { intros t Ht Hne. apply filter_In. split; [exact Ht|].
    apply negb_true_iff. now apply String.eqb_neq. }
  split.
  { destruct (selectedTagFilter st) as [f|]; [|discriminate].
    destruct (String.eqb f id) eqn:E; [discriminate|].
    apply String.eqb_neq in E. congruence. }
  split; [reflexivity|]. split.
  - intros ->. now rewrite String.eqb_refl.
  - intros Hne. destruct (selectedTagFilter st) as [f|]; [|reflexivity].
    destruct (String.eqb f id) eqn:E; [|reflexivity].
    apply String.eqb_eq in E. congruence.
Qed.

End SpotsStoreFacts.

Lemma filteredCategories_witness :
  filteredCategories twoCategories None = twoCategories
  /\ ~ In (spotOf "s2" 1 None)
         (flat_map cat_spots (filteredCategories twoCategories (Some "t1"%string))).
Proof.
  destruct (filteredCategories_shows_tagged_spots twoCategories "t1"%string)
    as (_ & _ & Hnone & Hall & _).
  - discriminate.
  - split; [exact Hall|]. apply Hnone. reflexivity.
Defined.

Lemma realtime_ordered_witness :
  ascending categoryOrder
    (fold_left (fun l p => onCategoryChange p l)
       [mkCategoryPayload UPDATE (Some rowFavouriteLast) None;
        mkCategoryPayload INSERT (Some rowWishlist) None] twoCategories).
Proof.
  apply (realtime_categories_stay_ordered
           [mkCategoryPayload UPDATE (Some rowFavouriteLast) None;
            mkCategoryPayload INSERT (Some rowWishlist) None]
           twoCategories).
  - cbn. repeat constructor; discriminate.
  - cbn. repeat constructor; cbn; intuition discriminate.
Defined.

Lemma insert_delete_witness :
  onCategoryChange (mkCategoryPayload DELETE None (Some rowWishlist))
    (onCategoryChange (mkCategoryPayload INSERT (Some rowWishlist) None)
       twoCategories)
  = twoCategories.
Proof.
  apply (realtime_insert_then_delete rowWishlist twoCategories).
  - cbn. repeat constructor; discriminate.
  - cbn. intuition discriminate.
Defined.

Lemma tag_round_trip_witness :
  removeTagFromSpot "s2" "t2" None
    (set_categories (attachTag "s2" "t2" tagView) twoCategoriesStore)
  = removeTagFromSpot "s2" "t2" None twoCategoriesStore.
Proof.
  apply (tag_added_then_removed "s2" "t2" None twoCategoriesStore).
  reflexivity.
Defined.

Lemma addTagToSpot_witness :
  (exists st1,
      addTagToSpot "s2" "t2" (Some duplicateMessage) twoCategoriesStore
      = inl st1
      /\ forall db', addTagToSpot "s2" "t2" db' st1 = inl st1)
  /\ addTagToSpot "s2" "t2" (Some duplicateCode) twoCategoriesStore
     = inl (set_categories (attachTag "s2" "t2" tagView) twoCategoriesStore)
  /\ addTagToSpot "s2" "t2" (Some offlineError) twoCategoriesStore
     = inr offlineError.
Proof.
  pose proof (addTagToSpot_once "s2" "t2" (Some duplicateMessage)
                twoCategoriesStore tagView (spotOf "s2" 1 None)) as H.
  destruct H as ((st1 & Hadd & _ & Hagain & _) & Hthrown).
  - right. exists duplicateMessage. split; [reflexivity|]. right.
    exists "insert failed: duplicate key value"%string, 15%nat.
    split; reflexivity.
  - reflexivity.
  - reflexivity.
  - split; [now exists st1|]. split; [reflexivity|].
    apply Hthrown.
    + reflexivity.
    + discriminate.
    + intros m n [= <-].
      do 8 (destruct n as [|n]; [discriminate|]).
      discriminate.
Defined.

Lemma removeTag_witness :
  filteredCategories twoCategories None = twoCategories.
Proof.
  apply (removeTag_clears_filter "t1"
           (mkStore twoCategories [tagCafe; tagView] (Some "t1"%string))
           (mkStore twoCategories [tagView] None)); reflexivity.
Defined.

Lemma spot_insert_witness :
  (totalSpots twoCategories
   <= totalSpots
        (onSpotChange (mkSpotPayload INSERT (Some rowSpotNew) None)
           twoCategories)
   <= S (totalSpots twoCategories))%nat.
Proof.
  apply (proj2 (realtime_spot_events_keep_categories
                  (mkSpotPayload INSERT (Some rowSpotNew) None)
                  twoCategories)).
  cbn. repeat constructor; cbn; intuition discriminate.
Defined.

Lemma tagged_shown_witness :
  exists s1,
    In s1 (flat_map cat_spots
             (filteredCategories
                (attachTag "s2" "t2" tagView twoCategories)
                (Some "t2"%string)))
    /\ spot_id s1 = "s2"%string
    /\ hasTag "t2" s1 = true.
Proof.
  apply (tagged_spot_is_shown "s2" "t2" None twoCategoriesStore
           (set_categories (attachTag "s2" "t2" tagView) twoCategoriesStore)
           tagView (spotOf "s2" 1 None)).
  - discriminate.
  - reflexivity.
  - reflexivity.
  - reflexivity.
Defined.

(** * Loading the categories *)

Lemma mapGet_mapSet_same (k : string) (v : list StoreTag) (m : TagsMap) :
  mapGet k (mapSet k v m) = Some v.
Proof.
  induction m as [|[k' v'] t IH]; simpl; [now rewrite String.eqb_refl|].
  destruct (String.eqb k' k) eqn:E; simpl; now rewrite E.
Qed.

Lemma mapGet_mapSet_other (k k' : string) (v : list StoreTag) (m : TagsMap) :
  k' <> k -> mapGet k' (mapSet k v m) = mapGet k' m.
Proof.
  intros Hne. induction m as [|[k0 v0] t IH]; simpl.
  - destruct (String.eqb k k') eqn:E; [|reflexivity].
    apply String.eqb_eq in E. congruence.
  - destruct (String.eqb k0 k) eqn:E; simpl.
    + apply String.eqb_eq in E. subst k0.
      destruct (String.eqb k k') eqn:E'; [|reflexivity].
      apply String.eqb_eq in E'. congruence.
    + now rewrite IH.
Qed.

Lemma storeTag_eta (t : StoreTag) : mkStoreTag (tag_id t) (tag_name t) = t.
Proof. now destruct t. Qed.

(** What one round of the [forEach] does to the entry of a spot. *)
Lemma collectTag_get (k : string) (m : TagsMap) (item : SpotTagRow) :
  match mapGet k (collectTag m item) with Some l => l | None => [] end
  = match mapGet k m with Some l => l | None => [] end
    ++ (if String.eqb (str_spot_id item) k then [str_tags item] else []).
Proof.
  unfold collectTag, mapHas. rewrite storeTag_eta.
  destruct (String.eqb (str_spot_id item) k) eqn:E.
  - apply String.eqb_eq in E. subst k.
    destruct (mapGet (str_spot_id item) m) as [arr|] eqn:G; cbn [negb].
    + rewrite G. now rewrite mapGet_mapSet_same.
    + rewrite mapGet_mapSet_same. now rewrite mapGet_mapSet_same.
  - apply String.eqb_neq in E. rewrite app_nil_r.
    destruct (mapGet (str_spot_id item) m) as [arr|] eqn:G; cbn [negb].
    + rewrite G. rewrite mapGet_mapSet_other by congruence. reflexivity.
    + rewrite mapGet_mapSet_same.
      rewrite !mapGet_mapSet_other by congruence. reflexivity.
Qed.

Lemma fold_collectTag_get (k : string) (rows : list SpotTagRow)
    (m : TagsMap) :
  match mapGet k (fold_left collectTag rows m) with
  | Some l => l
  | None => []
  end
  = match mapGet k m with Some l => l | None => [] end
    ++ map str_tags
         (filter (fun r => String.eqb (str_spot_id r) k) rows).
Proof.
  revert m. induction rows as [|r t IH]; intros m; simpl.
  - now rewrite app_nil_r.
  - rewrite IH, collectTag_get, <- app_assoc.
    now destruct (String.eqb (str_spot_id r) k).
Qed.

Lemma filter_either {A : Type} (p q : A -> bool) (l : list A) :
  (forall x, In x l -> p x = true -> q x = false) ->
  Permutation (filter (fun x => p x || q x) l) (filter p l ++ filter q l).
Proof.
  induction l as [|x t IH]; intros H; simpl; [reflexivity|].
  assert (IH' : Permutation (filter (fun x => p x || q x) t)
                  (filter p t ++ filter q t))
    by (apply IH; intros y Hy; apply H; now right).
  destruct (p x) eqn:Px.
  - rewrite (H x) by (auto; now left). simpl. now constructor.
  - simpl. destruct (q x); [|exact IH'].
    rewrite IH'. apply Permutation_middle.
Qed.

Section SpotsQueriesFacts.

Context {Coord : Type}.

Notation DbSpot := (@DbSpot Coord).

Lemma spots_by_category (categories : list DbCategory)
    (spots : list DbSpot) :
  NoDup (map dbc_id categories) ->
  Permutation
    (flat_map (fun cat =>
                 filter (fun spot =>
                           String.eqb (dbs_category_id spot) (dbc_id cat))
                   spots) categories)
    (filter (fun spot =>
               existsb (fun cat =>
                          String.eqb (dbs_category_id spot) (dbc_id cat))
                 categories) spots).
Proof.
  induction categories as [|c t IH]; intros Hnd.
  - cbn. induction spots as [|s r IHs]; [reflexivity | exact IHs].
  - inversion Hnd as [|? ? Hc Ht]; subst. cbn [flat_map existsb].
    rewrite (IH Ht). symmetry.
    apply (filter_either
             (fun spot => String.eqb (dbs_category_id spot) (dbc_id c))
             (fun spot =>
                existsb (fun cat =>
                           String.eqb (dbs_category_id spot) (dbc_id cat)) t)).
    intros s _ Hs. apply String.eqb_eq in Hs.
    apply not_true_is_false. intros H. apply existsb_exists in H.
    destruct H as (c' & Hc' & E). apply String.eqb_eq in E.
    apply Hc. rewrite <- Hs, E. now apply in_map.
Qed.

(** X23.  When the category and spot queries succeed,
    [getCategoriesWithSpots] returns every category row once, in the
    order of the query; under it the spots whose [category_id] is the
    category's id, in the order of the spot query; and with each spot
    the tags of the [spot_tags] rows that name it, in row order.  With
    distinct category ids every spot of a known category appears exactly
    once, and the spots of unknown categories are dropped.  An error of
    the category query, or of the spot query, is returned with no
    data. *)
Theorem getCategoriesWithSpots_groups
    (catResult : QueryResult (list DbCategory))
    (spotResult : QueryResult (list DbSpot))
    (spotTagsData : option (list SpotTagRow))
    (categories : list DbCategory)
    (Hcats : q_data catResult = Some categories)
    (Hcat : q_error catResult = None)
    (Hspot : q_error spotResult = None) :
  let spots := match q_data spotResult with Some l => l | None => [] end in
  let rows := match spotTagsData with Some l => l | None => [] end in
  exists data,
    getCategoriesWithSpots catResult spotResult spotTagsData
    = mkQueryResult (Some data) None
    /\ map fst data = categories
    /\ data
       = map (fun cat =>
                (cat,
                 map (fun spot =>
                        (spot,
                         map str_tags
                           (filter (fun r => String.eqb (str_spot_id r)
                                               (dbs_id spot)) rows)))
                   (filter (fun spot =>
                              String.eqb (dbs_category_id spot) (dbc_id cat))
                      spots)))
           categories
    /\ (NoDup (map dbc_id categories) ->
        Permutation (flat_map (fun entry => map fst (snd entry)) data)
          (filter (fun spot =>
                     existsb (fun cat =>
                                String.eqb (dbs_category_id spot) (dbc_id cat))
                       categories) spots)).
Proof.
  intros spots rows.
  unfold getCategoriesWithSpots. rewrite Hcat, Hcats, Hspot.
  fold spots. unfold buildTagsMap. fold rows.
  eexists. split; [reflexivity|].
  split; [|split].
  - rewrite map_map. cbn [fst]. apply map_id.
  - apply map_ext. intros cat. f_equal. apply map_ext. intros spot.
    f_equal. now rewrite fold_collectTag_get.
  - intros Hnd. rewrite flat_map_concat_map, map_map. cbn [snd].
    rewrite <- (spots_by_category categories spots Hnd).
    rewrite flat_map_concat_map.
    erewrite map_ext; [reflexivity|].
    intros cat. rewrite map_map. cbn [fst]. apply map_id.
Qed.

(** X24.  [getCategoriesWithSpots] gives no data when the category query
    reports an error or comes back without rows, or when the spot query
    reports an error; the error returned is the one of the query that
    failed, the first one if both did. *)
Theorem getCategoriesWithSpots_errors
    (catResult : QueryResult (list DbCategory))
    (spotResult : QueryResult (list DbSpot))
    (spotTagsData : option (list SpotTagRow)) :
  let result := getCategoriesWithSpots catResult spotResult spotTagsData in
  (q_data result = None
   <-> q_error catResult <> None \/ q_data catResult = None
       \/ q_error spotResult <> None)
  /\ (q_error catResult <> None -> q_error result = q_error catResult)
  /\ (q_error catResult = None -> q_data catResult <> None ->
      q_error result = q_error spotResult).
Proof.
  intros result. unfold result, getCategoriesWithSpots.
  destruct (q_error catResult) as [catError|];
    destruct (q_data catResult) as [categories|];
    destruct (q_error spotResult) as [spotError|]; cbn;
    repeat split; intros; try tauto; try congruence;
    try (left; discriminate); try (right; right; discriminate);
    try (right; left; reflexivity);
    try (intuition congruence).
Qed.

End SpotsQueriesFacts.

Lemma grouping_witness :
  exists data,
    getCategoriesWithSpots
      (mkQueryResult (Some [rowFavouriteLast; rowWishlist]) None)
      (mkQueryResult (Some [rowSpotOne; rowSpotOrphan]) None)
      (Some [mkSpotTagRow "s1" tagCafe; mkSpotTagRow "s1" tagView])
    = mkQueryResult (Some data) None
    /\ data = [(rowFavouriteLast, [(rowSpotOne, [tagCafe; tagView])]);
               (rowWishlist, [])].
Proof.
  destruct (getCategoriesWithSpots_groups
              (mkQueryResult (Some [rowFavouriteLast; rowWishlist]) None)
              (mkQueryResult (Some [rowSpotOne; rowSpotOrphan]) None)
              (Some [mkSpotTagRow "s1" tagCafe; mkSpotTagRow "s1" tagView])
              [rowFavouriteLast; rowWishlist])
    as (data & Hres & _ & Hdata & _); try reflexivity.
  exists data. split; [exact Hres|]. rewrite Hdata. reflexivity.
Defined.

Lemma grouping_error_witness :
  q_error
    (getCategoriesWithSpots
       (mkQueryResult (@None (list DbCategory))
          (Some (mkDbError (Some "offline"%string) "500")))
       (mkQueryResult (Some [rowSpotOne]) None) None)
  = Some (mkDbError (Some "offline"%string) "500").
Proof.
  apply (getCategoriesWithSpots_errors
           (mkQueryResult (@None (list DbCategory))
              (Some (mkDbError (Some "offline"%string) "500")))
           (mkQueryResult (Some [rowSpotOne]) None) None).
  discriminate.
Defined.

(** * Nearby place types *)

Lemma NoDup_commonTypes : NoDup commonTypes.
Proof.
  unfold commonTypes.
  repeat (constructor; [cbn; intuition discriminate|]). constructor.
Qed.

Lemma ascending_app {A : Type} (key : A -> Z) (a b : list A) :
  ascending key (a ++ b) ->
  ascending key a /\ forall x y, In x a -> In y b -> key x <= key y.
Proof.
  induction a as [|h t IH]; simpl.
  - intros _. split; [exact I | contradiction].
  - intros (Hh & Ht). destruct (IH Ht) as (Ha & Hab).
    apply Forall_app in Hh. destruct Hh as (Hh1 & Hh2).
    split; [now split|].
    intros x y [<-|Hx] Hy; [|now apply Hab].
    rewrite Forall_forall in Hh2. now apply Hh2.
Qed.

Lemma In_firstn_In {A : Type} (n : nat) (l : list A) (x : A) :
  In x (firstn n l) -> In x l.
Proof.
  intros H. rewrite <- (firstn_skipn n l). apply in_or_app. now left.
Qed.

Lemma NoDup_firstn {A : Type} (n : nat) (l : list A) :
  NoDup l -> NoDup (firstn n l).
Proof.
  intros H. rewrite <- (firstn_skipn n l) in H.
  now apply NoDup_app_remove_r in H.
Qed.

Lemma NoDup_filter_map {A B : Type} (f : A -> B) (keep : A -> bool)
    (l : list A) :
  NoDup (map f l) -> NoDup (map f (filter keep l)).
Proof.
  induction l as [|x t IH]; intros H; [exact H|].
  cbn [map] in H. apply NoDup_cons_iff in H. destruct H as (Hx & Ht).
  cbn [filter]. destruct (keep x); [|now apply IH].
  cbn [map]. apply NoDup_cons_iff. split; [|now apply IH].
  intros Hin. apply Hx. apply in_map_iff in Hin.
  destruct Hin as (y & Hy & Hin). apply filter_In in Hin.
  rewrite <- Hy. apply in_map. tauto.
Qed.

Section PlacesFacts.

Context {Place Coord : Type}.

Notation PlacesService := (@PlacesService Place Coord).

(** X25.  [getNearbyPlaceTypes] with a service returns at most ten
    entries, in descending order of count, no type twice; every entry
    is one of the common types under its label, with a count above zero
    that is the number of places the search for that type found.  A
    type with results is left out only when ten listed types have at
    least as many.  A failed search counts as no results. *)
Theorem getNearbyPlaceTypes_top_ten (service : PlacesService)
    (lat lng : Coord) (radius : Z) :
  let listed := getNearbyPlaceTypes (Some service) lat lng radius in
  (List.length listed <= 10)%nat
  /\ ascending countOrder listed
  /\ NoDup (map ptc_type listed)
  /\ (forall r, In r listed ->
        In (ptc_type r) commonTypes
        /\ ptc_name r = nearbyLabel (ptc_type r)
        /\ (0 < ptc_count r)%nat
        /\ exists places,
             searchNearbyByType (Some service) lat lng (ptc_type r) radius
             = Some places
             /\ ptc_count r = List.length places)
  /\ (forall type places,
        In type commonTypes ->
        searchNearbyByType (Some service) lat lng type radius = Some places ->
        places <> [] ->
        ~ In type (map ptc_type listed) ->
        List.length listed = 10%nat
        /\ forall r, In r listed ->
             (List.length places <= ptc_count r)%nat).
Proof.
  intros listed. unfold listed, getNearbyPlaceTypes.
  set (entry := fun type : string =>
                  match searchNearbyByType (Some service) lat lng type radius
                  with
                  | Some places =>
                      mkPlaceTypeCount type (nearbyLabel type)
                        (List.length places)
                  | None => mkPlaceTypeCount type (nearbyLabel type) 0
                  end).
  set (found := filter (fun r => Nat.ltb 0 (ptc_count r))
                  (map entry commonTypes)).
  set (sorted := sortByKey countOrder found).
  assert (Htype : forall t, ptc_type (entry t) = t).
  { intros t. unfold entry. now destruct (searchNearbyByType _ _ _ _ _). }
  assert (Hsorted : forall r, In r sorted <-> In r found).
  { intros r. split; apply Permutation_in;
      [apply sortByKey_perm | symmetry; apply sortByKey_perm]. }
  split; [apply firstn_le_length|].
  split.
  { pose proof (sortByKey_ascending countOrder found) as H.
    fold sorted in H. rewrite <- (firstn_skipn 10 sorted) in H.
    now apply ascending_app in H. }
  split.
  { rewrite <- firstn_map. apply NoDup_firstn.
    eapply Permutation_NoDup.
    - apply Permutation_map. symmetry. apply sortByKey_perm.
    - apply NoDup_filter_map. rewrite map_map.
      erewrite map_ext; [|exact Htype]. rewrite map_id.
      apply NoDup_commonTypes. }
  split.
  { intros r Hr. apply In_firstn_In, Hsorted in Hr.
    apply filter_In in Hr. destruct Hr as (Hr & Hpos).
    apply in_map_iff in Hr. destruct Hr as (t & <- & Ht).
    rewrite Htype. apply Nat.ltb_lt in Hpos. split; [exact Ht|].
    revert Hpos. unfold entry.
    destruct (searchNearbyByType (Some service) lat lng t radius)
      as [places|]; cbn; intros Hpos.
    - split; [reflexivity|]. split; [exact Hpos|]. now exists places.
    - lia. }
  intros t places Ht Hsearch Hne Hout.
  assert (Hin : In (entry t) sorted).
  { apply Hsorted. apply filter_In. split; [now apply in_map|].
    unfold entry. rewrite Hsearch. cbn.
    destruct places; [contradiction | reflexivity]. }
  assert (Hcount : ptc_count (entry t) = List.length places)
    by (unfold entry; now rewrite Hsearch).
  rewrite <- (firstn_skipn 10 sorted) in Hin.
  apply in_app_or in Hin. destruct Hin as [Hin|Hin].
  { exfalso. apply Hout. rewrite <- (Htype t). now apply in_map. }
  split.
  - apply firstn_length_le.
    destruct (Nat.le_gt_cases 10 (List.length sorted)) as [H|H];
      [exact H|].
    rewrite skipn_all2 in Hin by lia. contradiction.
  - intros r Hr.
    pose proof (sortByKey_ascending countOrder found) as H.
    fold sorted in H. rewrite <- (firstn_skipn 10 sorted) in H.
    apply ascending_app in H. destruct H as (_ & H).
    specialize (H r (entry t) Hr Hin). unfold countOrder in H.
    rewrite Hcount in H. lia.
Qed.

(** X26.  The list is empty exactly when no search found a place: with
    a service, [getNearbyPlaceTypes] returns no entry if and only if
    every one of the twenty searches failed or resolved to no places;
    without a service it returns no entry. *)
Theorem nothing_found_nothing_listed (service : PlacesService)
    (lat lng : Coord) (radius : Z) :
  (getNearbyPlaceTypes (Some service) lat lng radius = []
   <-> forall type, In type commonTypes ->
         searchNearbyByType (Some service) lat lng type radius = None
         \/ searchNearbyByType (Some service) lat lng type radius = Some [])
  /\ @getNearbyPlaceTypes Place Coord None lat lng radius = [].
Proof.
  split; [|reflexivity].
  unfold getNearbyPlaceTypes.
  set (entry := fun type : string =>
                  match searchNearbyByType (Some service) lat lng type radius
                  with
                  | Some places =>
                      mkPlaceTypeCount type (nearbyLabel type)
                        (List.length places)
                  | None => mkPlaceTypeCount type (nearbyLabel type) 0
                  end).
  set (found := filter (fun r => Nat.ltb 0 (ptc_count r))
                  (map entry commonTypes)).
  split.
  - intros Hnone t Ht.
    destruct (searchNearbyByType (Some service) lat lng t radius)
      as [[|p places]|] eqn:E; [now right | | now left].
    exfalso.
    assert (Hin : In (entry t) (sortByKey countOrder found)).
    { eapply Permutation_in; [symmetry; apply sortByKey_perm|].
      apply filter_In. split; [now apply in_map|].
      unfold entry. now rewrite E. }
    destruct (sortByKey countOrder found) as [|r rest];
      [contradiction | discriminate].
  - intros Hall.
    assert (Hfound : found = []).
    { unfold found.
      induction commonTypes as [|t ts IH]; [reflexivity|].
      cbn [map filter].
      assert (Ht : ptc_count (entry t) = 0%nat).
      { unfold entry. destruct (Hall t (or_introl eq_refl)) as [-> | ->];
          reflexivity. }
      rewrite Ht. cbn. apply IH. intros t' Ht'. apply Hall. now right. }
    now rewrite Hfound.
Qed.

End PlacesFacts.

Lemma nearby_witness :
  (List.length sampleListed <= 10)%nat
  /\ sampleListed
     = [mkPlaceTypeCount "cafe" "Coffee Shops" 3;
        mkPlaceTypeCount "park" "Parks" 1].
Proof.
  split.
  - exact (proj1 (getNearbyPlaceTypes_top_ten sampleService 0 0 1000)).
  - reflexivity.
Defined.

Lemma nothing_found_witness :
  getNearbyPlaceTypes (Some silentService) 0 0 1000 = [].
Proof.
  apply (proj1 (nothing_found_nothing_listed silentService 0 0 1000)).
  intros type _. right. reflexivity.
Defined.

(** * Loading the profile *)

Lemma syncMissing_keys (key : string) (field : Profile -> option string)
    (data : option Profile) (value : option string) :
  map fst (syncMissing key field data value)
  = if negb (truthy (fieldOf field data)) && truthy value then [key] else [].
Proof.
  unfold syncMissing. destruct value as [v|].
  - now destruct (negb (truthy (fieldOf field data)) && truthy (Some v)).
  - now rewrite andb_false_r.
Qed.

Lemma chosen_cons (c : bool) (k : string) (ps : list (bool * string)) :
  (if c then [k] else []) ++ map snd (filter fst ps)
  = map snd (filter fst ((c, k) :: ps)).
Proof. now destruct c. Qed.

(** The property names of [updates]: of the twelve candidates, in the
    order of assignment, those whose test passed. *)
Lemma profileUpdates_keys (data : option Profile) (user : AuthUser)
    (browserData : BrowserData) (now : string) :
  exists provider : bool,
    map fst (profileUpdates data user browserData now)
    = map snd
        (filter fst
           [(negb (truthy (fieldOf pr_email data)) && truthy (au_email user),
             "email");
            (true, "last_login_at");
            (true, "sign_in_count");
            (negb (truthy (fieldOf pr_timezone data))
             && truthy (bd_timezone browserData), "timezone");
            (negb (truthy (fieldOf pr_language data))
             && truthy (bd_language browserData), "language");
            (negb (truthy (fieldOf pr_user_agent data))
             && truthy (bd_user_agent browserData), "user_agent");
            (negb (truthy (fieldOf pr_email_confirmed_at data))
             && truthy (au_email_confirmed_at user), "email_confirmed_at");
            (negb (truthy (fieldOf pr_account_created_at data))
             && truthy (au_created_at user), "account_created_at");
            (provider, "provider");
            (negb (truthy (fieldOf pr_locale data))
             && truthy (au_locale user), "locale");
            (negb (truthy (fieldOf pr_first_name data))
             && truthy (au_given_name user), "first_name");
            (negb (truthy (fieldOf pr_last_name data))
             && truthy (au_family_name user), "last_name")]%string).
Proof.
  exists (negb (truthy (fieldOf pr_provider data))
          || negb (match fieldOf pr_provider data with
                   | Some p => String.eqb p (providerOf user)
                   | None => false
                   end)).
  unfold profileUpdates. rewrite !map_app, !syncMissing_keys.
  rewrite <- !chosen_cons. cbn [filter map fst snd app].
  rewrite app_nil_r.
  now destruct (negb (truthy (fieldOf pr_provider data))
                || negb (match fieldOf pr_provider data with
                         | Some p => String.eqb p (providerOf user)
                         | None => false
                         end)).
Qed.




Lemma not_chosen (key : string) (ps : list (bool * string)) :
  In key (map snd (filter fst ps)) -> In (true, key) ps.
Proof.
  intros H. apply in_map_iff in H. destruct H as ((c & k) & Hk & Hin).
  apply filter_In in Hin. cbn in Hk, Hin. destruct Hin as (Hin & Hc).
  now subst.
Qed.

(** X29.  [loadProfile] fills gaps only: a text field of the stored
    profile that is not empty (e-mail, names, locale, time zone,
    language, user agent, the two dates) is never among the properties
    written, whatever the user record and the browser say.  The
    provider is the exception: it is written whenever the stored one is
    empty or differs from the provider of the session. *)
Theorem loadProfile_fills_only_gaps (p : Profile) (user : AuthUser)
    (browserData : BrowserData) (now : string) :
  let updates := profileUpdates (Some p) user browserData now in
  Forall (fun entry : string * (Profile -> option string) =>
            truthy (snd entry p) = true ->
            ~ In (fst entry) (map fst updates))
    [("email", pr_email); ("first_name", pr_first_name);
     ("last_name", pr_last_name); ("locale", pr_locale);
     ("timezone", pr_timezone); ("language", pr_language);
     ("user_agent", pr_user_agent);
     ("email_confirmed_at", pr_email_confirmed_at);
     ("account_created_at", pr_account_created_at)]%string
  /\ (In ("provider"%string, UText (providerOf user)) updates
      <-> truthy (pr_provider p) = false
          \/ pr_provider p <> Some (providerOf user)).
Proof.
  intros updates. split.
  - destruct (profileUpdates_keys (Some p) user browserData now) as (c & E).
    unfold updates. rewrite E. cbn [fieldOf].
    repeat constructor; cbn [fst snd]; intros Hfull Hin;
      apply not_chosen in Hin; rewrite Hfull in Hin; cbn in Hin;
      intuition discriminate.
  - unfold updates, profileUpdates. cbn [fieldOf].
    set (c := negb (truthy (pr_provider p))
              || negb (match pr_provider p with
                       | Some q => String.eqb q (providerOf user)
                       | None => false
                       end)).
    assert (Hc : c = true
                 <-> truthy (pr_provider p) = false
                     \/ pr_provider p <> Some (providerOf user)).
    { unfold c. rewrite orb_true_iff, !negb_true_iff.
      destruct (pr_provider p) as [q|]; cbn.
      - rewrite String.eqb_neq. split; intros [H|H]; auto; right; congruence.
      - split; intros _; [left; reflexivity | left; reflexivity]. }
    rewrite <- Hc. split.
    + intros Hin. destruct c; [reflexivity|]. exfalso.
      repeat (apply in_app_or in Hin; destruct Hin as [Hin|Hin]);
        try (unfold syncMissing in Hin;
             repeat match type of Hin with
                    | In _ (match ?v with _ => _ end) => destruct v
                    | In _ (if ?b then _ else _) => destruct b
                    end;
             cbn in Hin; intuition discriminate).
    + intros ->. do 8 (apply in_or_app; right).
      apply in_or_app. left. now left.
Qed.

Lemma loadProfile_witness :
  existsb (String.eqb "email")
    (map fst (profileUpdates (Some knownProfile) googleUser someBrowser
                "2026-11-03"))
  = false
  /\ Forall (fun k => k <> "email"%string)
       (map fst (profileUpdates (Some knownProfile) googleUser someBrowser
                   "2026-11-03")).
Proof.
  split; [reflexivity|].
  pose proof (proj1 (loadProfile_fills_only_gaps knownProfile googleUser
                       someBrowser "2026-11-03")) as H.
  apply Forall_inv in H. cbn [fst snd] in H.
  apply Forall_forall. intros k Hk ->. now apply H.
Defined.
